(** * etabs: LaTeX table builder (tex_table_cell.py, tex_table.py)

    A shallow embedding of [TexTableCell], [TexTable] and [TexTableSlice].

    Python integers are [Z].  Python strings are [string].  Cells are
    objects that several grid slots may share, so the table carries an
    arena ([heap]) of cell records and the grid holds references (indices
    into the arena); [is] on cells is equality of references.  The packages
    are a Python [set]: a finite set of strings, with no order.  Methods that
    mutate the table are state transformers that may raise: the state
    survives an exception, as it does in Python. *)

From stdpp Require Import base list strings pretty gmap.
From Stdlib Require Import ZArith Lia Ascii.

#[local] Set Warnings "-register-all,-clear-no-such-hyp".

Open Scope Z_scope.

(** ** Exceptions and results *)

Inductive exn : Type :=
| ValueError (msg : string)
| AssertionError (msg : string)
| IndexError
| DanglingReference. (* arena artefact: a grid slot naming no cell; never
                        arises for tables built through the methods *)

Inductive result (A : Type) : Type :=
| Ok (a : A)
| Raise (e : exn).
Arguments Ok {A} a.
Arguments Raise {A} e.

Definition rbind {A B} (m : result A) (k : A → result B) : result B :=
  match m with
  | Ok a => k a
  | Raise e => Raise e
  end.

Notation "'let?' x ':=' e 'in' k" := (rbind e (fun x => k))
  (at level 10, x pattern, e at level 100, k at level 200).

Definition is_ok {A} (m : result A) : Prop := ∃ a, m = Ok a.

(** ** Python sequences *)

Definition len {A} (l : list A) : Z := Z.of_nat (length l).

(** [l[i]] with Python's negative indices. *)
Definition py_index {A} (l : list A) (i : Z) : result A :=
  let k := if i <? 0 then i + len l else i in
  if (0 <=? k) && (k <? len l) then
    match l !! Z.to_nat k with
    | Some x => Ok x
    | None => Raise IndexError
    end
  else Raise IndexError.

(** [l[i] = x]. *)
Definition py_setitem {A} (l : list A) (i : Z) (x : A) : result (list A) :=
  let k := if i <? 0 then i + len l else i in
  if (0 <=? k) && (k <? len l) then Ok (<[Z.to_nat k := x]> l)
  else Raise IndexError.

(** [l.insert(i, x)]: indices past either end are clamped. *)
Definition py_insert {A} (l : list A) (i : Z) (x : A) : list A :=
  let k := if i <? 0 then Z.max 0 (i + len l) else Z.min i (len l) in
  take (Z.to_nat k) l ++ x :: drop (Z.to_nat k) l.

(** [[x] * n]. *)
Definition py_repeat {A} (x : A) (n : Z) : list A := replicate (Z.to_nat n) x.

(** [enumerate(l)], counting from [k]. *)
Fixpoint enumerate_from {A} (k : Z) (l : list A) : list (Z * A) :=
  match l with
  | [] => []
  | x :: l' => (k, x) :: enumerate_from (k + 1) l'
  end.
Definition enumerate {A} (l : list A) : list (Z * A) := enumerate_from 0 l.

(** [range(lo, hi)]. *)
Definition range (lo hi : Z) : list Z :=
  (λ k : nat, lo + Z.of_nat k) <$> seq 0 (Z.to_nat (hi - lo)).

(** A list comprehension whose element expression may raise. *)
Fixpoint mapR {A B} (f : A → result B) (l : list A) : result (list B) :=
  match l with
  | [] => Ok []
  | x :: l' => let? y := f x in let? ys := mapR f l' in Ok (y :: ys)
  end.

(** A loop whose body only reads and may raise. *)
Fixpoint forR_ {A} (l : list A) (body : A → result unit) : result unit :=
  match l with
  | [] => Ok ()
  | x :: l' => let? _ := body x in forR_ l' body
  end.

(** [s.removesuffix(suffix)]. *)
Definition removesuffix (s suffix : string) : string :=
  let n := String.length s in
  let k := String.length suffix in
  if bool_decide (k ≤ n)%nat
     && bool_decide (String.substring (n - k) k s = suffix)
     && negb (bool_decide (k = 0%nat))
  then String.substring 0 (n - k) s
  else s.

(** [str(n)] for an integer. *)
Definition str (n : Z) : string := pretty n.

(** ** tex_table_cell.py *)

Module TexTableCell.

Record t : Type := mk {
  raw_value : string;
  row : Z;
  col : Z;
  width : Z;
  height : Z;
  bold : bool;
  italic : bool;
  l_sep : string;
  r_sep : string;
  (* attributes that only the slice setters create *)
  background_color : option string;
  rotate_degree : option string;
  rotate_options : option string;
}.

(** [__init__]; [width], [height], [l_sep], [r_sep] have defaults
    [1], [1], [""], [""] that every caller in tex_table.py overrides
    or leaves as the defaults explicitly below. *)
Definition __init__ (value : string) (r c w h : Z) (ls rs : string) : t :=
  {| raw_value := value; row := r; col := c; width := w; height := h;
     bold := false; italic := false; l_sep := ls; r_sep := rs;
     background_color := None; rotate_degree := None;
     rotate_options := None |}.

Definition bounds (self : t) : Z * Z * Z * Z :=
  (self.(row), self.(col),
   self.(row) + self.(height) - 1,
   self.(col) + self.(width) - 1).

Definition styled_value (self : t) : string :=
  let ans := self.(raw_value) in
  let ans := if self.(bold) then "\textbf{" +:+ ans +:+ "}" else ans in
  let ans := if self.(italic) then "\textit{" +:+ ans +:+ "}" else ans in
  ans.

(** The two assertions shared by [__getitem__] and [table_value]. *)
Definition assert_in_bounds (self : t) (r c : Z) : result unit :=
  if negb ((self.(row) <=? r) && (r <? self.(row) + self.(height)))
  then Raise (AssertionError "Row out of bounds")
  else if negb ((self.(col) <=? c) && (c <? self.(col) + self.(width)))
  then Raise (AssertionError "Col out of bounds")
  else Ok ().

(** [__getitem__]: the text of the cell at the slot [(r, c)]. *)
Definition __getitem__ (self : t) (r c : Z) : result string :=
  let? _ := assert_in_bounds self r c in
  if (self.(width) =? 1) && (self.(height) =? 1) then Ok (styled_value self)
  else if (r =? self.(row)) && (c =? self.(col)) then
    let ans := styled_value self in
    let col_style := self.(l_sep) +:+ "c" +:+ self.(r_sep) in
    let ans :=
      if 1 <? self.(height)
      then "\multirow{" +:+ str self.(height) +:+ "}{*}{" +:+ ans +:+ "}"
      else ans in
    let ans :=
      if 1 <? self.(width)
      then "\multicolumn{" +:+ str self.(width) +:+ "}{" +:+ col_style
           +:+ "}{" +:+ ans +:+ "}"
      else ans in
    Ok ans
  else Ok "".

Definition table_value (self : t) (r c : Z) : result string :=
  let? _ := assert_in_bounds self r c in
  let? ans := __getitem__ self r c in
  if negb (r =? self.(row)) || (c =? self.(col) + self.(width) - 1)
  then Ok (ans +:+ " & ")
  else Ok ans.

(** Attribute assignments made from outside the class. *)
Definition with_raw_value (v : string) (self : t) : t :=
  mk v self.(row) self.(col) self.(width) self.(height) self.(bold)
     self.(italic) self.(l_sep) self.(r_sep) self.(background_color)
     self.(rotate_degree) self.(rotate_options).
Definition with_bold (v : bool) (self : t) : t :=
  mk self.(raw_value) self.(row) self.(col) self.(width) self.(height) v
     self.(italic) self.(l_sep) self.(r_sep) self.(background_color)
     self.(rotate_degree) self.(rotate_options).
Definition with_italic (v : bool) (self : t) : t :=
  mk self.(raw_value) self.(row) self.(col) self.(width) self.(height)
     self.(bold) v self.(l_sep) self.(r_sep) self.(background_color)
     self.(rotate_degree) self.(rotate_options).
Definition with_background_color (v : string) (self : t) : t :=
  mk self.(raw_value) self.(row) self.(col) self.(width) self.(height)
     self.(bold) self.(italic) self.(l_sep) self.(r_sep) (Some v)
     self.(rotate_degree) self.(rotate_options).
Definition with_rotation (degree options : string) (self : t) : t :=
  mk self.(raw_value) self.(row) self.(col) self.(width) self.(height)
     self.(bold) self.(italic) self.(l_sep) self.(r_sep)
     self.(background_color) (Some degree) (Some options).

(** The slot [(r, c)] lies in the rectangle the cell occupies. *)
Definition covers (self : t) (r c : Z) : Prop :=
  self.(row) ≤ r < self.(row) + self.(height) ∧
  self.(col) ≤ c < self.(col) + self.(width).

End TexTableCell.

(** ** tex_table.py *)

(** [_texcmd]: an environment around the indented [body]. *)
Definition _texcmd (cmd : string) (body : list string)
    (opts args : option string) : list string :=
  [ "\begin{" +:+ cmd +:+ "}"
    +:+ (match opts with Some o => "[" +:+ o +:+ "]" | None => "" end)
    +:+ (match args with Some a => "{" +:+ a +:+ "}" | None => "" end) ]
  ++ ((λ line, "    " +:+ line) <$> body)
  ++ [ "\end{" +:+ cmd +:+ "}" ].

(** The argument of [_flat]: strings and (nested) lists of them. *)
Inductive item : Type :=
| Str (s : string)
| Lst (items : list item).

Fixpoint _flat_item (it : item) : list string :=
  match it with
  | Str s => [s]
  | Lst items =>
      (fix go (l : list item) : list string :=
         match l with
         | [] => []
         | x :: l' => _flat_item x ++ go l'
         end) items
  end.

Definition _flat (items : list item) : list string := _flat_item (Lst items).

Inductive RuleType : Type := TOP | MID | BOTTOM.

(** A reference to a cell object: its index in the table's arena. *)
Abbreviation ref := nat (only parsing).

(** [line.strip()]: whitespace removed at both ends. *)
Definition isspace (a : ascii) : bool :=
  let n := nat_of_ascii a in
  bool_decide (9 ≤ n ≤ 13)%nat || bool_decide (28 ≤ n ≤ 32)%nat.

Fixpoint lstrip (s : string) : string :=
  match s with
  | String a s' => if isspace a then lstrip s' else s
  | EmptyString => EmptyString
  end.

Fixpoint rstrip (s : string) : string :=
  match s with
  | String a s' =>
      match rstrip s' with
      | EmptyString => if isspace a then EmptyString else String a EmptyString
      | rest => String a rest
      end
  | EmptyString => EmptyString
  end.

Definition strip (s : string) : string := rstrip (lstrip s).

(** An index expression of [table[i, j]]: an integer, a slice
    [start:stop], or anything else. *)
Inductive index : Type :=
| Int (i : Z)
| Slice (start stop : option Z)
| OtherIndex.

Module TexTable.

Record t : Type := mk {
  col_styles : list string;
  seps : list string;
  centered : bool;
  caption : option string;
  caption_after_table : bool;
  position : string;
  star : bool;
  empty_value : string;
  label : option string;
  cmd : string;
  table : list (list ref);
  heap : list TexTableCell.t;
  _dependencies : gset string;
  _rules : list (Z * string);
  _lines : list (Z * string);
}.

(** [__init__]. *)
Definition __init__ (centered : bool) (caption : option string)
    (caption_after_table : bool) (position : string) (star : bool)
    (empty_value : string) (label : option string) (cmd : string) : t :=
  {| col_styles := []; seps := []; centered := centered;
     caption := caption; caption_after_table := caption_after_table;
     position := position; star := star; empty_value := empty_value;
     label := label; cmd := cmd; table := []; heap := [];
     _dependencies := ∅; _rules := []; _lines := [] |}.

(** [TexTable()] with every parameter at its default. *)
Definition new : t := __init__ true None false "h!" false "" None "figure".

(** *** Attribute updates *)

Definition with_col_styles (v : list string) (s : t) : t :=
  mk v s.(seps) s.(centered) s.(caption) s.(caption_after_table)
     s.(position) s.(star) s.(empty_value) s.(label) s.(cmd) s.(table)
     s.(heap) s.(_dependencies) s.(_rules) s.(_lines).
Definition with_seps (v : list string) (s : t) : t :=
  mk s.(col_styles) v s.(centered) s.(caption) s.(caption_after_table)
     s.(position) s.(star) s.(empty_value) s.(label) s.(cmd) s.(table)
     s.(heap) s.(_dependencies) s.(_rules) s.(_lines).
Definition with_table (v : list (list ref)) (s : t) : t :=
  mk s.(col_styles) s.(seps) s.(centered) s.(caption)
     s.(caption_after_table) s.(position) s.(star) s.(empty_value)
     s.(label) s.(cmd) v s.(heap) s.(_dependencies) s.(_rules) s.(_lines).
Definition with_heap (v : list TexTableCell.t) (s : t) : t :=
  mk s.(col_styles) s.(seps) s.(centered) s.(caption)
     s.(caption_after_table) s.(position) s.(star) s.(empty_value)
     s.(label) s.(cmd) s.(table) v s.(_dependencies) s.(_rules) s.(_lines).
Definition with_dependencies (v : gset string) (s : t) : t :=
  mk s.(col_styles) s.(seps) s.(centered) s.(caption)
     s.(caption_after_table) s.(position) s.(star) s.(empty_value)
     s.(label) s.(cmd) s.(table) s.(heap) v s.(_rules) s.(_lines).
Definition with_rules (v : list (Z * string)) (s : t) : t :=
  mk s.(col_styles) s.(seps) s.(centered) s.(caption)
     s.(caption_after_table) s.(position) s.(star) s.(empty_value)
     s.(label) s.(cmd) s.(table) s.(heap) s.(_dependencies) v s.(_lines).
Definition with_lines (v : list (Z * string)) (s : t) : t :=
  mk s.(col_styles) s.(seps) s.(centered) s.(caption)
     s.(caption_after_table) s.(position) s.(star) s.(empty_value)
     s.(label) s.(cmd) s.(table) s.(heap) s.(_dependencies) s.(_rules) v.

(** *** Methods as state transformers that may raise *)

Definition M (A : Type) : Type := t → result A * t.

Definition ret {A} (a : A) : M A := λ s, (Ok a, s).
Definition raise {A} (e : exn) : M A := λ s, (Raise e, s).
Definition lift {A} (r : result A) : M A := λ s, (r, s).
Definition get : M t := λ s, (Ok s, s).
Definition modify (f : t → t) : M unit := λ s, (Ok (), f s).
Definition bind {A B} (m : M A) (k : A → M B) : M B :=
  λ s, match m s with
       | (Ok a, s') => k a s'
       | (Raise e, s') => (Raise e, s')
       end.

Notation "'let*' x ':=' e 'in' k" := (bind e (fun x => k))
  (at level 10, x pattern, e at level 100, k at level 200).
Notation "e1 ;; e2" := (bind e1 (fun _ => e2))
  (at level 100, e2 at level 200, right associativity).

(** [for x in l: body(x)]. *)
Fixpoint forM_ {A} (l : list A) (body : A → M unit) : M unit :=
  match l with
  | [] => ret ()
  | x :: l' => body x ;; forM_ l' body
  end.

(** [for _ in range(n): body]. *)
Definition times (n : Z) (body : M unit) : M unit :=
  forM_ (range 0 n) (λ _, body).

(** A condition that is checked and raises [e] when it holds. *)
Definition raise_if (b : bool) (e : exn) : M unit :=
  if b then raise e else ret ().

(** *** Properties *)

Definition col_count (self : t) : Z := len self.(col_styles).
Definition row_count (self : t) : Z := len self.(table).

Definition _str_col_sty (self : t) : result string :=
  let _sty :=
    foldl (λ acc p, acc +:+ (p.1 +:+ p.2)) ""
          (zip self.(seps) self.(col_styles)) in
  let? last := py_index self.(seps) (-1) in
  Ok (_sty +:+ last).

(** [dependencies]: [list(self._dependencies)].  A set has no order of its
    own, and the order of the list changes as packages are added; the
    relation holds of every list the property can return: each package
    once, in any order. *)
Definition dependencies (self : t) (l : list string) : Prop :=
  NoDup l ∧ ∀ dep, dep ∈ l ↔ dep ∈ self.(_dependencies).

(** [_depends_on]: [self._dependencies.add(dependency)]. *)
Definition _depends_on (dependency : string) : M unit :=
  modify (λ s, with_dependencies ({[dependency]} ∪ s.(_dependencies)) s).

(** *** The arena *)

(** Constructing a cell object. *)
Definition new_cell (c : TexTableCell.t) : M ref :=
  λ s, (Ok (length s.(heap)), with_heap (s.(heap) ++ [c]) s).

Definition deref (self : t) (r : ref) : result TexTableCell.t :=
  match self.(heap) !! r with
  | Some c => Ok c
  | None => Raise DanglingReference
  end.

(** Updating attributes of the object behind a reference. *)
Definition update_cell (r : ref) (f : TexTableCell.t → TexTableCell.t)
    : M unit :=
  λ s, match s.(heap) !! r with
       | Some c => (Ok (), with_heap (<[r := f c]> s.(heap)) s)
       | None => (Raise DanglingReference, s)
       end.

(** [self.table[i][j]] as a reference. *)
Definition slot (self : t) (i j : Z) : result ref :=
  let? r := py_index self.(table) i in py_index r j.

(** [self.table[i][j]] as the cell it denotes. *)
Definition cell_at (self : t) (i j : Z) : result TexTableCell.t :=
  let? r := slot self i j in deref self r.

(** [self.table[i][j] = r]. *)
Definition set_slot (i j : Z) (r : ref) : M unit :=
  λ s, match (let? cells := py_index s.(table) i in
              let? cells' := py_setitem cells j r in
              py_setitem s.(table) i cells') with
       | Ok tbl => (Ok (), with_table tbl s)
       | Raise e => (Raise e, s)
       end.

Definition _get_indexing_bounds (self : t) (i j : index)
    : result (Z * Z * Z * Z) :=
  let? (row, to_row) :=
    match i with
    | Slice start stop =>
        Ok (default 0 start,
            match stop with
            | Some e => e - 1
            | None => len self.(table) - 1
            end)
    | Int i => Ok (i, i)
    | OtherIndex => Raise (ValueError "Invalid row index")
    end in
  let? (col, to_col) :=
    match j with
    | Slice start stop =>
        Ok (default 0 start,
            match stop with
            | Some e => e - 1
            | None => col_count self - 1
            end)
    | Int j => Ok (j, j)
    | OtherIndex => Raise (ValueError "Invalid column index")
    end in
  Ok (row, col, to_row, to_col).

(** *** Rules and partial lines *)

Definition add_rule (row : option Z) (rule_type : RuleType) : M unit :=
  _depends_on "booktabs" ;;
  let rule :=
    match rule_type with
    | TOP => "\toprule"
    | MID => "\midrule"
    | BOTTOM => "\bottomrule"
    end in
  modify (λ s,
    with_rules
      (s.(_rules) ++ [(match row with None => len s.(table) | Some r => r end,
                       rule)]) s).

Definition add_cline (row : option Z) (from_col : Z) (to_col : option Z)
    : M unit :=
  _depends_on "booktabs" ;;
  modify (λ s,
    let to_col := match to_col with None => col_count s - 1 | Some c => c end in
    let row := match row with None => len s.(table) | Some r => r end in
    let line :=
      "\cline{" +:+ str (from_col + 1) +:+ "-" +:+ str (to_col + 1) +:+ "} " in
    with_lines (s.(_lines) ++ [(row, strip line)]) s).

Definition add_cmidrule (row : option Z) (from_col : Z) (to_col : option Z)
    (options : string) : M unit :=
  _depends_on "booktabs" ;;
  modify (λ s,
    let to_col := match to_col with None => col_count s - 1 | Some c => c end in
    let row := match row with None => len s.(table) | Some r => r end in
    let line :=
      "\cmidrule(" +:+ options +:+ "){" +:+ str (from_col + 1) +:+ "-"
      +:+ str (to_col + 1) +:+ "} " in
    with_lines (s.(_lines) ++ [(row, strip line)]) s).

(** *** Growing the grid *)

(** Several cell objects constructed in one comprehension. *)
Definition new_cells (cs : list TexTableCell.t) : M (list ref) :=
  λ s, (Ok (seq (length s.(heap)) (length cs)),
        with_heap (s.(heap) ++ cs) s).

(** "Add the row": one fresh 1x1 cell per value, with the separators
    of its column as they are now. *)
Definition append_row (_values : list string) : M unit :=
  let* s := get in
  let* cells :=
    lift (mapR (λ p : Z * string,
                  let? ls := py_index s.(seps) p.1 in
                  let? rs := py_index s.(seps) (p.1 + 1) in
                  Ok (TexTableCell.__init__ p.2 (len s.(table)) p.1 1 1 ls rs))
               (enumerate _values)) in
  let* refs := new_cells cells in
  modify (λ s, with_table (s.(table) ++ [refs]) s).

(** "Add the column": one iteration appends a fresh 1x1 cell to row [i]
    for the [i]-th value. *)
Definition append_col_cell (p : Z * string) : M unit :=
  let* s := get in
  let* cells := lift (py_index s.(table) p.1) in
  let* ls := lift (py_index s.(seps) (-2)) in
  let* rs := lift (py_index s.(seps) (-1)) in
  let* r := new_cell (TexTableCell.__init__ p.2 p.1 (len cells) 1 1 ls rs) in
  modify (λ s, with_table (<[Z.to_nat p.1 := cells ++ [r]]> s.(table)) s).

Definition append_col (_values : list string) : M unit :=
  forM_ (enumerate _values) append_col_cell.

(** [add_row] and [add_col] call each other without values to grow the
    other dimension; [add_col0] and [add_row0] stand for those calls. *)
Definition add_row_with (add_col0 : M unit)
    (values : list (option string)) (start : Z) : M unit :=
  let* s := get in
  let _values := (λ val, default s.(empty_value) val) <$> values in
  let _values :=
    if 0 <? start then py_repeat s.(empty_value) start ++ _values
    else _values in
  let* _values :=
    if len _values <? col_count s then
      ret (_values ++ py_repeat s.(empty_value) (col_count s - len _values))
    else if col_count s <? len _values then
      times (len _values - col_count s) add_col0 ;; ret _values
    else ret _values in
  append_row _values.

Definition add_col_with (add_row0 : M unit)
    (values : list (option string)) (start : Z) : M unit :=
  modify (λ s, with_col_styles (s.(col_styles) ++ ["c"]) s) ;;
  modify (λ s, with_seps (s.(seps) ++ [""]) s) ;;
  let* s := get in
  (if len s.(col_styles) =? 1
   then modify (λ s, with_seps (s.(seps) ++ [""]) s)
   else ret ()) ;;
  let* s := get in
  (* str(None) is "None": add_col has no empty_value substitution *)
  let _values := (λ val, default "None" val) <$> values in
  let _values :=
    if 0 <? start then py_repeat s.(empty_value) start ++ _values
    else _values in
  let* _values :=
    if len _values <? row_count s then
      ret (_values ++ py_repeat s.(empty_value) (row_count s - len _values))
    else if row_count s <? len _values then
      times (len _values - row_count s) add_row0 ;; ret _values
    else ret _values in
  append_col _values.

(** [self.add_col()]: with no values the growth branch of [add_col] is
    not taken ([0 > row_count] never holds), so the callback given here
    is never run. *)
Definition add_col0 : M unit := add_col_with (ret ()) [] 0.

Definition add_row (values : list (option string)) (start : Z) : M unit :=
  add_row_with add_col0 values start.

(** [self.add_row()]. *)
Definition add_row0 : M unit := add_row [] 0.

Definition add_col (values : list (option string)) (start : Z) : M unit :=
  add_col_with add_row0 values start.

(** *** merge *)

Definition overlap_msg : string :=
  "Invalid cell bounds. There is a cell inside the boundaries that is "
  +:+ "not fully contained in the merge area.".

(** The body of the validation loop of [merge]; it only reads. *)
Definition merge_check (self : t) (col to_row to_col _row _col : Z)
    : result unit :=
  let? cell := cell_at self _row _col in
  let '(c_r0, c_c0, c_r1, c_c1) := TexTableCell.bounds cell in
  if (c_r0 <? _row) || (c_c0 <? col) || (to_row <? c_r1) || (to_col <? c_c1)
  then Raise (ValueError overlap_msg)
  else Ok ().

(** The validation loop of [merge] over the rectangle. *)
Definition merge_validate (self : t) (row col to_row to_col : Z)
    : result unit :=
  forR_ (range row (to_row + 1)) (λ _row,
    forR_ (range col (to_col + 1)) (λ _col,
      merge_check self col to_row to_col _row _col)).

Definition merge (value : string) (row col : Z)
    (width height to_row to_col : option Z) : M unit :=
  let* s := get in
  raise_if (negb ((0 <=? row) && (row <? len s.(table))))
           (ValueError ("Invalid row index: " +:+ str row)) ;;
  raise_if (negb ((0 <=? col) && (col <? col_count s)))
           (ValueError ("Invalid column index: " +:+ str col)) ;;
  (* Three [ValueError(...)] objects are built here, for no parameter at
     all, for both [width] and [to_col], and for both [height] and
     [to_row]; none of them is raised. *)
  let* (to_row, height) :=
    match to_row with
    | None =>
        match height with
        | None => raise (AssertionError "")
        | Some height => ret (row + height - 1, height)
        end
    | Some to_row => ret (to_row, to_row - row + 1)
    end in
  let* (to_col, width) :=
    match to_col with
    | None =>
        match width with
        | None => raise (AssertionError "")
        | Some width => ret (col + width - 1, width)
        end
    | Some to_col => ret (to_col, to_col - col + 1)
    end in
  raise_if (negb ((row <=? to_row) && (to_row <? len s.(table))))
           (ValueError ("Invalid height: " +:+ str height)) ;;
  raise_if (negb ((col <=? to_col) && (to_col <? col_count s)))
           (ValueError ("Invalid width: " +:+ str width)) ;;
  lift (merge_validate s row col to_row to_col) ;;
  (if 1 <? height then _depends_on "multirow" else ret ()) ;;
  let* l_sep := lift (py_index s.(seps) col) in
  let* r_sep := lift (py_index s.(seps) (to_col + 1)) in
  let* merged :=
    new_cell (TexTableCell.__init__ value row col width height l_sep r_sep) in
  forM_ (range row (to_row + 1)) (λ _row,
    forM_ (range col (to_col + 1)) (λ _col,
      set_slot _row _col merged)).

(** *** render *)

Definition newline : string := String (ascii_of_nat 10) EmptyString.

(** [render_deps]: the [\usepackage] lines of a list that [dependencies]
    returns, so in an order the set decides. *)
Definition render_deps (self : t) (text : string) : Prop :=
  ∃ l, dependencies self l ∧
       text = String.concat newline
                ((λ dep, "\usepackage{" +:+ dep +:+ "}") <$> l).

(** One element of the comprehension that builds [rows]. *)
Definition render_row (self : t) (row : Z) (row_cells : list ref)
    : result string :=
  let? texts :=
    mapR (λ p : Z * ref,
            let? cell := deref self p.2 in
            TexTableCell.table_value cell row p.1)
         (enumerate row_cells) in
  Ok (removesuffix (String.concat "" texts) " & " +:+ " \\").

Definition base_rows (self : t) : result (list string) :=
  mapR (λ p : Z * list ref, render_row self p.1 p.2)
       (enumerate self.(table)).

(** "Add top lines". *)
Fixpoint add_top_lines (lines : list (Z * string)) (rows : list string)
    : result (list string) :=
  match lines with
  | [] => Ok rows
  | (r_idx, tline) :: lines' =>
      if negb ((0 <=? r_idx) && (r_idx <? len rows))
      then Raise (ValueError ("Invalid line index " +:+ str r_idx))
      else
        let? old := py_index rows r_idx in
        let? rows' := py_setitem rows r_idx (tline +:+ " " +:+ old) in
        add_top_lines lines' rows'
  end.

(** [self._rules.sort(key=lambda x: x[0])]: a stable sort on the row
    index. *)
Fixpoint insert_rule (x : Z * string) (l : list (Z * string))
    : list (Z * string) :=
  match l with
  | [] => [x]
  | y :: l' => if x.1 <=? y.1 then x :: y :: l' else y :: insert_rule x l'
  end.

Definition sort_rules (l : list (Z * string)) : list (Z * string) :=
  foldr insert_rule [] l.

(** "Add rules": the loop over [enumerate(self._rules)]. *)
Fixpoint add_rules (added : Z) (rules : list (Z * string))
    (rows : list string) : result (list string) :=
  match rules with
  | [] => Ok rows
  | (i, tex) :: rules' =>
      if negb ((0 <=? i) && (i <? len rows))
      then Raise (ValueError ("Invalid rule index " +:+ str i))
      else add_rules (added + 1) rules' (py_insert rows (i + added) tex)
  end.

Definition caption_line (self : t) : result string :=
  let caption_line :=
    match self.(caption) with
    | Some c => if bool_decide (c = "") then "" else "\caption{" +:+ c +:+ "}"
    | None => ""
    end in
  match self.(label) with
  | Some l =>
      match self.(caption) with
      | None => Raise (ValueError "Cannot have a label without a caption")
      | Some _ => Ok (caption_line +:+ "\label{" +:+ l +:+ "}")
      end
  | None => Ok caption_line
  end.

(** The nested [_texcmd] calls and the final join. *)
Definition assemble (self : t) (rows : list string)
    (caption_line col_sty : string) : string :=
  String.concat newline
    (_texcmd (self.(cmd) +:+ (if self.(star) then "*" else ""))
       (_flat
          [ Str (if self.(centered) then "\centering" else "");
            Str (if self.(caption_after_table) then "" else caption_line);
            Lst (Str <$> _texcmd "tabular" rows None (Some col_sty));
            Str (if self.(caption_after_table) then caption_line else "") ])
       (Some self.(position)) None).

Definition render : M string :=
  let* s := get in
  let* rows := lift (base_rows s) in
  let* rows := lift (add_top_lines s.(_lines) rows) in
  modify (λ s, with_rules (sort_rules s.(_rules)) s) ;;
  let* s := get in
  let* rows := lift (add_rules 0 s.(_rules) rows) in
  let* caption_line := lift (caption_line s) in
  let* col_sty := lift (_str_col_sty s) in
  ret (assemble s rows caption_line col_sty).

(** *** Indexed assignment *)

(** [__setitem__]: [table[i, j] = value]. *)
Definition __setitem__ (i j : index) (value : string) : M unit :=
  match i, j with
  | Int i, Int j =>
      let* s := get in
      let* r := lift (slot s i j) in
      update_cell r (TexTableCell.with_raw_value value)
  | _, _ =>
      let* s := get in
      let* b := lift (_get_indexing_bounds s i j) in
      let '(row, col, to_row, to_col) := b in
      merge value row col None None (Some to_row) (Some to_col)
  end.

End TexTable.

Module TexTableSlice.
Import TexTable.

(** The slice keeps a reference to its table; here the table is the
    state the methods run in. *)
Record t : Type := mk {
  row : Z;
  col : Z;
  to_row : Z;
  to_col : Z;
  _value : option string;
}.

(** The index pairs [__iter__] walks through, in order. *)
Definition indices (row col to_row to_col : Z) : list (Z * Z) :=
  i ← range row (to_row + 1); j ← range col (to_col + 1); [(i, j)].

(** [all(cell is _cell for cell in self)]: the generator is consumed
    until the first cell that is another object. *)
Fixpoint all_is (table : TexTable.t) (_cell : ref) (l : list (Z * Z))
    : result bool :=
  match l with
  | [] => Ok true
  | (i, j) :: l' =>
      let? r := slot table i j in
      if bool_decide (r = _cell) then all_is table _cell l' else Ok false
  end.

(** [__init__]. *)
Definition __init__ (table : TexTable.t) (row col to_row to_col : Z)
    : result t :=
  let? _value :=
    if (row =? to_row) && (col =? to_col)
    then let? c := cell_at table row col in Ok (Some c.(TexTableCell.raw_value))
    else Ok None in
  let? _cell := slot table row col in
  let? same := all_is table _cell (indices row col to_row to_col) in
  let? _value :=
    if same
    then let? c := deref table _cell in Ok (Some c.(TexTableCell.raw_value))
    else Ok _value in
  Ok (mk row col to_row to_col _value).

(** [TexTable.__getitem__]: [table[i, j]]. *)
Definition of_index (table : TexTable.t) (i j : index) : result t :=
  let? b := _get_indexing_bounds table i j in
  let '(row, col, to_row, to_col) := b in
  __init__ table row col to_row to_col.

Definition value (self : t) : result string :=
  match self.(_value) with
  | Some v => Ok v
  | None => Raise (ValueError "Table slice has multiple values")
  end.

(** The loop shared by the setters: an attribute update on the cell in
    each slot of the rectangle. *)
Definition for_cells (self : t) (f : TexTableCell.t → TexTableCell.t)
    : M unit :=
  forM_ (indices self.(row) self.(col) self.(to_row) self.(to_col))
    (λ p : Z * Z,
       let* s := get in
       let* r := lift (slot s p.1 p.2) in
       update_cell r f).

Definition set_value (self : t) (value : string) : M unit :=
  for_cells self (TexTableCell.with_raw_value value).

Definition for_each (self : t) (func : string → string) : M unit :=
  for_cells self
    (λ c, TexTableCell.with_raw_value (func c.(TexTableCell.raw_value)) c).

Definition set_bold (self : t) (val : bool) : M unit :=
  for_cells self (TexTableCell.with_bold val).

Definition set_italic (self : t) (val : bool) : M unit :=
  for_cells self (TexTableCell.with_italic val).

Definition set_background_color (self : t) (val : string) : M unit :=
  _depends_on "colortbl" ;;
  _depends_on "xcolor" ;;
  for_cells self (TexTableCell.with_background_color val).

(** [degree] is the text [str(degree)] of the angle. *)
Definition set_rotation (self : t) (degree options : string) : M unit :=
  _depends_on "graphicx" ;;
  for_cells self (TexTableCell.with_rotation degree options).

End TexTableSlice.

(** ** Tables built through the methods *)

Import TexTable.

(** A call that mutates the table.  A slice setter is named with the slice
    object it is called on; only the bounds of the slice matter to it. *)
Inductive op : Type :=
| AddRow (values : list (option string)) (start : Z)
| AddCol (values : list (option string)) (start : Z)
| Merge (value : string) (row col : Z) (width height to_row to_col : option Z)
| AddRule (row : option Z) (rule_type : RuleType)
| AddCline (row : option Z) (from_col : Z) (to_col : option Z)
| AddCmidrule (row : option Z) (from_col : Z) (to_col : option Z)
    (options : string)
| SetItem (i j : index) (value : string)
| SetValue (slice : TexTableSlice.t) (value : string)
| ForEach (slice : TexTableSlice.t) (func : string → string)
| SetBold (slice : TexTableSlice.t) (val : bool)
| SetItalic (slice : TexTableSlice.t) (val : bool)
| SetBackgroundColor (slice : TexTableSlice.t) (val : string)
| SetRotation (slice : TexTableSlice.t) (degree options : string)
| Render.

Definition perform (o : op) : M unit :=
  match o with
  | AddRow values start => add_row values start
  | AddCol values start => add_col values start
  | Merge value row col width height to_row to_col =>
      merge value row col width height to_row to_col
  | AddRule row rule_type => add_rule row rule_type
  | AddCline row from_col to_col => add_cline row from_col to_col
  | AddCmidrule row from_col to_col options =>
      add_cmidrule row from_col to_col options
  | SetItem i j value => __setitem__ i j value
  | SetValue slice value => TexTableSlice.set_value slice value
  | ForEach slice func => TexTableSlice.for_each slice func
  | SetBold slice val => TexTableSlice.set_bold slice val
  | SetItalic slice val => TexTableSlice.set_italic slice val
  | SetBackgroundColor slice val => TexTableSlice.set_background_color slice val
  | SetRotation slice degree options =>
      TexTableSlice.set_rotation slice degree options
  | Render => render ;; ret ()
  end.

(** The table after a call, whether it returned or raised. *)
Definition step (o : op) (s : TexTable.t) : TexTable.t := (perform o s).2.

Definition run (ops : list op) (s : TexTable.t) : TexTable.t :=
  foldl (λ s o, step o s) s ops.

Inductive reachable : TexTable.t → Prop :=
| reach_init centered caption caption_after_table position star empty_value
    label cmd :
    reachable (__init__ centered caption caption_after_table position star
                    empty_value label cmd)
| reach_step s o : reachable s → reachable (step o s).

(** *** Invariants *)

(** The separators: none before the first column exists, one more than
    the columns afterwards. *)
Definition seps_ok (s : TexTable.t) : Prop :=
  length s.(seps) =
  match s.(col_styles) with [] => 0%nat | _ => S (length s.(col_styles)) end.

(** Every slot holds a live cell whose rectangle contains the slot. *)
Definition slots_ok (s : TexTable.t) : Prop :=
  ∀ (i j : nat) cells r,
    s.(table) !! i = Some cells → cells !! j = Some r →
    ∃ c, s.(heap) !! r = Some c ∧ TexTableCell.covers c (Z.of_nat i) (Z.of_nat j).

(** Every row has at least [k] slots. *)
Definition rows_ge (k : nat) (s : TexTable.t) : Prop :=
  Forall (λ cells : list ref, (k ≤ length cells)%nat) s.(table).

Definition grid_inv (k : nat) (s : TexTable.t) : Prop :=
  seps_ok s ∧ slots_ok s ∧ rows_ge k s.

Definition table_inv (s : TexTable.t) : Prop :=
  grid_inv (length s.(col_styles)) s.

(** Every row has exactly [col_count] slots. *)
Definition rows_exact (s : TexTable.t) : Prop :=
  Forall (λ cells : list ref, length cells = length s.(col_styles)) s.(table).

(** The number of values [add_col] ends up with before it looks at the
    rows: the values given, after [start] placeholders. *)
Definition add_col_values (values : list (option string)) (start : Z) : Z :=
  (if 0 <? start then start else 0) + len values.


(** *** Rectangles *)

(** The last index of an axis of [merge]: the explicit end when given,
    else the start plus the size. *)
Definition axis_end (start : Z) (size to : option Z) : option Z :=
  match to with
  | Some e => Some e
  | None => (λ n, start + n - 1) <$> size
  end.

(** An inclusive rectangle [(row, col, to_row, to_col)]. *)
Definition rect : Type := Z * Z * Z * Z.

Definition in_rect (R : rect) (i j : Z) : Prop :=
  let '(row, col, to_row, to_col) := R in
  row ≤ i ≤ to_row ∧ col ≤ j ≤ to_col.

Definition rect_overlaps (R1 R2 : rect) : Prop :=
  ∃ i j, in_rect R1 i j ∧ in_rect R2 i j.

Definition rect_contains (outer inner : rect) : Prop :=
  ∀ i j, in_rect inner i j → in_rect outer i j.

Definition rect_in_grid (s : TexTable.t) (R : rect) : Prop :=
  let '(row, col, to_row, to_col) := R in
  0 ≤ row ≤ to_row ∧ to_row < row_count s ∧
  0 ≤ col ≤ to_col ∧ to_col < col_count s.

(** *** Partial lines *)

(** The texts registered for row [r], in registration order. *)
Definition lines_for (r : Z) (lines : list (Z * string)) : list string :=
  snd <$> filter (λ p : Z * string, p.1 = r) lines.

(** *** Reasoning about the methods *)

(** [m] returns from [s], and its value and final state satisfy [Q]. *)
Definition returns {A} (m : M A) (s : TexTable.t) (Q : A → TexTable.t → Prop)
    : Prop :=
  ∃ a s', m s = (Ok a, s') ∧ Q a s'.

(** Two cell records with the same rectangle. *)
Definition same_rect (c c' : TexTableCell.t) : Prop :=
  c'.(TexTableCell.row) = c.(TexTableCell.row) ∧
  c'.(TexTableCell.col) = c.(TexTableCell.col) ∧
  c'.(TexTableCell.width) = c.(TexTableCell.width) ∧
  c'.(TexTableCell.height) = c.(TexTableCell.height).

(** [s'] has the columns, separators and grid of [s], and every cell of
    [s] is still there with its rectangle. *)
Definition extends (s s' : TexTable.t) : Prop :=
  s'.(col_styles) = s.(col_styles) ∧ s'.(seps) = s.(seps) ∧
  s'.(table) = s.(table) ∧
  ∀ r c, s.(heap) !! r = Some c →
         ∃ c', s'.(heap) !! r = Some c' ∧ same_rect c c'.

(** [s'] has the columns, separators, grid and cells of [s]. *)
Definition same_grid (s s' : TexTable.t) : Prop :=
  s'.(col_styles) = s.(col_styles) ∧ s'.(seps) = s.(seps) ∧
  s'.(table) = s.(table) ∧ s'.(heap) = s.(heap).

(** The number of slots of each row. *)
Definition lens (s : TexTable.t) : list nat := length <$> s.(table).

#[global] Instance in_rect_dec (R : rect) (i j : Z) : Decision (in_rect R i j).
Proof. destruct R as [[[??]?]?]. cbn. apply _. Defined.

(** The grid [T'] is the grid [T] with every slot of the rectangle [R]
    holding [r]. *)
Definition filled (R : rect) (r : ref) (T T' : list (list ref)) : Prop :=
  length T' = length T ∧
  ∀ (i : nat) cells, T !! i = Some cells →
    ∃ cells', T' !! i = Some cells' ∧ length cells' = length cells ∧
      ∀ j : nat, (j < length cells)%nat →
        cells' !! j =
        if decide (in_rect R (Z.of_nat i) (Z.of_nat j)) then Some r
        else cells !! j.

(** [merge] once the last row and column of the rectangle are known; the
    height and width it works with are those of the rectangle. *)
Definition merge_area (value : string) (row col to_row to_col : Z) : M unit :=
  let height := to_row - row + 1 in
  let width := to_col - col + 1 in
  let* s := get in
  raise_if (negb ((row <=? to_row) && (to_row <? len s.(table))))
           (ValueError ("Invalid height: " +:+ str height)) ;;
  raise_if (negb ((col <=? to_col) && (to_col <? col_count s)))
           (ValueError ("Invalid width: " +:+ str width)) ;;
  lift (merge_validate s row col to_row to_col) ;;
  (if 1 <? height then _depends_on "multirow" else ret ()) ;;
  let* l_sep := lift (py_index s.(seps) col) in
  let* r_sep := lift (py_index s.(seps) (to_col + 1)) in
  let* merged :=
    new_cell (TexTableCell.__init__ value row col width height l_sep r_sep) in
  forM_ (range row (to_row + 1)) (λ _row,
    forM_ (range col (to_col + 1)) (λ _col,
      set_slot _row _col merged)).

(** What a call does to the number of columns and to the length of each
    row. *)
Definition shape_after (o : op) (s s' : TexTable.t) : Prop :=
  match o with
  | AddRow values start =>
      len s'.(col_styles) = Z.max (col_count s) (add_col_values values start) ∧
      lens s' =
        ((λ n, n + Z.to_nat (add_col_values values start - col_count s))%nat
           <$> lens s)
        ++ [Z.to_nat (Z.max (col_count s) (add_col_values values start))]
  | AddCol values start =>
      length s'.(col_styles) = S (length s.(col_styles)) ∧
      lens s' =
        S <$> (lens s
               ++ replicate
                    (Z.to_nat (add_col_values values start - row_count s))
                    (S (length s.(col_styles))))
  | _ => length s'.(col_styles) = length s.(col_styles) ∧ lens s' = lens s
  end.

(** *** Example tables *)

(** [t = TexTable(); t.add_row("A", "B"); t.add_row("C", "D")]. *)
Definition table_2x2 : TexTable.t :=
  run [AddRow [Some "A"; Some "B"] 0; AddRow [Some "C"; Some "D"] 0] new.

(** One row of three cells. *)
Definition table_1x3 : TexTable.t :=
  run [AddRow [Some "a"; Some "b"; Some "c"] 0] new.

(** [table_1x3] after [merge("X", 0, 0, width=2, height=1)]. *)
Definition table_1x3_merged : TexTable.t :=
  run [Merge "X" 0 0 (Some 2) (Some 1) None None] table_1x3.

(** Three rows of one cell, then [add_rule(rule_type=RuleType.BOTTOM)]. *)
Definition table_3x1_bottom : TexTable.t :=
  run [AddRow [Some "A"] 0; AddRow [Some "B"] 0; AddRow [Some "C"] 0;
       AddRule None BOTTOM] new.

(** One row, with a cline and then a cmidrule registered for it. *)
Definition table_two_lines : TexTable.t :=
  run [AddRow [Some "A"] 0; AddCline (Some 0) 0 (Some 0);
       AddCmidrule (Some 0) 0 None "lr"] new.


(** [TexTable(label="tab:x")]: a label and no caption. *)
Definition table_label_only : TexTable.t :=
  __init__ true None false "h!" false "" (Some "tab:x") "figure".

(** *** The checks of render *)

(** The rules, in the order [render] inserts them, pass its range check
    when the row block has [n] lines: each insertion makes the block one
    line longer for the rules after it. *)
Fixpoint rules_fit (n : Z) (rules : list (Z * string)) : Prop :=
  match rules with
  | [] => True
  | (i, _) :: rules' => 0 ≤ i < n ∧ rules_fit (n + 1) rules'
  end.

(** A label is set and there is no caption. *)
Definition label_without_caption (s : TexTable.t) : Prop :=
  is_Some s.(label) ∧ s.(caption) = None.

(** *** Relations that every outcome of a method respects *)

(** Whatever [m] does from a state, returning or raising, the state it
    leaves is related to the one it started from. *)
Definition keeps {A} (R : relation TexTable.t) (m : M A) : Prop :=
  ∀ s, R s (m s).2.

(** The packages that a method records. *)
Definition known_packages : gset string :=
  {[ "booktabs"; "multirow"; "colortbl"; "xcolor"; "graphicx" ]}.

(** No package is lost, and a package that is new is one of those the
    methods record. *)
Definition deps_grow (s s' : TexTable.t) : Prop :=
  s.(_dependencies) ⊆ s'.(_dependencies) ∧
  s'.(_dependencies) ⊆ s.(_dependencies) ∪ known_packages.

(** The package names are the same. *)
Definition deps_same (s s' : TexTable.t) : Prop :=
  s'.(_dependencies) = s.(_dependencies).

(** *** The cells of the grid *)

(** The reference in the slot [(i, j)], when the grid has that slot. *)
Definition slot_nat (s : TexTable.t) (i j : nat) : option ref :=
  s.(table) !! i ≫= λ cells : list ref, cells !! j.

(** A cell that occupies the slot [(i, j)] alone. *)
Definition unit_cell_at (c : TexTableCell.t) (i j : nat) : Prop :=
  c.(TexTableCell.row) = Z.of_nat i ∧ c.(TexTableCell.col) = Z.of_nat j ∧
  c.(TexTableCell.width) = 1 ∧ c.(TexTableCell.height) = 1.

(** From [s] to [s'] the grid and the arena only grow: no cell record
    changes, every slot keeps its reference, and a slot that is new holds a
    cell constructed after [s] that occupies that slot alone. *)
Definition grows (s s' : TexTable.t) : Prop :=
  s.(heap) `prefix_of` s'.(heap) ∧
  (∀ i j r, slot_nat s i j = Some r → slot_nat s' i j = Some r) ∧
  (∀ i j r, slot_nat s' i j = Some r →
     slot_nat s i j = Some r ∨
     ((length s.(heap) ≤ r)%nat ∧
      ∃ c, s'.(heap) !! r = Some c ∧ unit_cell_at c i j)).

(** The cells tile the grid: every slot that the rectangle of a cell of
    the grid covers is a slot of the grid and holds that very cell. *)
Definition tiled (s : TexTable.t) : Prop :=
  ∀ (i j : nat) r c,
    slot_nat s i j = Some r → s.(heap) !! r = Some c →
    ∀ a b : Z, TexTableCell.covers c a b →
      0 ≤ a ∧ 0 ≤ b ∧ slot_nat s (Z.to_nat a) (Z.to_nat b) = Some r.

(** *** The slice setters *)

#[global] Instance exn_eq_dec : EqDecision exn.
Proof. solve_decision. Defined.

#[global] Instance result_eq_dec {A} `{EqDecision A} : EqDecision (result A).
Proof. solve_decision. Defined.

(** The rectangle of a slice and the index pairs its loops walk through. *)
Definition slice_rect (slice : TexTableSlice.t) : rect :=
  (slice.(TexTableSlice.row), slice.(TexTableSlice.col),
   slice.(TexTableSlice.to_row), slice.(TexTableSlice.to_col)).

Definition slice_indices (slice : TexTableSlice.t) : list (Z * Z) :=
  TexTableSlice.indices slice.(TexTableSlice.row) slice.(TexTableSlice.col)
    slice.(TexTableSlice.to_row) slice.(TexTableSlice.to_col).

(** The number of index pairs of [l] whose slot holds the reference [r]. *)
Definition visits (s : TexTable.t) (l : list (Z * Z)) (r : ref) : nat :=
  length (filter (λ p : Z * Z, slot s p.1 p.2 = Ok r) l).

(** The number of slots of a slice. *)
Definition slice_size (slice : TexTableSlice.t) : nat :=
  (Z.to_nat (slice.(TexTableSlice.to_row) + 1 - slice.(TexTableSlice.row))
   * Z.to_nat (slice.(TexTableSlice.to_col) + 1 - slice.(TexTableSlice.col)))%nat.

(** The slice a setter call is made on. *)
Definition setter_of (o : op) : option TexTableSlice.t :=
  match o with
  | SetValue slice _ | ForEach slice _ | SetBold slice _ | SetItalic slice _
  | SetBackgroundColor slice _ | SetRotation slice _ _ => Some slice
  | _ => None
  end.

(** From [s] to [s'] the grid is the same and every cell that no slot of
    the index pairs [l] holds is the same record. *)
Definition frame (l : list (Z * Z)) (s s' : TexTable.t) : Prop :=
  s'.(table) = s.(table) ∧
  ∀ r c, s.(heap) !! r = Some c →
         (∀ p, p ∈ l → slot s p.1 p.2 ≠ Ok r) →
         s'.(heap) !! r = Some c.

(** Every slot of the rectangle [R] denotes a cell that satisfies [P]. *)
Definition every_cell (R : rect) (P : TexTableCell.t → Prop)
    (s : TexTable.t) : Prop :=
  ∀ i j, in_rect R i j → ∃ c, cell_at s i j = Ok c ∧ P c.

(** *** The order of the rules *)

(** The rules are in the order the sort of [render] leaves them in:
    by ascending row index. *)
Fixpoint rules_sorted (l : list (Z * string)) : Prop :=
  match l with
  | [] => True
  | x :: l' => Forall (λ y : Z * string, x.1 ≤ y.1) l' ∧ rules_sorted l'
  end.

(** *** What render reads of a cell *)

(** Two cell records that agree on everything [table_value] reads: all but
    the colour and the rotation. *)
Definition same_text (c c' : TexTableCell.t) : Prop :=
  c'.(TexTableCell.raw_value) = c.(TexTableCell.raw_value) ∧
  same_rect c c' ∧
  c'.(TexTableCell.bold) = c.(TexTableCell.bold) ∧
  c'.(TexTableCell.italic) = c.(TexTableCell.italic) ∧
  c'.(TexTableCell.l_sep) = c.(TexTableCell.l_sep) ∧
  c'.(TexTableCell.r_sep) = c.(TexTableCell.r_sep).

(** [s'] is [s] but for the packages and for the colour and the rotation
    of its cells. *)
Definition same_texts (s s' : TexTable.t) : Prop :=
  ∃ h d, s' = with_heap h (with_dependencies d s) ∧
         Forall2 same_text s.(heap) h.

(** *** The values of a new row and of a new column *)

(** The texts of the row [add_row] appends: [start] placeholders, the
    values with [empty_value] for [None], and placeholders up to the
    number of columns. *)
Definition row_values (s : TexTable.t) (values : list (option string))
    (start : Z) : list string :=
  let _values := (λ val, default s.(empty_value) val) <$> values in
  let _values :=
    if 0 <? start then py_repeat s.(empty_value) start ++ _values
    else _values in
  _values ++ py_repeat s.(empty_value) (col_count s - len _values).

(** The texts of the column [add_col] appends: [start] placeholders, the
    values with the text [None] for [None], and placeholders up to the
    number of rows. *)
Definition col_values (s : TexTable.t) (values : list (option string))
    (start : Z) : list string :=
  let _values := (λ val, default "None" val) <$> values in
  let _values :=
    if 0 <? start then py_repeat s.(empty_value) start ++ _values
    else _values in
  _values ++ py_repeat s.(empty_value) (row_count s - len _values).

(** The table has as many rows, and the same placeholder text. *)
Definition same_rows (s s' : TexTable.t) : Prop :=
  length s'.(table) = length s.(table) ∧ s'.(empty_value) = s.(empty_value).

(** The table has as many columns, and the same placeholder text. *)
Definition same_cols (s s' : TexTable.t) : Prop :=
  s'.(col_styles) = s.(col_styles) ∧ s'.(seps) = s.(seps) ∧
  s'.(empty_value) = s.(empty_value).

(** *** The text of a cell along a row *)

(** What the slots of a cell in row [r] add to the text of that row: the
    texts [table_value] gives for the columns of the cell, joined as
    [render] joins them. *)
Definition cell_row_text (c : TexTableCell.t) (r : Z) : result string :=
  let? texts :=
    mapR (λ k, TexTableCell.table_value c r k)
         (range c.(TexTableCell.col)
                (c.(TexTableCell.col) + c.(TexTableCell.width))) in
  Ok (String.concat "" texts).

(** *** Column styles and separators *)

(** Every column has the style [c], every separator is empty, and every
    cell was made with empty separators. *)
Definition plain (s : TexTable.t) : Prop :=
  Forall (λ sty, sty = "c") s.(col_styles) ∧
  Forall (λ sep, sep = "") s.(seps) ∧
  Forall (λ c, c.(TexTableCell.l_sep) = "" ∧ c.(TexTableCell.r_sep) = "")
         s.(heap).

Definition stays_plain (s s' : TexTable.t) : Prop := plain s → plain s'.

(** *** The first check of render that fails *)

(** The row index of the first partial line, in registration order, that
    fails the range check of [render] against [n] rows. *)
Fixpoint first_bad_line (n : Z) (lines : list (Z * string)) : option Z :=
  match lines with
  | [] => None
  | (r_idx, _) :: lines' =>
      if (0 <=? r_idx) && (r_idx <? n) then first_bad_line n lines'
      else Some r_idx
  end.

(** The row index of the first rule, in the order [render] inserts them,
    that fails its range check; the row block has [n] lines and is one
    line longer for every rule inserted before. *)
Fixpoint first_bad_rule (n : Z) (rules : list (Z * string)) : option Z :=
  match rules with
  | [] => None
  | (i, _) :: rules' =>
      if (0 <=? i) && (i <? n) then first_bad_rule (n + 1) rules'
      else Some i
  end.

(** A row without values, so that the table has a row and no column, then
    a partial line for row 3 and a rule. *)
Definition table_no_columns : TexTable.t :=
  run [AddRow [] 0; AddCline (Some 3) 0 None; AddRule None MID] new.

(** One row, rules registered for the rows 5 and 0 in this order, and a
    partial line for row 3. *)
Definition table_unsorted_rules : TexTable.t :=
  run [AddRow [Some "A"] 0; AddRule (Some 5) MID; AddRule (Some 0) MID;
       AddCline (Some 3) 0 None] new.

(** * Properties *)

(** ** Strings *)

Lemma string_app_nil_r (s : string) : s +:+ "" = s.
Proof.
  induction s as [|a s IH]; [done|].
  change (String a (s +:+ "") = String a s). by rewrite IH.
Qed.

Lemma string_app_assoc (a b c : string) : (a +:+ b) +:+ c = a +:+ b +:+ c.
Proof.
  induction a as [|x a IH]; [done|].
  change (String x ((a +:+ b) +:+ c) = String x (a +:+ b +:+ c)).
  by rewrite IH.
Qed.

Lemma string_app_ne (s suffix : string) : suffix ≠ "" → s +:+ suffix ≠ s.
Proof.
  intros Hne Heq. apply Hne.
  apply (inj (String.append s)). by rewrite Heq, string_app_nil_r.
Qed.

(** ** Cells *)

Lemma assert_in_bounds_covers (c : TexTableCell.t) (r k : Z) :
  TexTableCell.covers c r k → TexTableCell.assert_in_bounds c r k = Ok ().
Proof.
  intros [[??] [??]]. unfold TexTableCell.assert_in_bounds.
  destruct (Z.leb_spec (TexTableCell.row c) r); [|lia].
  destruct (Z.ltb_spec r (TexTableCell.row c + TexTableCell.height c)); [|lia].
  destruct (Z.leb_spec (TexTableCell.col c) k); [|lia].
  destruct (Z.ltb_spec k (TexTableCell.col c + TexTableCell.width c)); [|lia].
  done.
Qed.

Lemma getitem_covers (c : TexTableCell.t) (r k : Z) :
  TexTableCell.covers c r k → is_ok (TexTableCell.__getitem__ c r k).
Proof.
  intros Hc. unfold TexTableCell.__getitem__.
  rewrite (assert_in_bounds_covers _ _ _ Hc). cbn.
  repeat case_match; by eexists.
Qed.

Lemma table_value_covers (c : TexTableCell.t) (r k : Z) :
  TexTableCell.covers c r k → is_ok (TexTableCell.table_value c r k).
Proof.
  intros Hc. unfold TexTableCell.table_value.
  rewrite (assert_in_bounds_covers _ _ _ Hc). cbn.
  destruct (getitem_covers _ _ _ Hc) as [ans ->]. cbn.
  case_match; by eexists.
Qed.

(** C1. For a slot inside the rectangle of a cell, [table_value] is the
    text of [__getitem__] followed by the separator [" & "] exactly when the
    row is not the anchor row or the column is the rightmost column of the
    span; it is that text alone exactly when the row is the anchor row and
    the column is not the rightmost one. *)
Theorem table_value_separator (c : TexTableCell.t) (r k : Z) :
  TexTableCell.covers c r k →
  ∃ ans,
    TexTableCell.__getitem__ c r k = Ok ans ∧
    (TexTableCell.table_value c r k = Ok (ans +:+ " & ") ↔
       r ≠ c.(TexTableCell.row) ∨
       k = c.(TexTableCell.col) + c.(TexTableCell.width) - 1) ∧
    (TexTableCell.table_value c r k = Ok ans ↔
       r = c.(TexTableCell.row) ∧
       k ≠ c.(TexTableCell.col) + c.(TexTableCell.width) - 1).
Proof.
  intros Hc. destruct (getitem_covers _ _ _ Hc) as [ans Hans].
  exists ans. split; [done|].
  unfold TexTableCell.table_value.
  rewrite (assert_in_bounds_covers _ _ _ Hc), Hans. cbn.
  assert (Hne : ans +:+ " & " ≠ ans) by by apply string_app_ne.
  destruct (Z.eqb_spec r (TexTableCell.row c));
    destruct (Z.eqb_spec k (TexTableCell.col c + TexTableCell.width c - 1));
    cbn; split; split; intros H; try done; try (by simplify_eq);
    try (by left); try (by right); try (by destruct H as [|]);
    try (by destruct H as []); try tauto.
Qed.

Lemma table_value_separator_witness :
  ∃ ans,
    TexTableCell.__getitem__ (TexTableCell.__init__ "X" 0 0 2 2 "" "") 1 0 = Ok ans ∧
    (TexTableCell.table_value (TexTableCell.__init__ "X" 0 0 2 2 "" "") 1 0
       = Ok (ans +:+ " & ") ↔ 1 ≠ 0 ∨ 0 = 0 + 2 - 1) ∧
    (TexTableCell.table_value (TexTableCell.__init__ "X" 0 0 2 2 "" "") 1 0
       = Ok ans ↔ 1 = 0 ∧ 0 ≠ 0 + 2 - 1).
Proof.
  apply (table_value_separator (TexTableCell.__init__ "X" 0 0 2 2 "" "") 1 0).
  unfold TexTableCell.covers; simpl; lia.
Defined.

(** ** Python sequences *)

Lemma len_nonneg {A} (l : list A) : 0 ≤ len l.
Proof. unfold len. lia. Qed.

Lemma len_app {A} (l1 l2 : list A) : len (l1 ++ l2) = len l1 + len l2.
Proof. unfold len. rewrite length_app. lia. Qed.

Lemma py_index_nonneg {A} (l : list A) (i : Z) (x : A) :
  0 ≤ i → py_index l i = Ok x ↔ l !! Z.to_nat i = Some x.
Proof.
  intros Hi. unfold py_index.
  destruct (Z.ltb_spec i 0); [lia|].
  destruct (Z.leb_spec 0 i); [|lia]. cbn.
  destruct (Z.ltb_spec i (len l)) as [Hlt|Hge].
  - destruct (l !! Z.to_nat i) eqn:E; split; intros; by simplify_eq.
  - split; [done|]. intros Hl%lookup_lt_Some. unfold len in Hge. lia.
Qed.

Lemma py_index_nat {A} (l : list A) (n : nat) (x : A) :
  py_index l (Z.of_nat n) = Ok x ↔ l !! n = Some x.
Proof. rewrite py_index_nonneg by lia. by rewrite Nat2Z.id. Qed.

Lemma py_index_is_ok {A} (l : list A) (i : Z) :
  0 ≤ i < len l → is_ok (py_index l i).
Proof.
  intros [??]. destruct (lookup_lt_is_Some_2 l (Z.to_nat i)) as [x Hx].
  { unfold len in *. lia. }
  exists x. by apply py_index_nonneg.
Qed.

Lemma py_index_ok_bound {A} (l : list A) (i : Z) (x : A) :
  py_index l i = Ok x → - len l ≤ i < len l.
Proof.
  unfold py_index.
  destruct (Z.ltb_spec i 0);
    [destruct (Z.leb_spec 0 (i + len l)); destruct (Z.ltb_spec (i + len l) (len l))
    |destruct (Z.leb_spec 0 i); destruct (Z.ltb_spec i (len l))];
    cbn; intros; simplify_eq; lia.
Qed.

Lemma py_setitem_nonneg {A} (l : list A) (i : Z) (x : A) :
  0 ≤ i < len l → py_setitem l i x = Ok (<[Z.to_nat i := x]> l).
Proof.
  intros [??]. unfold py_setitem.
  destruct (Z.ltb_spec i 0); [lia|].
  destruct (Z.leb_spec 0 i); [|lia].
  destruct (Z.ltb_spec i (len l)); [done|lia].
Qed.

Lemma py_setitem_length {A} (l l' : list A) (i : Z) (x : A) :
  py_setitem l i x = Ok l' → length l' = length l.
Proof.
  unfold py_setitem. case_match; intros; simplify_eq. apply length_insert.
Qed.

Lemma range_nil (lo hi : Z) : hi ≤ lo → range lo hi = [].
Proof. intros. unfold range. by replace (Z.to_nat (hi - lo)) with 0%nat by lia. Qed.

Lemma range_cons (lo hi : Z) : lo < hi → range lo hi = lo :: range (lo + 1) hi.
Proof.
  intros. unfold range.
  replace (Z.to_nat (hi - lo)) with (S (Z.to_nat (hi - (lo + 1)))) by lia.
  cbn. f_equal; [lia|].
  rewrite <- fmap_S_seq, <- list_fmap_compose.
  apply list_fmap_ext. intros ? k ?. cbn. lia.
Qed.

Lemma elem_of_range (lo hi x : Z) : x ∈ range lo hi ↔ lo ≤ x < hi.
Proof.
  unfold range. rewrite list_elem_of_fmap. split.
  - intros (k & -> & Hk%elem_of_seq). lia.
  - intros [??]. exists (Z.to_nat (x - lo)). split; [lia|].
    apply elem_of_seq. lia.
Qed.

Lemma enumerate_from_lookup {A} (l : list A) (k : Z) (n : nat) :
  enumerate_from k l !! n = (λ x, (k + Z.of_nat n, x)) <$> l !! n.
Proof.
  revert k n. induction l as [|x l IH]; intros k [|n]; cbn; try done.
  - do 2 f_equal. lia.
  - rewrite IH. destruct (l !! n); cbn; [|done]. do 2 f_equal. lia.
Qed.

Lemma enumerate_from_length {A} (l : list A) (k : Z) :
  length (enumerate_from k l) = length l.
Proof. revert k. induction l; intros; cbn; [done|]. by rewrite IHl. Qed.

Lemma elem_of_enumerate_from {A} (l : list A) (k : Z) (p : Z * A) :
  p ∈ enumerate_from k l →
  ∃ n : nat, p.1 = k + Z.of_nat n ∧ l !! n = Some p.2.
Proof.
  intros (n & Hn)%list_elem_of_lookup. rewrite enumerate_from_lookup in Hn.
  destruct (l !! n) eqn:E; simplify_eq/=. eauto.
Qed.

Lemma forR__ok {A} (l : list A) (body : A → result unit) :
  forR_ l body = Ok () ↔ ∀ x, x ∈ l → body x = Ok ().
Proof.
  induction l as [|x l IH]; cbn.
  - split; [|done]. intros _ ? []%elem_of_nil.
  - destruct (body x) as [[]|e] eqn:E; cbn.
    + rewrite IH. split.
      * intros H y [->|?]%elem_of_cons; auto.
      * intros H y ?. apply H. by right.
    + split; [done|]. intros H. specialize (H x). rewrite E in H.
      discriminate H. by left.
Qed.

Lemma forR__raise {A} (l : list A) (body : A → result unit) (e : exn) :
  forR_ l body = Raise e → ∃ x, x ∈ l ∧ body x = Raise e.
Proof.
  induction l as [|x l IH]; cbn; [done|].
  destruct (body x) as [[]|e'] eqn:E; cbn.
  - intros (y & ? & ?)%IH. exists y. split; [by right|done].
  - intros [= ->]. exists x. split; [by left|done].
Qed.

Lemma mapR_length {A B} (f : A → result B) (l : list A) (l' : list B) :
  mapR f l = Ok l' → length l' = length l.
Proof.
  revert l'. induction l as [|x l IH]; intros l'; cbn.
  - by intros [= <-].
  - destruct (f x); cbn; [|done]. destruct (mapR f l); cbn; [|done].
    intros [= <-]. cbn. f_equal. by apply IH.
Qed.

Lemma mapR_lookup {A B} (f : A → result B) (l : list A) (l' : list B)
    (n : nat) (x : A) :
  mapR f l = Ok l' → l !! n = Some x → ∃ y, f x = Ok y ∧ l' !! n = Some y.
Proof.
  revert l' n. induction l as [|z l IH]; intros l' n; cbn; [done|].
  destruct (f z) as [y|] eqn:E; cbn; [|done].
  destruct (mapR f l) as [ys|]; cbn; [|done].
  intros [= <-]. destruct n as [|n]; cbn.
  - intros [= ->]. eauto.
  - by apply IH.
Qed.

Lemma mapR_is_ok {A B} (f : A → result B) (l : list A) :
  (∀ x, x ∈ l → is_ok (f x)) → is_ok (mapR f l).
Proof.
  induction l as [|x l IH]; intros H; cbn; [by eexists|].
  destruct (H x) as [y ->]; [by left|]. cbn.
  destruct IH as [ys ->]; [intros; apply H; by right|]. cbn. by eexists.
Qed.

Lemma mapR_raise {A B} (f : A → result B) (l : list A) (e : exn) :
  mapR f l = Raise e → ∃ x, x ∈ l ∧ f x = Raise e.
Proof.
  induction l as [|x l IH]; cbn; [done|].
  destruct (f x) as [y|e'] eqn:E; cbn.
  - destruct (mapR f l); cbn; [done|]. intros [= ->].
    destruct IH as (z & ? & ?); [done|]. exists z. split; [by right|done].
  - intros [= ->]. exists x. split; [by left|done].
Qed.

(** ** The state monad *)

Lemma returns_ret {A} (a : A) s (Q : A → TexTable.t → Prop) :
  Q a s → returns (ret a) s Q.
Proof. intros. by exists a, s. Qed.

Lemma returns_get s (Q : TexTable.t → TexTable.t → Prop) :
  Q s s → returns get s Q.
Proof. intros. by exists s, s. Qed.

Lemma returns_modify f s (Q : unit → TexTable.t → Prop) :
  Q () (f s) → returns (modify f) s Q.
Proof. intros. by exists (), (f s). Qed.

Lemma returns_lift {A} (r : result A) (a : A) s (Q : A → TexTable.t → Prop) :
  r = Ok a → Q a s → returns (lift r) s Q.
Proof. intros -> ?. by exists a, s. Qed.

Lemma returns_bind {A B} (m : M A) (k : A → M B) s
    (Q : B → TexTable.t → Prop) :
  returns m s (λ a s1, returns (k a) s1 Q) → returns (bind m k) s Q.
Proof.
  intros (a & s1 & Hm & b & s2 & Hk & HQ). exists b, s2.
  unfold bind. by rewrite Hm.
Qed.

Lemma returns_mono {A} (m : M A) s (Q Q' : A → TexTable.t → Prop) :
  returns m s Q → (∀ a s', Q a s' → Q' a s') → returns m s Q'.
Proof. intros (a & s' & ? & ?) Himp. exists a, s'. auto. Qed.

(** A loop that runs the same body once per element. *)
Lemma returns_forM__const {A} (l : list A) (body : M unit)
    (P : nat → TexTable.t → Prop) (k : nat) s :
  (∀ k s, P k s → returns body s (λ _ s', P (S k) s')) →
  P k s →
  returns (forM_ l (λ _, body)) s (λ _ s', P (k + length l)%nat s').
Proof.
  intros Hbody. revert k s. induction l as [|x l IH]; intros k s HP; cbn.
  - apply returns_ret. by rewrite Nat.add_0_r.
  - apply returns_bind. eapply returns_mono; [by apply Hbody|].
    intros [] s1 HP1. cbn beta in *. eapply returns_mono; [by apply IH|].
    intros [] s2. cbn beta. by rewrite Nat.add_succ_r.
Qed.

Lemma returns_times (n : Z) (body : M unit)
    (P : nat → TexTable.t → Prop) s :
  (∀ k s, P k s → returns body s (λ _ s', P (S k) s')) →
  P 0%nat s →
  returns (times n body) s (λ _ s', P (Z.to_nat n) s').
Proof.
  intros Hbody HP. unfold times.
  eapply returns_mono; [by apply (returns_forM__const _ _ P 0%nat)|].
  intros [] s'. cbn. unfold range.
  by rewrite length_fmap, length_seq, Z.sub_0_r.
Qed.

(** Whatever the outcome of the body, a relation that is a preorder and
    that each iteration respects holds across the loop. *)
Lemma forM__preserves {A} (R : relation TexTable.t) `{!PreOrder R}
    (l : list A) (body : A → M unit) s :
  (∀ x s, R s (body x s).2) → R s (forM_ l body s).2.
Proof.
  intros Hbody. revert s. induction l as [|x l IH]; intros s; cbn.
  - reflexivity.
  - unfold bind. specialize (Hbody x s).
    destruct (body x s) as [[[]|e] s1]; cbn in *; [|done].
    by etrans.
Qed.

#[global] Instance extends_preorder : PreOrder extends.
Proof.
  split.
  - intros s. repeat split. intros r c ?. exists c. by repeat split.
  - intros s1 s2 s3 (? & ? & ? & H12) (? & ? & ? & H23).
    repeat split; try congruence.
    intros r c Hc. destruct (H12 _ _ Hc) as (c2 & Hc2 & (?&?&?&?)).
    destruct (H23 _ _ Hc2) as (c3 & Hc3 & (?&?&?&?)).
    exists c3. repeat split; congruence.
Qed.

#[global] Instance same_grid_preorder : PreOrder same_grid.
Proof.
  split.
  - by intros s.
  - intros s1 s2 s3 (? & ? & ? & ?) (? & ? & ? & ?).
    repeat split; congruence.
Qed.

Lemma same_grid_extends s s' : same_grid s s' → extends s s'.
Proof.
  intros (? & ? & ? & Hh). repeat split; try done.
  intros r c Hc. exists c. rewrite Hh. by repeat split.
Qed.

(** ** Invariants under a frame *)

Lemma covers_same_rect c c' i j :
  same_rect c c' → TexTableCell.covers c i j → TexTableCell.covers c' i j.
Proof.
  intros (Hr & Hc & Hw & Hh). unfold TexTableCell.covers.
  by rewrite Hr, Hc, Hw, Hh.
Qed.

Lemma seps_ok_extends s s' : extends s s' → seps_ok s → seps_ok s'.
Proof. intros (Hc & Hs & _). unfold seps_ok. by rewrite Hc, Hs. Qed.

Lemma slots_ok_extends s s' : extends s s' → slots_ok s → slots_ok s'.
Proof.
  intros (_ & _ & Ht & Hh) Hok i j cells r Hi Hj. rewrite Ht in Hi.
  destruct (Hok _ _ _ _ Hi Hj) as (c & Hc & Hcov).
  destruct (Hh _ _ Hc) as (c' & Hc' & Hsame).
  exists c'. split; [done|]. by eapply covers_same_rect.
Qed.

Lemma grid_inv_extends k s s' : extends s s' → grid_inv k s → grid_inv k s'.
Proof.
  intros Hext (? & ? & Hge). split; [by eapply seps_ok_extends|].
  split; [by eapply slots_ok_extends|].
  unfold rows_ge. by rewrite (proj1 (proj2 (proj2 Hext))).
Qed.

Lemma table_inv_extends s s' : extends s s' → table_inv s → table_inv s'.
Proof.
  intros Hext. unfold table_inv. rewrite (proj1 Hext).
  by apply grid_inv_extends.
Qed.

Lemma rows_exact_extends s s' : extends s s' → rows_exact s → rows_exact s'.
Proof. intros (Hc & _ & Ht & _). unfold rows_exact. by rewrite Hc, Ht. Qed.

(** ** Growing the grid *)

Lemma returns_new_cells cs s (Q : list ref → TexTable.t → Prop) :
  Q (seq (length s.(heap)) (length cs)) (with_heap (s.(heap) ++ cs) s) →
  returns (new_cells cs) s Q.
Proof. intros. by eexists _, _. Qed.

Lemma returns_new_cell c s (Q : ref → TexTable.t → Prop) :
  Q (length s.(heap)) (with_heap (s.(heap) ++ [c]) s) →
  returns (new_cell c) s Q.
Proof. intros. by eexists _, _. Qed.

Lemma covers_init v r c ls rs :
  TexTableCell.covers (TexTableCell.__init__ v r c 1 1 ls rs) r c.
Proof. unfold TexTableCell.covers. cbn. lia. Qed.

(** The cells that [append_row] constructs. *)
Lemma append_row_cells (ss : list string) (vals : list string) (r : Z) :
  (length vals ≤ length ss - 1)%nat →
  ∃ cells,
    mapR (λ p : Z * string,
            let? ls := py_index ss p.1 in
            let? rs := py_index ss (p.1 + 1) in
            Ok (TexTableCell.__init__ p.2 r p.1 1 1 ls rs))
         (enumerate vals) = Ok cells ∧
    length cells = length vals ∧
    ∀ (j : nat) c, cells !! j = Some c → TexTableCell.covers c r (Z.of_nat j).
Proof.
  intros Hlen.
  destruct (mapR_is_ok
    (λ p : Z * string,
       let? ls := py_index ss p.1 in
       let? rs := py_index ss (p.1 + 1) in
       Ok (TexTableCell.__init__ p.2 r p.1 1 1 ls rs)) (enumerate vals))
    as [cells Hcells].
  { intros p (n & Hn & Hv)%elem_of_enumerate_from.
    apply lookup_lt_Some in Hv.
    destruct (py_index_is_ok ss p.1) as [ls ->]; [unfold len; lia|].
    destruct (py_index_is_ok ss (p.1 + 1)) as [rs ->]; [unfold len; lia|].
    by eexists. }
  exists cells. split; [done|].
  pose proof (mapR_length _ _ _ Hcells) as Hl.
  unfold enumerate in Hl. rewrite enumerate_from_length in Hl.
  split; [done|]. intros j c Hj.
  destruct (lookup_lt_is_Some_2 (enumerate vals) j) as [p Hp].
  { unfold enumerate. rewrite enumerate_from_length, <- Hl.
    by eapply lookup_lt_Some. }
  destruct (mapR_lookup _ _ _ _ _ Hcells Hp) as (c' & Hf & Hc').
  assert (c' = c) as -> by congruence.
  unfold enumerate in Hp. rewrite enumerate_from_lookup in Hp.
  destruct (vals !! j) as [v|]; simplify_eq/=.
  destruct (py_index ss (0 + Z.of_nat j)); simplify_eq/=.
  destruct (py_index ss (0 + Z.of_nat j + 1)); simplify_eq/=.
  rewrite Z.add_0_l. apply covers_init.
Qed.

Lemma lens_length s : length (lens s) = length s.(table).
Proof. unfold lens. by rewrite length_fmap. Qed.

Lemma append_row_returns vals s :
  seps_ok s → slots_ok s → length vals = length s.(col_styles) →
  returns (append_row vals) s (λ _ s',
    seps_ok s' ∧ slots_ok s' ∧ s'.(col_styles) = s.(col_styles) ∧
    lens s' = lens s ++ [length vals]).
Proof.
  intros Hseps Hslots Hlen. unfold append_row.
  apply returns_bind, returns_get.
  destruct (append_row_cells s.(seps) vals (len s.(table)))
    as (cells & Hcells & Hcl & Hcov).
  { rewrite Hseps, Hlen. destruct (col_styles s); cbn; lia. }
  apply returns_bind. eapply returns_lift; [exact Hcells|].
  apply returns_bind, returns_new_cells.
  apply returns_modify. cbn.
  split; [done|]. split; [|split; [done|]].
  - intros i j row r Hi Hj. cbn in *.
    apply lookup_app_Some in Hi as [Hi|[Hge Hi]].
    + destruct (Hslots _ _ _ _ Hi Hj) as (c & Hc & ?).
      exists c. split; [|done]. by apply lookup_app_l_Some.
    + apply list_lookup_singleton_Some in Hi as [Hi <-].
      apply lookup_seq in Hj as [-> Hj].
      destruct (lookup_lt_is_Some_2 cells j Hj) as [c Hc].
      exists c. split.
      * rewrite lookup_app_r by lia. by replace (length (heap s) + j - length (heap s))%nat with j by lia.
      * replace i with (length (table s)) by lia. by apply Hcov.
  - unfold lens. cbn. rewrite fmap_app. cbn. by rewrite length_seq, Hcl.
Qed.

Lemma py_index_in_range {A} (l : list A) (i : Z) :
  - len l ≤ i < len l → is_ok (py_index l i).
Proof.
  intros [??]. unfold py_index.
  set (k := if i <? 0 then i + len l else i).
  assert (0 ≤ k < len l) as [??].
  { unfold k. destruct (Z.ltb_spec i 0); lia. }
  destruct (Z.leb_spec 0 k); [|lia]. destruct (Z.ltb_spec k (len l)); [|lia].
  cbn. destruct (lookup_lt_is_Some_2 l (Z.to_nat k)) as [x ->].
  { unfold len in *. lia. }
  by eexists.
Qed.

Lemma append_col_cell_returns (i : nat) (v : string) s :
  (2 ≤ length s.(seps))%nat → slots_ok s → (i < length s.(table))%nat →
  returns (append_col_cell (Z.of_nat i, v)) s (λ _ s',
    s'.(seps) = s.(seps) ∧ s'.(col_styles) = s.(col_styles) ∧ slots_ok s' ∧
    ∀ i', lens s' !! i' =
          if decide (i' = i) then S <$> lens s !! i' else lens s !! i').
Proof.
  intros Hseps Hslots Hi. unfold append_col_cell.
  apply returns_bind, returns_get. cbn [fst snd].
  destruct (lookup_lt_is_Some_2 s.(table) i Hi) as [cells Hcells].
  apply returns_bind. eapply returns_lift; [by apply py_index_nat|].
  destruct (py_index_in_range s.(seps) (-2)) as [ls Hls]; [unfold len; lia|].
  destruct (py_index_in_range s.(seps) (-1)) as [rs Hrs]; [unfold len; lia|].
  apply returns_bind. eapply returns_lift; [exact Hls|].
  apply returns_bind. eapply returns_lift; [exact Hrs|].
  apply returns_bind, returns_new_cell. apply returns_modify. cbn.
  rewrite Nat2Z.id. split; [done|]. split; [done|]. split.
  - intros i' j row r Hi' Hj. cbn in *.
    destruct (decide (i' = i)) as [->|Hne].
    + rewrite list_lookup_insert_eq in Hi' by done. simplify_eq.
      apply lookup_app_Some in Hj as [Hj|[Hge Hj]].
      * destruct (Hslots _ _ _ _ Hcells Hj) as (c & Hc & ?).
        exists c. split; [|done]. by apply lookup_app_l_Some.
      * apply list_lookup_singleton_Some in Hj as [Hj <-].
        eexists. split; [apply list_lookup_middle; done|].
        replace j with (length cells) by lia. apply covers_init.
    + rewrite list_lookup_insert_ne in Hi' by done.
      destruct (Hslots _ _ _ _ Hi' Hj) as (c & Hc & ?).
      exists c. split; [|done]. by apply lookup_app_l_Some.
  - intros i'. unfold lens. cbn. rewrite !list_lookup_fmap.
    destruct (decide (i' = i)) as [->|Hne].
    + rewrite list_lookup_insert_eq by done. rewrite Hcells. cbn.
      rewrite length_app. cbn. f_equal. lia.
    + by rewrite list_lookup_insert_ne.
Qed.

Lemma append_col_loop (vals : list string) (k : nat) s :
  (2 ≤ length s.(seps))%nat → slots_ok s →
  (k + length vals ≤ length s.(table))%nat →
  returns (forM_ (enumerate_from (Z.of_nat k) vals) append_col_cell) s (λ _ s',
    s'.(seps) = s.(seps) ∧ s'.(col_styles) = s.(col_styles) ∧ slots_ok s' ∧
    ∀ i, lens s' !! i =
         if decide (k ≤ i < k + length vals)%nat then S <$> lens s !! i
         else lens s !! i).
Proof.
  revert k s. induction vals as [|v vals IH]; intros k s Hseps Hslots Hlen.
  - cbn. apply returns_ret. repeat split; try done.
    intros i. case_decide; [lia|done].
  - cbn [enumerate_from forM_]. apply returns_bind.
    eapply returns_mono; [apply append_col_cell_returns; cbn in *; [done|done|lia]|].
    intros [] s1 (Hs1 & Hc1 & Hslots1 & Hl1). cbn beta.
    assert (length s1.(table) = length s.(table)) as Hrows.
    { rewrite <- !lens_length. apply Nat.le_antisymm.
      - destruct (decide (length (lens s1) ≤ length (lens s))%nat); [done|].
        destruct (lookup_lt_is_Some_2 (lens s1) (length (lens s))) as [x Hx]; [lia|].
        rewrite Hl1 in Hx. case_decide.
        + rewrite lookup_ge_None_2 in Hx by lia. done.
        + rewrite lookup_ge_None_2 in Hx by lia. done.
      - destruct (decide (length (lens s) ≤ length (lens s1))%nat); [done|].
        destruct (lookup_lt_is_Some_2 (lens s) (length (lens s1))) as [x Hx]; [lia|].
        specialize (Hl1 (length (lens s1))).
        rewrite lookup_ge_None_2 in Hl1 by lia. rewrite Hx in Hl1.
        by case_decide. }
    replace (Z.of_nat k + 1) with (Z.of_nat (S k)) by lia.
    eapply returns_mono; [apply IH; [by rewrite Hs1|done|cbn in *; lia]|].
    intros [] s2 (Hs2 & Hc2 & Hslots2 & Hl2). cbn beta.
    split; [congruence|]. split; [congruence|]. split; [done|].
    intros i. rewrite Hl2, Hl1. cbn [length].
    repeat case_decide; try lia; done.
Qed.

(** The number of values [add_row] and [add_col] work with. *)
Lemma padded_length (values : list (option string)) (start : Z) (d ev : string) :
  len ((if 0 <? start then py_repeat ev start ++ (default d <$> values)
        else default d <$> values)) = add_col_values values start.
Proof.
  unfold add_col_values, len, py_repeat.
  destruct (Z.ltb_spec 0 start).
  - rewrite length_app, length_replicate, length_fmap. lia.
  - rewrite length_fmap. lia.
Qed.

Lemma add_row_with_returns (add_col0 : M unit) values start s :
  seps_ok s → slots_ok s →
  (col_count s < add_col_values values start →
   ∀ s1, seps_ok s1 → slots_ok s1 →
     returns add_col0 s1 (λ _ s2,
       seps_ok s2 ∧ slots_ok s2 ∧
       length s2.(col_styles) = S (length s1.(col_styles)) ∧
       lens s2 = S <$> lens s1)) →
  returns (add_row_with add_col0 values start) s (λ _ s',
    seps_ok s' ∧ slots_ok s' ∧
    len s'.(col_styles) = Z.max (col_count s) (add_col_values values start) ∧
    lens s' =
      ((λ n, n + Z.to_nat (add_col_values values start - col_count s))%nat
         <$> lens s)
      ++ [Z.to_nat (Z.max (col_count s) (add_col_values values start))]).
Proof.
  intros Hseps Hslots Hcb. unfold add_row_with.
  apply returns_bind, returns_get. cbn zeta.
  set (vals := if 0 <? start then _ else _).
  assert (len vals = add_col_values values start) as Hvals
    by apply padded_length.
  unfold col_count in *.
  destruct (Z.ltb_spec (len vals) (len s.(col_styles))) as [Hlt|Hge].
  - (* fewer values than columns: pad *)
    apply returns_bind, returns_ret.
    eapply returns_mono; [apply append_row_returns; [done|done|]|].
    { unfold len, py_repeat in *. rewrite length_app, length_replicate. lia. }
    intros [] s' (? & ? & Hc & Hl). cbn beta.
    split; [done|]. split; [done|]. rewrite Hc, Hl. split; [lia|].
    f_equal.
    + replace (Z.to_nat _) with 0%nat by lia.
      rewrite <- (list_fmap_id (lens s)) at 1.
      apply list_fmap_ext. intros; cbn; lia.
    + unfold len, py_repeat in *. rewrite length_app, length_replicate.
      f_equal. lia.
  - destruct (Z.ltb_spec (len s.(col_styles)) (len vals)) as [Hgt|Hle].
    + (* more values than columns: grow *)
      apply returns_bind. apply returns_bind.
      eapply returns_mono.
      { apply (returns_times _ _ (λ k s1,
          seps_ok s1 ∧ slots_ok s1 ∧
          length s1.(col_styles) = (length s.(col_styles) + k)%nat ∧
          lens s1 = (λ n, n + k)%nat <$> lens s)).
        - intros k s1 (? & ? & Hc1 & Hl1).
          eapply returns_mono; [apply Hcb; [lia|done|done]|].
          intros [] s2 (? & ? & Hc2 & Hl2). cbn beta.
          split; [done|]. split; [done|]. split; [lia|].
          rewrite Hl2, Hl1, <- list_fmap_compose.
          apply list_fmap_ext. intros; cbn; lia.
        - split; [done|]. split; [done|]. split; [lia|].
          rewrite <- (list_fmap_id (lens s)) at 1.
          apply list_fmap_ext. intros; cbn; lia. }
      intros [] s1 (? & ? & Hc1 & Hl1). cbn beta.
      apply returns_ret.
      eapply returns_mono; [apply append_row_returns; [done|done|]|].
      { unfold len in *. lia. }
      intros [] s' (? & ? & Hc & Hl). cbn beta.
      split; [done|]. split; [done|]. rewrite Hc, Hl, Hl1.
      unfold len in *. split; [lia|]. f_equal.
      * apply list_fmap_ext. intros; cbn; lia.
      * f_equal. lia.
    + (* as many values as columns *)
      apply returns_bind, returns_ret.
      eapply returns_mono; [apply append_row_returns; [done|done|]|].
      { unfold len in *. lia. }
      intros [] s' (? & ? & Hc & Hl). cbn beta.
      split; [done|]. split; [done|]. rewrite Hc, Hl. split; [lia|].
      f_equal.
      * replace (Z.to_nat _) with 0%nat by lia.
        rewrite <- (list_fmap_id (lens s)) at 1.
        apply list_fmap_ext. intros; cbn; lia.
      * unfold len in *. f_equal. lia.
Qed.

Lemma add_col_with_returns (add_row0 : M unit) values start s :
  seps_ok s → slots_ok s →
  (row_count s < add_col_values values start →
   ∀ s1, seps_ok s1 → slots_ok s1 →
     returns add_row0 s1 (λ _ s2,
       seps_ok s2 ∧ slots_ok s2 ∧
       length s2.(col_styles) = length s1.(col_styles) ∧
       lens s2 = lens s1 ++ [length s1.(col_styles)])) →
  returns (add_col_with add_row0 values start) s (λ _ s',
    seps_ok s' ∧ slots_ok s' ∧
    length s'.(col_styles) = S (length s.(col_styles)) ∧
    lens s' =
      S <$> (lens s
             ++ replicate (Z.to_nat (add_col_values values start - row_count s))
                          (S (length s.(col_styles))))).
Proof.
  intros Hseps Hslots Hcb. unfold add_col_with.
  apply returns_bind, returns_modify.
  apply returns_bind, returns_modify.
  apply returns_bind, returns_get. cbn [col_styles seps with_col_styles with_seps].
  apply returns_bind.
  set (s0 := with_seps _ _).
  eapply (returns_mono _ _ (λ _ s1,
    seps_ok s1 ∧ slots_ok s1 ∧ s1.(col_styles) = s.(col_styles) ++ ["c"] ∧
    s1.(table) = s.(table))).
  { unfold seps_ok in Hseps.
    destruct (Z.eqb_spec (len (s.(col_styles) ++ ["c"])) 1) as [H1|H1].
    - apply returns_modify. unfold len in H1. rewrite length_app in H1.
      cbn in H1. destruct s.(col_styles) eqn:Ec; [|cbn in H1; lia].
      unfold seps_ok. cbn. rewrite !length_app, Hseps. cbn.
      repeat split; try done.
    - apply returns_ret. unfold seps_ok, s0. cbn.
      unfold len in H1. rewrite length_app in H1. cbn in H1.
      destruct s.(col_styles) eqn:Ec; [done|].
      cbn. rewrite !length_app, Hseps. cbn.
      repeat split; try done; try lia. }
  intros [] s1 (Hseps1 & Hslots1 & Hc1 & Ht1). cbn beta.
  apply returns_bind, returns_get. cbn zeta.
  set (vals := if 0 <? start then _ else _).
  assert (len vals = add_col_values values start) as Hvals
    by apply padded_length.
  assert (2 ≤ length s1.(seps))%nat as Hs2.
  { unfold seps_ok in Hseps1. rewrite Hseps1, Hc1.
    destruct (s.(col_styles)); cbn; lia. }
  assert (lens s1 = lens s) as Hl1 by (unfold lens; by rewrite Ht1).
  assert (row_count s1 = row_count s) as Hr1 by (unfold row_count; by rewrite Ht1).
  unfold row_count in *.
  destruct (Z.ltb_spec (len vals) (len s1.(table))) as [Hlt|Hge].
  - apply returns_bind, returns_ret.
    eapply returns_mono.
    { apply (append_col_loop _ 0%nat); [done|done|].
      unfold len, py_repeat in *. rewrite length_app, length_replicate. lia. }
    intros [] s' (Hs' & Hc' & ? & Hl'). cbn beta.
    split; [unfold seps_ok in *; by rewrite Hs', Hc'|].
    split; [done|]. split; [rewrite Hc', Hc1, length_app; cbn; lia|].
    replace (Z.to_nat _) with 0%nat by lia. cbn. rewrite app_nil_r.
    apply list_eq. intros i. rewrite Hl', list_lookup_fmap, Hl1.
    case_decide as Hi; [done|].
    rewrite lookup_ge_None_2; [done|].
    rewrite lens_length. unfold len, py_repeat in *.
    rewrite length_app, length_replicate in Hi. lia.
  - destruct (Z.ltb_spec (len s1.(table)) (len vals)) as [Hgt|Hle].
    + apply returns_bind. apply returns_bind.
      eapply returns_mono.
      { apply (returns_times _ _ (λ k s2,
          seps_ok s2 ∧ slots_ok s2 ∧
          length s2.(col_styles) = length s1.(col_styles) ∧
          lens s2 = lens s1 ++ replicate k (length s1.(col_styles)))).
        - intros k s2 (? & ? & Hc2 & Hl2).
          eapply returns_mono; [apply Hcb; [lia|done|done]|].
          intros [] s3 (? & ? & Hc3 & Hl3). cbn beta.
          split; [done|]. split; [done|]. split; [congruence|].
          rewrite Hl3, Hl2, Hc2, <- app_assoc. f_equal.
          change [length (col_styles s1)] with (replicate 1 (length (col_styles s1))).
          by rewrite <- replicate_add, Nat.add_1_r.
        - repeat split; try done. cbn. by rewrite app_nil_r. }
      intros [] s2 (Hseps2 & ? & Hc2 & Hl2). cbn beta.
      apply returns_ret.
      assert (length s2.(table) = length vals) as Hrows.
      { rewrite <- lens_length, Hl2, length_app, length_replicate, lens_length.
        unfold len in *. lia. }
      eapply returns_mono.
      { apply (append_col_loop _ 0%nat); [|done|lia].
        unfold seps_ok in Hseps2. rewrite Hseps2.
        rewrite Hc1, length_app in Hc2. cbn in Hc2.
        destruct (s2.(col_styles)); cbn in *; lia. }
      intros [] s' (Hs' & Hc' & ? & Hl'). cbn beta.
      split; [unfold seps_ok in *; by rewrite Hs', Hc'|].
      split; [done|]. split; [rewrite Hc', Hc2, Hc1, length_app; cbn; lia|].
      apply list_eq. intros i. rewrite Hl', list_lookup_fmap, Hl2, Hl1, Hc1.
      rewrite length_app. cbn. rewrite Nat.add_1_r.
      replace (Z.to_nat (len vals - len (table s1)))
        with (Z.to_nat (add_col_values values start - len (table s))) by lia.
      case_decide as Hi; [done|].
      rewrite lookup_ge_None_2; [done|].
      rewrite length_app, length_replicate, lens_length.
      unfold len in *. lia.
    + apply returns_bind, returns_ret.
      eapply returns_mono.
      { apply (append_col_loop _ 0%nat); [done|done|]. unfold len in *. lia. }
      intros [] s' (Hs' & Hc' & ? & Hl'). cbn beta.
      split; [unfold seps_ok in *; by rewrite Hs', Hc'|].
      split; [done|]. split; [rewrite Hc', Hc1, length_app; cbn; lia|].
      replace (Z.to_nat _) with 0%nat by lia. cbn. rewrite app_nil_r.
      apply list_eq. intros i. rewrite Hl', list_lookup_fmap, Hl1.
      case_decide as Hi; [done|].
      rewrite lookup_ge_None_2; [done|].
      rewrite lens_length. unfold len in *. lia.
Qed.

Lemma add_col0_returns s :
  seps_ok s → slots_ok s →
  returns add_col0 s (λ _ s',
    seps_ok s' ∧ slots_ok s' ∧
    length s'.(col_styles) = S (length s.(col_styles)) ∧
    lens s' = S <$> lens s).
Proof.
  intros Hseps Hslots. unfold add_col0.
  eapply returns_mono; [apply add_col_with_returns; [done|done|]|].
  { unfold add_col_values, row_count, len. cbn. lia. }
  intros [] s' (? & ? & ? & Hl). repeat split; try done.
  rewrite Hl. unfold add_col_values, row_count, len. cbn.
  replace (Z.to_nat _) with 0%nat by lia. cbn. by rewrite app_nil_r.
Qed.

Lemma add_row_returns values start s :
  seps_ok s → slots_ok s →
  returns (add_row values start) s (λ _ s',
    seps_ok s' ∧ slots_ok s' ∧
    len s'.(col_styles) = Z.max (col_count s) (add_col_values values start) ∧
    lens s' =
      ((λ n, n + Z.to_nat (add_col_values values start - col_count s))%nat
         <$> lens s)
      ++ [Z.to_nat (Z.max (col_count s) (add_col_values values start))]).
Proof.
  intros. apply add_row_with_returns; [done|done|].
  intros _ s1 ??. by apply add_col0_returns.
Qed.

Lemma add_row0_returns s :
  seps_ok s → slots_ok s →
  returns add_row0 s (λ _ s',
    seps_ok s' ∧ slots_ok s' ∧
    length s'.(col_styles) = length s.(col_styles) ∧
    lens s' = lens s ++ [length s.(col_styles)]).
Proof.
  intros. unfold add_row0.
  eapply returns_mono; [by apply add_row_returns|].
  intros [] s' (? & ? & Hc & Hl). split; [done|]. split; [done|].
  unfold add_col_values, col_count, len in *. cbn in *.
  split; [lia|]. rewrite Hl. f_equal.
  - rewrite <- (list_fmap_id (lens s)) at 2.
    apply list_fmap_ext. intros; cbn; lia.
  - f_equal. lia.
Qed.

Lemma add_col_returns values start s :
  seps_ok s → slots_ok s →
  returns (add_col values start) s (λ _ s',
    seps_ok s' ∧ slots_ok s' ∧
    length s'.(col_styles) = S (length s.(col_styles)) ∧
    lens s' =
      S <$> (lens s
             ++ replicate (Z.to_nat (add_col_values values start - row_count s))
                          (S (length s.(col_styles))))).
Proof.
  intros. apply add_col_with_returns; [done|done|].
  intros _ s1 ??. by apply add_row0_returns.
Qed.

(** ** merge *)

Lemma with_table_with_table T1 T2 s :
  with_table T2 (with_table T1 s) = with_table T2 s.
Proof. done. Qed.

Lemma with_table_same s : with_table s.(table) s = s.
Proof. by destruct s. Qed.

Lemma set_slot_returns (i j : nat) (r : ref) (cells : list ref) s :
  s.(table) !! i = Some cells → (j < length cells)%nat →
  set_slot (Z.of_nat i) (Z.of_nat j) r s
  = (Ok (), with_table (<[i := <[j := r]> cells]> s.(table)) s).
Proof.
  intros Hi Hj. unfold set_slot.
  rewrite (proj2 (py_index_nat _ _ _) Hi). cbn.
  rewrite py_setitem_nonneg by (unfold len; lia). cbn.
  rewrite py_setitem_nonneg.
  2:{ apply lookup_lt_Some in Hi. unfold len. lia. }
  by rewrite !Nat2Z.id.
Qed.

(** The inner loop of the assignment: one row of the rectangle. *)
Lemma fill_row_returns (r : ref) (i : nat) (n : nat) : ∀ (col to_col : Z) s cells,
  n = Z.to_nat (to_col + 1 - col) → 0 ≤ col →
  s.(table) !! i = Some cells → to_col < len cells →
  ∃ cells',
    forM_ (range col (to_col + 1)) (λ _col, set_slot (Z.of_nat i) _col r) s
    = (Ok (), with_table (<[i := cells']> s.(table)) s) ∧
    length cells' = length cells ∧
    ∀ j : nat, cells' !! j =
      if decide (col ≤ Z.of_nat j ≤ to_col) then Some r else cells !! j.
Proof.
  induction n as [|n IH]; intros col to_col s cells Hn Hcol Hi Hto.
  - rewrite range_nil by lia. exists cells. cbn. unfold ret.
    rewrite list_insert_id by done. rewrite with_table_same.
    repeat split; try done. intros j. case_decide; [lia|done].
  - rewrite range_cons by lia. cbn [forM_]. unfold bind at 1.
    pose proof (set_slot_returns i (Z.to_nat col) r cells s Hi) as Hset.
    rewrite Z2Nat.id in Hset by lia.
    rewrite Hset by (unfold len in *; lia).
    set (cells1 := <[Z.to_nat col := r]> cells).
    set (s1 := with_table _ s).
    destruct (IH (col + 1) to_col s1 cells1) as (cells' & Hrun & Hlen & Hlook).
    { lia. } { lia. }
    { unfold s1. cbn. apply list_lookup_insert_eq. by eapply lookup_lt_Some. }
    { unfold cells1, len. rewrite length_insert. done. }
    exists cells'. rewrite Hrun. unfold s1. cbn.
    rewrite list_insert_insert_eq. split; [done|].
    split; [unfold cells1 in Hlen; by rewrite length_insert in Hlen|].
    intros j. rewrite Hlook. unfold cells1.
    destruct (decide (j = Z.to_nat col)) as [->|Hne].
    + rewrite list_lookup_insert_eq by (unfold len in *; lia).
      repeat case_decide; try done; lia.
    + rewrite list_lookup_insert_ne by done.
      repeat case_decide; try done; lia.
Qed.

(** The assignment loops of [merge] fill the rectangle. *)
Lemma fill_returns (r : ref) (col to_col : Z) (n : nat) : ∀ (row to_row : Z) s,
  n = Z.to_nat (to_row + 1 - row) → 0 ≤ row → 0 ≤ col →
  (∀ i : nat, row ≤ Z.of_nat i ≤ to_row →
     ∃ cells, s.(table) !! i = Some cells ∧ to_col < len cells) →
  ∃ T',
    forM_ (range row (to_row + 1)) (λ _row,
      forM_ (range col (to_col + 1)) (λ _col, set_slot _row _col r)) s
    = (Ok (), with_table T' s) ∧
    filled (row, col, to_row, to_col) r s.(table) T'.
Proof.
  induction n as [|n IH]; intros row to_row s Hn Hrow Hcol Hrows.
  - rewrite range_nil by lia. exists s.(table). cbn. unfold ret.
    rewrite with_table_same. split; [done|]. split; [done|].
    intros i cells Hi. exists cells. repeat split; try done.
    intros j Hj. case_decide as Hin; [cbn in Hin; lia|done].
  - rewrite range_cons by lia. cbn [forM_]. unfold bind at 1.
    destruct (Hrows (Z.to_nat row)) as (cells & Hcells & Hlen); [lia|].
    destruct (fill_row_returns r (Z.to_nat row) _ col to_col s cells eq_refl)
      as (cells1 & Hrow1 & Hlen1 & Hlook1); [done..|].
    rewrite Z2Nat.id in Hrow1 by lia. rewrite Hrow1.
    set (s1 := with_table _ s).
    destruct (IH (row + 1) to_row s1) as (T' & Hrun & HT'len & HT').
    { lia. } { lia. } { done. }
    { intros i Hi. destruct (Hrows i) as (cs & Hcs & ?); [lia|].
      exists cs. split; [|done]. unfold s1. cbn.
      rewrite list_lookup_insert_ne by lia. done. }
    exists T'. rewrite Hrun. unfold s1. rewrite with_table_with_table.
    split; [done|]. split.
    { rewrite HT'len. unfold s1. cbn. apply length_insert. }
    intros i cs Hcs.
    destruct (decide (i = Z.to_nat row)) as [->|Hne].
    + destruct (HT' (Z.to_nat row) cells1) as (cs' & Hcs' & Hl' & Hlk').
      { unfold s1. cbn. apply list_lookup_insert_eq. by eapply lookup_lt_Some. }
      assert (cs = cells) as -> by congruence.
      exists cs'. split; [done|]. split; [congruence|].
      intros j Hj. rewrite Hlk' by lia. rewrite Hlook1.
      repeat case_decide; cbn in *; try done; lia.
    + destruct (HT' i cs) as (cs' & Hcs' & Hl' & Hlk').
      { unfold s1. cbn. by rewrite list_lookup_insert_ne. }
      exists cs'. split; [done|]. split; [done|].
      intros j Hj. rewrite Hlk' by done.
      repeat case_decide; cbn in *; try done; lia.
Qed.

Lemma merge_eq value row col width height to_row to_col s :
  merge value row col width height to_row to_col s =
  if negb ((0 <=? row) && (row <? len s.(table)))
  then (Raise (ValueError ("Invalid row index: " +:+ str row)), s)
  else if negb ((0 <=? col) && (col <? col_count s))
  then (Raise (ValueError ("Invalid column index: " +:+ str col)), s)
  else match axis_end row height to_row with
       | None => (Raise (AssertionError ""), s)
       | Some tr =>
           match axis_end col width to_col with
           | None => (Raise (AssertionError ""), s)
           | Some tc => merge_area value row col tr tc s
           end
       end.
Proof.
  unfold merge, merge_area, bind, get, raise_if, ret, raise, lift. cbn zeta.
  destruct (negb _); [done|]. destruct (negb _); [done|].
  destruct to_row as [tr|], height as [h|], to_col as [tc|], width as [w|];
    cbn [axis_end fmap option_fmap option_map]; try done.
  all: repeat match goal with
       | |- context [?a + ?b - 1 - ?a + 1] =>
           replace (a + b - 1 - a + 1) with b by lia
       end.
  all: reflexivity.
Qed.

Lemma merge_check_ok_slot s col to_row to_col (i j : Z) :
  merge_check s col to_row to_col i j = Ok () →
  ∃ cells r c,
    py_index s.(table) i = Ok cells ∧ py_index cells j = Ok r ∧
    s.(heap) !! r = Some c ∧
    i ≤ c.(TexTableCell.row) ∧ col ≤ c.(TexTableCell.col) ∧
    c.(TexTableCell.row) + c.(TexTableCell.height) - 1 ≤ to_row ∧
    c.(TexTableCell.col) + c.(TexTableCell.width) - 1 ≤ to_col.
Proof.
  unfold merge_check, cell_at, slot, deref.
  destruct (py_index (table s) i) as [cells|]; cbn; try done.
  destruct (py_index cells j) as [r|] eqn:Hr; cbn; try done.
  destruct (heap s !! r) as [c|] eqn:Hc; cbn; try done.
  destruct (Z.ltb_spec (TexTableCell.row c) i); cbn; try done.
  destruct (Z.ltb_spec (TexTableCell.col c) col); cbn; try done.
  destruct (Z.ltb_spec to_row (TexTableCell.row c + TexTableCell.height c - 1));
    cbn; try done.
  destruct (Z.ltb_spec to_col (TexTableCell.col c + TexTableCell.width c - 1));
    cbn; try done.
  intros _. exists cells, r, c. repeat split; try done; lia.
Qed.

Lemma merge_validate_ok s row col to_row to_col :
  merge_validate s row col to_row to_col = Ok () ↔
  ∀ i j, row ≤ i ≤ to_row → col ≤ j ≤ to_col →
         merge_check s col to_row to_col i j = Ok ().
Proof.
  unfold merge_validate. rewrite forR__ok. split.
  - intros H i j Hi Hj. specialize (H i). rewrite forR__ok in H.
    apply H; apply elem_of_range; lia.
  - intros H i Hi%elem_of_range. apply forR__ok.
    intros j Hj%elem_of_range. apply H; lia.
Qed.

Lemma merge_validate_raise s row col to_row to_col e :
  merge_validate s row col to_row to_col = Raise e →
  ∃ i j, row ≤ i ≤ to_row ∧ col ≤ j ≤ to_col ∧
         merge_check s col to_row to_col i j = Raise e.
Proof.
  unfold merge_validate.
  intros (i & Hi%elem_of_range & (j & Hj%elem_of_range & ?)%forR__raise)%forR__raise.
  exists i, j. repeat split; try done; lia.
Qed.

(** After a successful validation every slot of the rectangle exists. *)
Lemma merge_validate_rows s row col to_row to_col :
  0 ≤ row → 0 ≤ col → col ≤ to_col →
  merge_validate s row col to_row to_col = Ok () →
  ∀ i : nat, row ≤ Z.of_nat i ≤ to_row →
    ∃ cells, s.(table) !! i = Some cells ∧ to_col < len cells.
Proof.
  intros ??? Hv i Hi. rewrite merge_validate_ok in Hv.
  destruct (merge_check_ok_slot _ _ _ _ _ _ (Hv (Z.of_nat i) to_col Hi ltac:(lia)))
    as (cells & r & c & Hcells & Hr & _).
  exists cells. split; [by apply py_index_nat|].
  apply py_index_ok_bound in Hr. lia.
Qed.

Lemma merge_area_validate_raise value row col to_row to_col s e :
  row ≤ to_row < len s.(table) → col ≤ to_col < col_count s →
  merge_validate s row col to_row to_col = Raise e →
  merge_area value row col to_row to_col s = (Raise e, s).
Proof.
  intros [??] [??] Hv.
  unfold merge_area, bind, get, raise_if, ret, raise, lift. cbn zeta.
  destruct (Z.leb_spec row to_row); [|lia].
  destruct (Z.ltb_spec to_row (len (table s))); [|lia].
  destruct (Z.leb_spec col to_col); [|lia].
  destruct (Z.ltb_spec to_col (col_count s)); [|lia].
  cbn. by rewrite Hv.
Qed.

Lemma same_grid_depends_on d s : same_grid s (_depends_on d s).2.
Proof. done. Qed.

(** The outcome of [merge_area]: either it raises and the grid, the
    separators, the column styles and the cells are as before, or it
    returns and the rectangle holds one new cell. *)
Lemma merge_area_spec value row col to_row to_col s :
  0 ≤ row → 0 ≤ col →
  match merge_area value row col to_row to_col s with
  | (Raise e, s') =>
      same_grid s s' ∧
      (¬ row ≤ to_row < len s.(table) ∨ ¬ col ≤ to_col < col_count s ∨
       merge_validate s row col to_row to_col = Raise e ∨
       len s.(seps) ≤ to_col + 1)
  | (Ok _, s') =>
      row ≤ to_row < len s.(table) ∧ col ≤ to_col < col_count s ∧
      merge_validate s row col to_row to_col = Ok () ∧
      s'.(col_styles) = s.(col_styles) ∧ s'.(seps) = s.(seps) ∧
      (∃ ls rs, s'.(heap) = s.(heap) ++
         [TexTableCell.__init__ value row col (to_col - col + 1)
                            (to_row - row + 1) ls rs]) ∧
      filled (row, col, to_row, to_col) (length s.(heap)) s.(table) s'.(table)
  end.
Proof.
  intros Hrow Hcol.
  unfold merge_area. cbn zeta. unfold bind at 1, get at 1. cbn iota beta.
  unfold bind at 1, raise_if at 1.
  destruct (Z.leb_spec row to_row); cbn [andb negb];
    [|split; [done|left; lia]].
  destruct (Z.ltb_spec to_row (len (table s))); cbn [andb negb];
    [|split; [done|left; lia]].
  unfold ret at 1. cbn iota beta. unfold bind at 1, raise_if at 1.
  destruct (Z.leb_spec col to_col); cbn [andb negb];
    [|split; [done|right; left; lia]].
  destruct (Z.ltb_spec to_col (col_count s)); cbn [andb negb];
    [|split; [done|right; left; lia]].
  unfold ret at 1. cbn iota beta. unfold bind at 1, lift at 1.
  destruct (merge_validate s row col to_row to_col) as [[]|e] eqn:Hv;
    [|split; [done|by right; right; left]].
  unfold bind at 1.
  set (deps := if 1 <? to_row - row + 1 then _ else _).
  assert (∃ s1, deps s = (Ok (), s1) ∧ same_grid s s1) as (s1 & -> & Hs1).
  { unfold deps. destruct (1 <? _).
    - eexists. split; [reflexivity|]. apply (same_grid_depends_on "multirow").
    - eexists. split; [reflexivity|]. done. }
  destruct (Z.le_gt_cases (len (seps s)) (to_col + 1)) as [Hshort|Hlong].
  { unfold bind at 1, lift at 1.
    destruct (py_index (seps s) col) as [ls|]; [|by auto 6].
    unfold bind at 1, lift at 1.
    destruct (py_index (seps s) (to_col + 1)) as [rs|] eqn:Hrs; [|by auto 6].
    apply py_index_ok_bound in Hrs. lia. }
  destruct Hs1 as (Hc1 & Hse1 & Ht1 & Hh1).
  destruct (py_index_is_ok (seps s) col) as [ls Hls]; [lia|].
  destruct (py_index_is_ok (seps s) (to_col + 1)) as [rs Hrs]; [lia|].
  unfold bind at 1, lift at 1. rewrite Hls.
  unfold bind at 1, lift at 1. rewrite Hrs.
  unfold bind at 1, new_cell at 1. cbn iota beta.
  set (s2 := with_heap _ s1).
  destruct (fill_returns (length (heap s1)) col to_col _ row to_row s2 eq_refl)
    as (T' & -> & HT'); [done|done| |].
  { intros i Hi. unfold s2. cbn. rewrite Ht1.
    by apply (merge_validate_rows s row col to_row to_col). }
  unfold s2 in *. cbn in *. rewrite Hh1, Ht1 in *.
  repeat split; try done; try lia.
  - by eexists _, _.
  - apply HT'.
  - apply HT'.
Qed.

(** The outcome of [merge]. *)
Lemma merge_spec value row col width height to_row to_col s :
  match merge value row col width height to_row to_col s with
  | (Raise e, s') => same_grid s s'
  | (Ok _, s') =>
      ∃ tr tc,
        axis_end row height to_row = Some tr ∧
        axis_end col width to_col = Some tc ∧
        rect_in_grid s (row, col, tr, tc) ∧
        merge_validate s row col tr tc = Ok () ∧
        s'.(col_styles) = s.(col_styles) ∧ s'.(seps) = s.(seps) ∧
        (∃ ls rs, s'.(heap) = s.(heap) ++
           [TexTableCell.__init__ value row col (tc - col + 1) (tr - row + 1) ls rs]) ∧
        filled (row, col, tr, tc) (length s.(heap)) s.(table) s'.(table)
  end.
Proof.
  rewrite merge_eq.
  destruct (Z.leb_spec 0 row); cbn [andb negb]; [|done].
  destruct (Z.ltb_spec row (len (table s))); cbn [andb negb]; [|done].
  destruct (Z.leb_spec 0 col); cbn [andb negb]; [|done].
  destruct (Z.ltb_spec col (col_count s)); cbn [andb negb]; [|done].
  destruct (axis_end row height to_row) as [tr|]; [|done].
  destruct (axis_end col width to_col) as [tc|]; [|done].
  pose proof (merge_area_spec value row col tr tc s) as Hspec.
  destruct (merge_area value row col tr tc s) as [[[]|e] s'];
    [|by apply Hspec].
  destruct Hspec as (? & ? & ? & ? & ? & ? & ?); [done|done|].
  exists tr, tc. unfold rect_in_grid, row_count.
  do 2 (split; [done|]). split; [lia|]. by repeat (split; [done|]).
Qed.

Lemma filled_lookup R r T T' (i j : nat) cells' x :
  filled R r T T' → T' !! i = Some cells' → cells' !! j = Some x →
  ∃ cells, T !! i = Some cells ∧ length cells' = length cells ∧
    if decide (in_rect R (Z.of_nat i) (Z.of_nat j)) then x = r
    else cells !! j = Some x.
Proof.
  intros [Hlen Hfill] Hi Hj.
  destruct (lookup_lt_is_Some_2 T i) as [cells Hcells].
  { rewrite <- Hlen. by eapply lookup_lt_Some. }
  destruct (Hfill i cells Hcells) as (cells2 & Hi2 & Hl2 & Hlk).
  assert (cells2 = cells') as -> by congruence.
  exists cells. split; [done|]. split; [done|].
  specialize (Hlk j). rewrite Hj in Hlk.
  apply lookup_lt_Some in Hj.
  case_decide; [|symmetry; apply Hlk; lia].
  assert (Some x = Some r) by (apply Hlk; lia). congruence.
Qed.

Lemma filled_lens R r T T' : filled R r T T' → length <$> T' = length <$> T.
Proof.
  intros [Hlen Hfill]. apply list_eq. intros i. rewrite !list_lookup_fmap.
  destruct (T !! i) as [cells|] eqn:Hi.
  - destruct (Hfill i cells Hi) as (cells' & -> & Hl & _). cbn. by rewrite Hl.
  - rewrite lookup_ge_None_2; [done|]. rewrite Hlen.
    by apply lookup_ge_None.
Qed.

Lemma merge_ok_slots_ok value row col width height to_row to_col s s' :
  merge value row col width height to_row to_col s = (Ok (), s') →
  slots_ok s → slots_ok s'.
Proof.
  intros Hm Hslots.
  pose proof (merge_spec value row col width height to_row to_col s) as Hspec.
  rewrite Hm in Hspec.
  destruct Hspec as (tr & tc & _ & _ & _ & _ & _ & _ & (ls & rs & Hheap) & Hfill).
  intros i j cells' x Hi Hj.
  destruct (filled_lookup _ _ _ _ _ _ _ _ Hfill Hi Hj) as (cells & Hcells & _ & Hx).
  rewrite Hheap. case_decide as Hin.
  - subst x. eexists. split; [by apply list_lookup_middle|].
    cbn in Hin. unfold TexTableCell.covers. cbn. lia.
  - destruct (Hslots _ _ _ _ Hcells Hx) as (c & Hc & ?).
    exists c. split; [|done]. by apply lookup_app_l_Some.
Qed.

Lemma merge_lens value row col width height to_row to_col s :
  lens (merge value row col width height to_row to_col s).2 = lens s
  ∧ (merge value row col width height to_row to_col s).2.(col_styles)
    = s.(col_styles)
  ∧ (merge value row col width height to_row to_col s).2.(seps) = s.(seps).
Proof.
  pose proof (merge_spec value row col width height to_row to_col s) as Hspec.
  destruct (merge value row col width height to_row to_col s) as [[[]|e] s'].
  - destruct Hspec as (tr & tc & _ & _ & _ & _ & ? & ? & _ & Hfill).
    cbn. split; [|done]. by eapply filled_lens.
  - destruct Hspec as (? & ? & Ht & _). cbn. unfold lens. by rewrite Ht.
Qed.

Lemma merge_slots_ok value row col width height to_row to_col s :
  slots_ok s → slots_ok (merge value row col width height to_row to_col s).2.
Proof.
  intros Hslots.
  pose proof (merge_spec value row col width height to_row to_col s) as Hspec.
  destruct (merge value row col width height to_row to_col s) as [[[]|e] s'] eqn:Hm.
  - by eapply merge_ok_slots_ok.
  - cbn. eapply slots_ok_extends; [|done]. by apply same_grid_extends.
Qed.

(** ** Calls that leave the grid alone *)

Lemma same_grid_add_rule row rule_type s :
  same_grid s (add_rule row rule_type s).2.
Proof. done. Qed.

Lemma same_grid_add_cline row from_col to_col s :
  same_grid s (add_cline row from_col to_col s).2.
Proof. done. Qed.

Lemma same_grid_add_cmidrule row from_col to_col options s :
  same_grid s (add_cmidrule row from_col to_col options s).2.
Proof.
  done.
Qed.

Lemma same_grid_render s : same_grid s (render s).2.
Proof.
  unfold render, bind, get, lift, modify, ret. cbn.
  destruct (base_rows s) as [rows|]; [|done].
  destruct (add_top_lines _ rows) as [rows1|]; [|done]. cbn.
  destruct (add_rules 0 _ rows1) as [rows2|]; [|done].
  destruct (caption_line _); [|done].
  by destruct (_str_col_sty _).
Qed.

Lemma extends_update_cell r f s :
  (∀ c, same_rect c (f c)) → extends s (update_cell r f s).2.
Proof.
  intros Hf. unfold update_cell.
  destruct (heap s !! r) as [c|] eqn:Hc; cbn; [|reflexivity].
  repeat split. intros r' c' Hc'. cbn.
  destruct (decide (r' = r)) as [->|Hne].
  - exists (f c). rewrite list_lookup_insert_eq by by eapply lookup_lt_Some.
    split; [done|]. assert (c' = c) as -> by congruence. apply Hf.
  - exists c'. rewrite list_lookup_insert_ne by done. by repeat split.
Qed.

Lemma extends_for_cells slice f s :
  (∀ c, same_rect c (f c)) → extends s (TexTableSlice.for_cells slice f s).2.
Proof.
  intros Hf. unfold TexTableSlice.for_cells.
  apply (forM__preserves extends). intros p s1.
  unfold bind, get, lift. cbn. destruct (slot s1 p.1 p.2); [|reflexivity].
  by apply extends_update_cell.
Qed.

Lemma extends_depends_on d s : extends s (_depends_on d s).2.
Proof. apply same_grid_extends, same_grid_depends_on. Qed.

(** Every call other than [add_row], [add_col] and a successful [merge]
    leaves the columns, the separators and the grid as they are and keeps
    the rectangle of every cell. *)
Lemma extends_step o s :
  match o with
  | AddRow _ _ | AddCol _ _ | Merge _ _ _ _ _ _ _ | SetItem _ _ _ => True
  | _ => extends s (step o s)
  end.
Proof.
  destruct o; try done; unfold step, perform.
  - apply same_grid_extends, same_grid_add_rule.
  - apply same_grid_extends, same_grid_add_cline.
  - apply same_grid_extends, same_grid_add_cmidrule.
  - by apply extends_for_cells.
  - by apply extends_for_cells.
  - by apply extends_for_cells.
  - by apply extends_for_cells.
  - unfold TexTableSlice.set_background_color, bind.
    pose proof (extends_depends_on "colortbl" s) as H1.
    destruct (_depends_on "colortbl" s) as [[[]|] s1]; [|done].
    pose proof (extends_depends_on "xcolor" s1) as H2.
    destruct (_depends_on "xcolor" s1) as [[[]|] s2]; cbn in *; [|by etrans].
    etrans; [done|]. etrans; [done|]. by apply extends_for_cells.
  - unfold TexTableSlice.set_rotation, bind.
    pose proof (extends_depends_on "graphicx" s) as H1.
    destruct (_depends_on "graphicx" s) as [[[]|] s1]; [|done].
    cbn in *. etrans; [done|]. by apply extends_for_cells.
  - unfold bind. pose proof (same_grid_render s).
    destruct (render s) as [[|] s1]; cbn in *; by apply same_grid_extends.
Qed.

Lemma setitem_cases i j value s :
  extends s (__setitem__ i j value s).2 ∨
  ∃ row col to_row to_col,
    __setitem__ i j value s
    = merge value row col None None (Some to_row) (Some to_col) s.
Proof.
  destruct i as [i|a b|], j as [j|c d|].
  1:{ left. unfold __setitem__, bind, get, lift. cbn.
      destruct (slot s i j); [|reflexivity]. by apply extends_update_cell. }
  all: match goal with
       | |- context [__setitem__ ?i ?j] =>
           destruct (_get_indexing_bounds s i j)
             as [[[[row col] to_row] to_col]|] eqn:E
       end.
  all: first
    [ right; exists row, col, to_row, to_col;
      unfold __setitem__, bind, get, lift; by rewrite E
    | left; unfold __setitem__, bind, get, lift; rewrite E; reflexivity ].
Qed.

(** ** Every call keeps the invariants *)

Lemma returns_state {A} (m : M A) s (Q : A → TexTable.t → Prop) :
  returns m s Q → ∃ a, (m s).1 = Ok a ∧ Q a (m s).2.
Proof. intros (a & s' & Hm & HQ). rewrite Hm. by exists a. Qed.

Lemma seps_ok_same s s' :
  length s'.(col_styles) = length s.(col_styles) → s'.(seps) = s.(seps) →
  seps_ok s → seps_ok s'.
Proof.
  unfold seps_ok. intros Hc -> ->.
  destruct (col_styles s), (col_styles s'); cbn in *; congruence.
Qed.

Lemma extends_shape s s' :
  extends s s' →
  length s'.(col_styles) = length s.(col_styles) ∧ lens s' = lens s.
Proof. intros (Hc & _ & Ht & _). unfold lens. by rewrite Hc, Ht. Qed.

Lemma step_spec o s :
  seps_ok s → slots_ok s →
  seps_ok (step o s) ∧ slots_ok (step o s) ∧ shape_after o s (step o s).
Proof.
  intros Hseps Hslots.
  assert (∀ s', extends s s' →
    seps_ok s' ∧ slots_ok s' ∧
    length s'.(col_styles) = length s.(col_styles) ∧ lens s' = lens s) as Hext.
  { intros s' H. split; [by eapply seps_ok_extends|].
    split; [by eapply slots_ok_extends|]. by apply extends_shape. }
  assert (∀ value row col width height to_row to_col,
    let s' := (merge value row col width height to_row to_col s).2 in
    seps_ok s' ∧ slots_ok s' ∧
    length s'.(col_styles) = length s.(col_styles) ∧ lens s' = lens s) as Hmerge.
  { intros. pose proof (merge_lens value row col width height to_row to_col s)
      as (Hl & Hc & Hs).
    subst s'. split; [apply (seps_ok_same s); [by rewrite Hc|done|done]|].
    split; [by apply merge_slots_ok|]. split; [by rewrite Hc|done]. }
  pose proof (extends_step o s) as Hstep.
  destruct o; try (by apply Hext); unfold step, perform.
  - destruct (returns_state _ _ _ (add_row_returns values start s Hseps Hslots))
      as ([] & _ & ? & ? & ? & ?). by repeat split.
  - destruct (returns_state _ _ _ (add_col_returns values start s Hseps Hslots))
      as ([] & _ & ? & ? & ? & ?). by repeat split.
  - apply Hmerge.
  - destruct (setitem_cases i j value s) as [?|(r & c & tr & tc & ->)].
    + by apply Hext.
    + apply Hmerge.
Qed.

Lemma rows_ge_lens k s : rows_ge k s ↔ Forall (λ n, k ≤ n)%nat (lens s).
Proof. unfold rows_ge, lens. by rewrite Forall_fmap. Qed.

Lemma rows_exact_lens s :
  rows_exact s ↔ Forall (λ n, n = length s.(col_styles)) (lens s).
Proof. unfold rows_exact, lens. by rewrite Forall_fmap. Qed.

Lemma step_table_inv o s : table_inv s → table_inv (step o s).
Proof.
  intros (Hseps & Hslots & Hge).
  destruct (step_spec o s Hseps Hslots) as (? & ? & Hshape).
  split; [done|]. split; [done|].
  apply rows_ge_lens. apply rows_ge_lens in Hge.
  destruct o; cbv beta iota delta [shape_after] in Hshape;
    destruct Hshape as [Hc Hl]; rewrite Hl;
    try (by rewrite Hc); unfold col_count, row_count, len in *.
  - apply Forall_app. split.
    + apply Forall_fmap. eapply Forall_impl; [exact Hge|]. cbn. intros; lia.
    + apply Forall_singleton. lia.
  - apply Forall_fmap, Forall_app. split.
    + eapply Forall_impl; [exact Hge|]. cbn. intros; lia.
    + apply Forall_replicate. cbn. lia.
Qed.

Lemma init_table_inv centered caption caption_after_table position star
    empty_value label cmd :
  table_inv (__init__ centered caption caption_after_table position star
                  empty_value label cmd).
Proof.
  split; [done|]. split; [|by apply Forall_nil].
  intros i j cells r Hi. cbn in Hi. by rewrite lookup_nil in Hi.
Qed.

(** Every table built through the methods satisfies the invariant. *)
Lemma reachable_table_inv s : reachable s → table_inv s.
Proof.
  induction 1; [apply init_table_inv|by apply step_table_inv].
Qed.

Lemma run_table_inv ops s : table_inv s → table_inv (run ops s).
Proof.
  revert s. induction ops as [|o ops IH]; intros s Hs; [done|].
  cbn. by apply IH, step_table_inv.
Qed.

Lemma run_reachable ops s : reachable s → reachable (run ops s).
Proof.
  revert s. induction ops as [|o ops IH]; intros s Hs; [done|].
  cbn. by apply IH, reach_step.
Qed.

Lemma step_rows_exact o s :
  table_inv s → rows_exact s →
  match o with
  | AddCol values start => add_col_values values start ≤ row_count s
  | _ => True
  end →
  rows_exact (step o s).
Proof.
  intros (Hseps & Hslots & _) Hex Hguard.
  destruct (step_spec o s Hseps Hslots) as (_ & _ & Hshape).
  apply rows_exact_lens. apply rows_exact_lens in Hex.
  destruct o; cbv beta iota delta [shape_after] in Hshape;
    destruct Hshape as [Hc Hl]; rewrite Hl;
    try (by rewrite Hc); unfold col_count, row_count, len in *.
  - apply Forall_app. split.
    + apply Forall_fmap. eapply Forall_impl; [exact Hex|]. cbn. intros; lia.
    + apply Forall_singleton. lia.
  - apply Forall_fmap, Forall_app. split.
    + eapply Forall_impl; [exact Hex|]. cbn. intros; lia.
    + replace (Z.to_nat _) with 0%nat by lia. by apply Forall_nil.
Qed.

(** ** The shape of the table after a sequence of calls *)





(** ** A merge after a merge *)

Lemma cell_at_nat s (i j : nat) cells r c :
  s.(table) !! i = Some cells → cells !! j = Some r → s.(heap) !! r = Some c →
  cell_at s (Z.of_nat i) (Z.of_nat j) = Ok c.
Proof.
  intros Hi Hj Hc. unfold cell_at, slot, deref.
  rewrite (proj2 (py_index_nat _ _ _) Hi). cbn.
  rewrite (proj2 (py_index_nat _ _ _) Hj). cbn. by rewrite Hc.
Qed.

(** In a table that satisfies the invariant every slot of the grid
    denotes a cell that covers it. *)
Lemma cell_at_in_grid s (i j : Z) :
  table_inv s → 0 ≤ i < row_count s → 0 ≤ j < col_count s →
  ∃ c, cell_at s i j = Ok c ∧ TexTableCell.covers c i j.
Proof.
  intros (_ & Hslots & Hge) Hi Hj. unfold row_count, col_count, len in *.
  destruct (lookup_lt_is_Some_2 s.(table) (Z.to_nat i)) as [cells Hcells]; [lia|].
  unfold rows_ge in Hge. rewrite Forall_lookup in Hge.
  pose proof (Hge _ _ Hcells) as Hlen. cbn in Hlen.
  destruct (lookup_lt_is_Some_2 cells (Z.to_nat j)) as [r Hr]; [lia|].
  destruct (Hslots _ _ _ _ Hcells Hr) as (c & Hc & Hcov).
  exists c. rewrite !Z2Nat.id in Hcov by lia. split; [|done].
  rewrite <- (Z2Nat.id i), <- (Z2Nat.id j) by lia.
  by eapply cell_at_nat.
Qed.

Lemma merge_check_in_grid s col to_row to_col (i j : Z) :
  table_inv s → 0 ≤ i < row_count s → 0 ≤ j < col_count s →
  merge_check s col to_row to_col i j = Ok () ∨
  merge_check s col to_row to_col i j = Raise (ValueError overlap_msg).
Proof.
  intros Hinv Hi Hj.
  destruct (cell_at_in_grid s i j Hinv Hi Hj) as (c & Hc & _).
  unfold merge_check. rewrite Hc. cbn. case_match; auto.
Qed.

(** After a successful merge every slot of the rectangle denotes the new
    cell, whose rectangle is the merged one. *)
Lemma merge_ok_cell value row col width height to_row to_col s s1 tr tc :
  merge value row col width height to_row to_col s = (Ok (), s1) →
  axis_end row height to_row = Some tr → axis_end col width to_col = Some tc →
  rect_in_grid s (row, col, tr, tc) ∧
  ∃ ls rs, ∀ i j, in_rect (row, col, tr, tc) i j →
    cell_at s1 i j
    = Ok (TexTableCell.__init__ value row col (tc - col + 1) (tr - row + 1) ls rs).
Proof.
  intros Hm Htr Htc.
  pose proof (merge_spec value row col width height to_row to_col s) as Hspec.
  rewrite Hm in Hspec.
  destruct Hspec as (tr' & tc' & Htr' & Htc' & Hgrid & Hv & _ & _
                     & (ls & rs & Hheap) & Hfill).
  assert (tr' = tr) as -> by congruence.
  assert (tc' = tc) as -> by congruence.
  split; [done|]. exists ls, rs. intros i j [Hi Hj].
  destruct Hgrid as (? & ? & ? & ?).
  destruct (merge_validate_rows s row col tr tc ltac:(lia) ltac:(lia) ltac:(lia)
              Hv (Z.to_nat i) ltac:(lia)) as (cells & Hcells & Hlen).
  destruct Hfill as [_ Hfill].
  destruct (Hfill _ _ Hcells) as (cells' & Hcells' & Hlen' & Hlook).
  specialize (Hlook (Z.to_nat j) ltac:(unfold len in *; lia)).
  rewrite !Z2Nat.id in Hlook by lia.
  rewrite decide_True in Hlook by done.
  rewrite <- (Z2Nat.id i), <- (Z2Nat.id j) by lia.
  eapply cell_at_nat; [done|done|]. rewrite Hheap.
  by apply list_lookup_middle.
Qed.

(** C2 (amended). After a successful merge of the rectangle [R], a
    second merge of a rectangle of the grid that overlaps [R] without
    containing it raises the overlap error and leaves the table as it is;
    this includes every rectangle inside [R] other than [R] itself.  A
    second merge of a rectangle that contains [R] returns when [R] is one
    row high and the other slots of the rectangle hold cells that were
    never merged. *)
Theorem merge_after_merge
    s value row col width height to_row to_col s1 tr tc
    value2 row2 col2 width2 height2 to_row2 to_col2 tr2 tc2 :
  table_inv s →
  merge value row col width height to_row to_col s = (Ok (), s1) →
  axis_end row height to_row = Some tr → axis_end col width to_col = Some tc →
  axis_end row2 height2 to_row2 = Some tr2 →
  axis_end col2 width2 to_col2 = Some tc2 →
  rect_in_grid s1 (row2, col2, tr2, tc2) →
  (rect_overlaps (row, col, tr, tc) (row2, col2, tr2, tc2) →
   ¬ rect_contains (row2, col2, tr2, tc2) (row, col, tr, tc) →
   merge value2 row2 col2 width2 height2 to_row2 to_col2 s1
   = (Raise (ValueError overlap_msg), s1)) ∧
  (rect_contains (row2, col2, tr2, tc2) (row, col, tr, tc) →
   tr = row →
   (∀ i j, in_rect (row2, col2, tr2, tc2) i j →
           ¬ in_rect (row, col, tr, tc) i j →
           ∃ c, cell_at s1 i j = Ok c ∧
                c.(TexTableCell.width) = 1 ∧ c.(TexTableCell.height) = 1) →
   (merge value2 row2 col2 width2 height2 to_row2 to_col2 s1).1 = Ok ()).
Proof.
  intros Hinv Hm Htr Htc Htr2 Htc2 Hgrid2.
  assert (table_inv s1) as Hinv1.
  { change s1 with (Ok (), s1).2. rewrite <- Hm.
    apply (step_table_inv (Merge value row col width height to_row to_col)).
    done. }
  destruct (merge_ok_cell _ _ _ _ _ _ _ _ _ _ _ Hm Htr Htc)
    as (Hgrid & ls & rs & Hcell).
  pose proof Hgrid2 as (? & ? & ? & ?). pose proof Hgrid as (? & ? & ? & ?).
  unfold row_count in *.
  assert (Hpre : merge value2 row2 col2 width2 height2 to_row2 to_col2 s1
                 = merge_area value2 row2 col2 tr2 tc2 s1).
  { rewrite merge_eq, Htr2, Htc2.
    destruct (Z.leb_spec 0 row2); [|lia].
    destruct (Z.ltb_spec row2 (len (table s1))); [|lia].
    destruct (Z.leb_spec 0 col2); [|lia].
    destruct (Z.ltb_spec col2 (col_count s1)); [|lia]. done. }
  rewrite Hpre. split.
  - (* partial overlap *)
    intros (i & j & [Hi Hj] & [Hi2 Hj2]) Hnot.
    apply merge_area_validate_raise; [lia|lia|].
    destruct (merge_validate s1 row2 col2 tr2 tc2) as [[]|e] eqn:Hv.
    + exfalso. apply Hnot.
      rewrite merge_validate_ok in Hv.
      destruct (merge_check_ok_slot _ _ _ _ _ _ (Hv i j Hi2 Hj2))
        as (cells & r & c & Hcells & Hr & Hc & Hb).
      assert (cell_at s1 i j = Ok c) as Hc'.
      { unfold cell_at, slot, deref. rewrite Hcells. cbn. rewrite Hr. cbn.
        by rewrite Hc. }
      rewrite Hcell in Hc' by done. injection Hc' as <-. cbn in Hb.
      intros a b [Ha Hb']. split; lia.
    + f_equal. apply merge_validate_raise in Hv as (i' & j' & Hi' & Hj' & Hchk).
      destruct (merge_check_in_grid s1 col2 tr2 tc2 i' j' Hinv1) as [Hok|Hov];
        [unfold row_count; lia|lia| |]; congruence.
  - (* containment *)
    intros Hcont -> Hothers.
    assert (in_rect (row2, col2, tr2, tc2) row col) as [??].
    { apply Hcont. cbn. lia. }
    assert (in_rect (row2, col2, tr2, tc2) row tc) as [??].
    { apply Hcont. cbn. lia. }
    assert (merge_validate s1 row2 col2 tr2 tc2 = Ok ()) as Hv.
    { apply merge_validate_ok. intros i j Hi Hj. unfold merge_check.
      destruct (decide (in_rect (row, col, row, tc) i j)) as [Hin|Hout].
      - rewrite Hcell by done. cbn. destruct Hin as [??].
        destruct (Z.ltb_spec row i); [lia|].
        destruct (Z.ltb_spec col col2); [lia|].
        destruct (Z.ltb_spec tr2 (row + (row - row + 1) - 1)); [lia|].
        destruct (Z.ltb_spec tc2 (col + (tc - col + 1) - 1)); [lia|]. done.
      - destruct (Hothers i j) as (c & Hc & Hw & Hh); [done|done|].
        destruct (cell_at_in_grid s1 i j Hinv1) as (c' & Hc' & [??]);
          [unfold row_count; lia|lia|].
        assert (c' = c) as -> by congruence.
        rewrite Hc. cbn.
        destruct (Z.ltb_spec (TexTableCell.row c) i); [lia|].
        destruct (Z.ltb_spec (TexTableCell.col c) col2); [lia|].
        destruct (Z.ltb_spec tr2
                    (TexTableCell.row c + TexTableCell.height c - 1)); [lia|].
        destruct (Z.ltb_spec tc2
                    (TexTableCell.col c + TexTableCell.width c - 1)); [lia|].
        done. }
    pose proof (merge_area_spec value2 row2 col2 tr2 tc2 s1
                  ltac:(lia) ltac:(lia)) as Hspec.
    destruct (merge_area value2 row2 col2 tr2 tc2 s1) as [[[]|e] s2]; [done|].
    exfalso. destruct Hspec as (_ & [Hr|[Hc|[Hr|Hs]]]).
    + apply Hr. lia.
    + apply Hc. lia.
    + congruence.
    + destruct Hinv1 as (Hseps & _). unfold seps_ok in Hseps.
      unfold col_count, len in *.
      destruct (col_styles s1); cbn [length] in *; lia.
Qed.

Lemma merge_after_merge_witness :
  merge "Y" 0 1 (Some 2) (Some 1) None None table_1x3_merged
    = (Raise (ValueError overlap_msg), table_1x3_merged) ∧
  (merge "Z" 0 0 None None (Some 0) (Some 2) table_1x3_merged).1 = Ok ().
Proof.
  assert (table_inv table_1x3) as Hinv
    by apply run_table_inv, init_table_inv.
  split.
  - apply (merge_after_merge table_1x3 "X" 0 0 (Some 2) (Some 1) None None
             table_1x3_merged 0 1 "Y" 0 1 (Some 2) (Some 1) None None 0 2);
      [exact Hinv|reflexivity..| | | ].
    + vm_compute. repeat split; discriminate.
    + exists 0, 1. cbn. lia.
    + intros H. destruct (H 0 0) as [_ ?]; [cbn; lia|lia].
  - apply (merge_after_merge table_1x3 "X" 0 0 (Some 2) (Some 1) None None
             table_1x3_merged 0 1 "Z" 0 0 None None (Some 0) (Some 2) 0 2);
      [exact Hinv|reflexivity..| | | | ].
    + vm_compute. repeat split; discriminate.
    + intros i j. cbn. lia.
    + reflexivity.
    + intros i j [Hi Hj] Hn. cbn in Hn.
      assert (i = 0) as -> by lia. assert (j = 2) as -> by lia.
      eexists. split; [reflexivity|]. split; reflexivity.
Defined.

(** C2, as stated, fails: in a row of three cells whose first two are
    merged, merging the first slot alone, a rectangle inside the merged
    one, raises the overlap error. *)
Lemma merge_inside_merged_fails :
  in_rect (0, 0, 0, 1) 0 0 ∧
  rect_contains (0, 0, 0, 1) (0, 0, 0, 0) ∧
  merge "Y" 0 0 (Some 1) (Some 1) None None table_1x3_merged
    = (Raise (ValueError overlap_msg), table_1x3_merged).
Proof.
  split; [cbn; lia|]. split; [intros i j; cbn; lia|]. reflexivity.
Qed.

(** ** merge and its parameters *)

(** When [to_col] is given [width] is not looked at, and when [to_row] is
    given [height] is not looked at. *)
Lemma merge_size_ignored value row col width height to_row to_col s :
  merge value row col width height (Some to_row) (Some to_col) s
  = merge value row col None None (Some to_row) (Some to_col) s.
Proof. by rewrite !merge_eq. Qed.

(** A merge with no end and no size for an axis raises. *)
Lemma merge_axis_missing value row col width height to_row to_col s :
  (width = None ∧ to_col = None) ∨ (height = None ∧ to_row = None) →
  ∃ e, merge value row col width height to_row to_col s = (Raise e, s).
Proof.
  intros H. rewrite merge_eq.
  destruct (negb _); [by eexists|]. destruct (negb _); [by eexists|].
  destruct H as [[-> ->]|[-> ->]]; cbn.
  - destruct (axis_end row height to_row); by eexists.
  - by eexists.
Qed.

(** A merge that raises leaves the grid, the separators, the column
    styles and the cells as they were. *)
Lemma merge_raise_unchanged value row col width height to_row to_col s e s' :
  merge value row col width height to_row to_col s = (Raise e, s') →
  same_grid s s'.
Proof.
  intros Hm.
  pose proof (merge_spec value row col width height to_row to_col s) as Hspec.
  by rewrite Hm in Hspec.
Qed.

(** C3. On the 2x2 table, [merge("X", 0, 0, width=1, height=2, to_row=0,
    to_col=1)] is given both a size and an end for each axis and returns:
    it merges the first row. *)
Theorem merge_size_and_end_returns :
  (merge "X" 0 0 (Some 1) (Some 2) (Some 0) (Some 1) table_2x2).1 = Ok () ∧
  (merge "X" 0 0 (Some 1) (Some 2) (Some 0) (Some 1) table_2x2).2.(table)
    = [[4; 4]; [2; 3]]%nat.
Proof. split; reflexivity. Qed.

(** ** render on examples *)

(** C7. The 2x2 table with the values A, B, C, D and everything else at
    its default renders as the rows [A & B \\] and [C & D \\] in a
    [tabular] with argument [cc] in a [figure] with option [h!]. *)
Theorem render_2x2 :
  (render table_2x2).1
  = Ok (String.concat newline
          [ "\begin{figure}[h!]";
            "    \centering";
            "    ";
            "    \begin{tabular}{cc}";
            "        A & B \\";
            "        C & D \\";
            "    \end{tabular}";
            "    ";
            "\end{figure}" ]).
Proof. reflexivity. Qed.

(** C4. Three rows, then [add_rule] with no row and the BOTTOM kind:
    the rule is recorded for row 3 and [render] raises. *)
Theorem render_bottom_rule_raises :
  table_3x1_bottom.(_rules) = [(3, "\bottomrule")] ∧
  row_count table_3x1_bottom = 3 ∧
  (render table_3x1_bottom).1 = Raise (ValueError "Invalid rule index 3").
Proof. repeat split; reflexivity. Qed.

(** ** render *)

Lemma render_eq s :
  render s =
  match base_rows s with
  | Raise e => (Raise e, s)
  | Ok rows =>
      match add_top_lines s.(_lines) rows with
      | Raise e => (Raise e, s)
      | Ok rows1 =>
          let s1 := with_rules (sort_rules s.(_rules)) s in
          match add_rules 0 (sort_rules s.(_rules)) rows1 with
          | Raise e => (Raise e, s1)
          | Ok rows2 =>
              match caption_line s with
              | Raise e => (Raise e, s1)
              | Ok line =>
                  match _str_col_sty s with
                  | Raise e => (Raise e, s1)
                  | Ok sty => (Ok (assemble s rows2 line sty), s1)
                  end
              end
          end
      end
  end.
Proof.
  unfold render, bind, get, lift, modify, ret. cbn.
  destruct (base_rows s) as [rows|]; [|done].
  destruct (add_top_lines _ rows) as [rows1|]; [|done]. cbn.
  destruct (add_rules 0 _ rows1) as [rows2|]; [|done].
  change (caption_line (with_rules (sort_rules (_rules s)) s))
    with (caption_line s).
  destruct (caption_line s); [|done].
  change (_str_col_sty (with_rules (sort_rules (_rules s)) s))
    with (_str_col_sty s).
  by destruct (_str_col_sty s).
Qed.

Lemma render_row_is_ok s (i : nat) cells :
  slots_ok s → s.(table) !! i = Some cells →
  is_ok (render_row s (Z.of_nat i) cells).
Proof.
  intros Hslots Hi. unfold render_row.
  destruct (mapR_is_ok
    (λ p : Z * ref, let? cell := deref s p.2 in
                    TexTableCell.table_value cell (Z.of_nat i) p.1)
    (enumerate cells)) as [texts ->]; [|by eexists].
  intros p (j & Hj & Hp)%elem_of_enumerate_from.
  destruct (Hslots _ _ _ _ Hi Hp) as (c & Hc & Hcov).
  unfold deref. rewrite Hc. cbn. rewrite Hj, Z.add_0_l.
  by apply table_value_covers.
Qed.

Lemma base_rows_is_ok s :
  slots_ok s → ∃ rows, base_rows s = Ok rows ∧ len rows = row_count s.
Proof.
  intros Hslots. unfold base_rows.
  destruct (mapR_is_ok (λ p : Z * list ref, render_row s p.1 p.2)
              (enumerate s.(table))) as [rows Hrows].
  { intros p (i & Hi & Hp)%elem_of_enumerate_from.
    rewrite Hi, Z.add_0_l. by apply render_row_is_ok. }
  exists rows. split; [done|].
  apply mapR_length in Hrows. unfold enumerate in Hrows.
  rewrite enumerate_from_length in Hrows. unfold row_count, len. by rewrite Hrows.
Qed.

Lemma add_top_lines_length lines rows rows' :
  add_top_lines lines rows = Ok rows' → length rows' = length rows.
Proof.
  revert rows. induction lines as [|[i tline] lines IH]; intros rows; cbn.
  - by intros [= <-].
  - destruct (negb _); [done|].
    destruct (py_index rows i) as [old|]; cbn; [|done].
    destruct (py_setitem rows i _) as [rows1|] eqn:Hset; cbn; [|done].
    intros Hrec%IH. rewrite Hrec. by eapply py_setitem_length.
Qed.

Lemma add_top_lines_ok_iff lines rows :
  is_ok (add_top_lines lines rows)
  ↔ Forall (λ p : Z * string, 0 ≤ p.1 < len rows) lines.
Proof.
  revert rows. induction lines as [|[i tline] lines IH]; intros rows; cbn.
  - split; [by constructor|by eexists].
  - rewrite Forall_cons. cbn.
    destruct (Z.leb_spec 0 i); cbn [andb negb].
    2:{ split; [by intros [? ?]|lia]. }
    destruct (Z.ltb_spec i (len rows)); cbn [andb negb].
    2:{ split; [by intros [? ?]|lia]. }
    destruct (py_index_is_ok rows i) as [old ->]; [lia|]. cbn.
    rewrite py_setitem_nonneg by lia. cbn. rewrite IH.
    unfold len. rewrite length_insert. tauto.
Qed.

Lemma add_top_lines_raise lines rows e :
  add_top_lines lines rows = Raise e → ∃ msg, e = ValueError msg.
Proof.
  revert rows. induction lines as [|[i tline] lines IH]; intros rows; cbn.
  - done.
  - destruct (Z.leb_spec 0 i); cbn [andb negb]; [|intros [= <-]; by eexists].
    destruct (Z.ltb_spec i (len rows)); cbn [andb negb];
      [|intros [= <-]; by eexists].
    destruct (py_index_is_ok rows i) as [old ->]; [lia|]. cbn.
    rewrite py_setitem_nonneg by lia. cbn. apply IH.
Qed.

Lemma py_insert_length {A} (l : list A) (i : Z) (x : A) :
  len (py_insert l i x) = len l + 1.
Proof.
  unfold py_insert, len. rewrite length_app. cbn.
  rewrite length_take, length_drop. lia.
Qed.

Lemma add_rules_ok_iff added rules rows :
  is_ok (add_rules added rules rows) ↔ rules_fit (len rows) rules.
Proof.
  revert added rows. induction rules as [|[i tex] rules IH]; intros added rows; cbn.
  - split; [done|by eexists].
  - destruct (Z.leb_spec 0 i); cbn [andb negb].
    2:{ split; [by intros [? ?]|lia]. }
    destruct (Z.ltb_spec i (len rows)); cbn [andb negb].
    2:{ split; [by intros [? ?]|lia]. }
    rewrite IH, py_insert_length. tauto.
Qed.

Lemma add_rules_raise added rules rows e :
  add_rules added rules rows = Raise e → ∃ msg, e = ValueError msg.
Proof.
  revert added rows. induction rules as [|[i tex] rules IH]; intros added rows; cbn.
  - done.
  - destruct (negb _); [intros [= <-]; by eexists|]. apply IH.
Qed.




Lemma insert_rule_perm x l : insert_rule x l ≡ₚ x :: l.
Proof.
  induction l as [|y l IH]; cbn; [done|].
  case_match; [done|]. rewrite IH. apply Permutation_swap.
Qed.

Lemma sort_rules_perm l : sort_rules l ≡ₚ l.
Proof.
  induction l as [|x l IH]; cbn; [done|].
  rewrite insert_rule_perm. by constructor.
Qed.

Lemma caption_line_ok_iff s :
  is_ok (caption_line s) ↔ ¬ label_without_caption s.
Proof.
  unfold caption_line, label_without_caption.
  destruct (label s) as [l|], (caption s) as [c|]; split;
    try (intros _; by eexists); try (by intros _ [[??] ?]);
    try (by intros _ [? ?]).
  - by intros [? ?].
  - intros H. destruct H. split; [by eexists|done].
Qed.

Lemma caption_line_raise s e :
  caption_line s = Raise e → ∃ msg, e = ValueError msg.
Proof.
  unfold caption_line. destruct (label s), (caption s); try done.
  intros [= <-]. by eexists.
Qed.

Lemma _str_col_sty_ok_iff s : is_ok (_str_col_sty s) ↔ s.(seps) ≠ [].
Proof.
  unfold _str_col_sty. split.
  - intros [sty H] Hnil. rewrite Hnil in H. by cbn in H.
  - intros Hne. destruct (py_index_in_range s.(seps) (-1)) as [x ->].
    { unfold len. destruct (seps s); [done|]. cbn [length]. lia. }
    by eexists.
Qed.

Lemma _str_col_sty_raise s e : _str_col_sty s = Raise e → e = IndexError.
Proof.
  unfold _str_col_sty, py_index.
  destruct (_ && _); cbn; [|congruence].
  destruct (_ !! _); cbn; congruence.
Qed.

Lemma seps_nonempty s : seps_ok s → s.(seps) ≠ [] ↔ s.(col_styles) ≠ [].
Proof.
  unfold seps_ok. destruct (col_styles s), (seps s); cbn; try done.
Qed.

(** When [render] returns: the partial lines are in range, the sorted
    rules pass the check against the growing row block, a label comes with
    a caption and there is a column. *)
Lemma render_returns_iff s :
  table_inv s →
  is_ok (render s).1 ↔
    Forall (λ p : Z * string, 0 ≤ p.1 < row_count s) s.(_lines) ∧
    rules_fit (row_count s) (sort_rules s.(_rules)) ∧
    ¬ label_without_caption s ∧ s.(col_styles) ≠ [].
Proof.
  intros (Hseps & Hslots & _). rewrite render_eq.
  destruct (base_rows_is_ok s Hslots) as (rows & -> & Hrows).
  rewrite <- Hrows, <- add_top_lines_ok_iff.
  destruct (add_top_lines (_lines s) rows) as [rows1|e1] eqn:H1.
  2:{ cbn. split; [by intros [? ?]|by intros ([? ?] & _)]. }
  assert (len rows = len rows1) as ->.
  { apply add_top_lines_length in H1. unfold len. by rewrite H1. }
  cbn zeta. rewrite <- (add_rules_ok_iff 0).
  destruct (add_rules 0 _ rows1) as [rows2|e2].
  2:{ cbn. split; [by intros [? ?]|by intros (_ & [? ?] & _)]. }
  rewrite <- caption_line_ok_iff.
  destruct (caption_line s) as [line|e3].
  2:{ cbn. split; [by intros [? ?]|by intros (_ & _ & [? ?] & _)]. }
  rewrite <- (seps_nonempty s Hseps), <- _str_col_sty_ok_iff.
  destruct (_str_col_sty s) as [sty|e4]; cbn.
  - split; [|by eexists]. intros _. repeat split; by eexists.
  - split; [by intros [? ?]|by intros (_ & _ & _ & [? ?])].
Qed.




(** The first failing check on the partial lines decides what "Add top
    lines" raises. *)
Lemma add_top_lines_first_bad lines : ∀ rows,
  match first_bad_line (len rows) lines with
  | Some r =>
      add_top_lines lines rows
      = Raise (ValueError ("Invalid line index " +:+ str r))
  | None => is_ok (add_top_lines lines rows)
  end.
Proof.
  induction lines as [|[i tline] lines IH]; intros rows; cbn; [by eexists|].
  destruct ((0 <=? i) && (i <? len rows)) eqn:Hin; cbn [negb]; [|done].
  apply andb_true_iff in Hin as [?%Z.leb_le ?%Z.ltb_lt].
  destruct (py_index_is_ok rows i) as [old ->]; [lia|]. cbn.
  rewrite py_setitem_nonneg by lia. cbn.
  specialize (IH (<[Z.to_nat i := tline +:+ " " +:+ old]> rows)).
  unfold len in IH. rewrite length_insert in IH. apply IH.
Qed.

(** The first failing check on the rules decides what "Add rules"
    raises. *)
Lemma add_rules_first_bad rules : ∀ added rows,
  match first_bad_rule (len rows) rules with
  | Some i =>
      add_rules added rules rows
      = Raise (ValueError ("Invalid rule index " +:+ str i))
  | None => is_ok (add_rules added rules rows)
  end.
Proof.
  induction rules as [|[i tex] rules IH]; intros added rows; cbn;
    [by eexists|].
  destruct ((0 <=? i) && (i <? len rows)) eqn:Hin; cbn [negb]; [|done].
  specialize (IH (added + 1) (py_insert rows (i + added) tex)).
  by rewrite py_insert_length in IH.
Qed.

Lemma first_bad_line_None n lines :
  first_bad_line n lines = None
  ↔ Forall (λ p : Z * string, 0 ≤ p.1 < n) lines.
Proof.
  induction lines as [|[i tline] lines IH]; cbn; [by split; [constructor|]|].
  rewrite Forall_cons. cbn.
  destruct (Z.leb_spec 0 i); cbn [andb]; [|split; [done|lia]].
  destruct (Z.ltb_spec i n); cbn [andb]; [|split; [done|lia]].
  rewrite IH. split; [by split; [lia|]|by intros [_ ?]].
Qed.

Lemma first_bad_rule_None rules : ∀ n,
  first_bad_rule n rules = None ↔ rules_fit n rules.
Proof.
  induction rules as [|[i tex] rules IH]; intros n; cbn; [done|].
  destruct (Z.leb_spec 0 i); cbn [andb]; [|split; [done|lia]].
  destruct (Z.ltb_spec i n); cbn [andb]; [|split; [done|lia]].
  rewrite IH. split; [by split; [lia|]|by intros [_ ?]].
Qed.

Lemma caption_line_label s :
  label_without_caption s →
  caption_line s = Raise (ValueError "Cannot have a label without a caption").
Proof.
  intros [[l Hl] Hc]. unfold caption_line. by rewrite Hl, Hc.
Qed.

(** C10 (amended). For a table without columns [render] never returns:
    it raises, an index error when the checks on the partial lines, the
    rules and the label pass, and the value error of the first failing
    check otherwise: that of the first partial line out of range; else
    that of the first rule, in row order, out of range; else that of the
    label without a caption. *)
Theorem render_without_columns s :
  table_inv s → col_count s = 0 →
  (∀ text, (render s).1 ≠ Ok text) ∧
  (∃ e, (render s).1 = Raise e ∧ (e = IndexError ∨ ∃ msg, e = ValueError msg)) ∧
  (Forall (λ p : Z * string, 0 ≤ p.1 < row_count s) s.(_lines) →
   rules_fit (row_count s) (sort_rules s.(_rules)) →
   ¬ label_without_caption s →
   (render s).1 = Raise IndexError) ∧
  (∀ r, first_bad_line (row_count s) s.(_lines) = Some r →
        (render s).1 = Raise (ValueError ("Invalid line index " +:+ str r))) ∧
  (Forall (λ p : Z * string, 0 ≤ p.1 < row_count s) s.(_lines) →
   ∀ i, first_bad_rule (row_count s) (sort_rules s.(_rules)) = Some i →
        (render s).1 = Raise (ValueError ("Invalid rule index " +:+ str i))) ∧
  (Forall (λ p : Z * string, 0 ≤ p.1 < row_count s) s.(_lines) →
   rules_fit (row_count s) (sort_rules s.(_rules)) →
   label_without_caption s →
   (render s).1
   = Raise (ValueError "Cannot have a label without a caption")).
Proof.
  intros Hinv Hcols.
  assert (s.(col_styles) = []) as Hnil.
  { unfold col_count, len in Hcols. destruct (col_styles s); [done|].
    cbn [length] in Hcols. lia. }
  assert (s.(seps) = []) as Hseps.
  { destruct Hinv as (Hseps & _). unfold seps_ok in Hseps.
    rewrite Hnil in Hseps. by destruct (seps s). }
  assert (_str_col_sty s = Raise IndexError) as Hsty.
  { unfold _str_col_sty. by rewrite Hseps. }
  destruct Hinv as (_ & Hslots & _).
  rewrite render_eq.
  destruct (base_rows_is_ok s Hslots) as (rows & -> & Hrows).
  rewrite <- Hrows.
  pose proof (add_top_lines_ok_iff s.(_lines) rows) as Hl.
  pose proof (add_top_lines_first_bad s.(_lines) rows) as Hl1.
  destruct (add_top_lines (_lines s) rows) as [rows1|e1] eqn:H1.
  2:{ cbn. split; [done|]. split.
      { exists e1. split; [done|]. right. by eapply add_top_lines_raise. }
      split.
      { intros Hlines. apply Hl in Hlines as [? ?]. done. }
      split.
      { intros r Hr. rewrite Hr in Hl1. by injection Hl1 as ->. }
      split.
      { intros Hlines. apply Hl in Hlines as [? ?]. done. }
      intros Hlines. apply Hl in Hlines as [? ?]. done. }
  assert (first_bad_line (len rows) (_lines s) = None) as Hnoline.
  { destruct (first_bad_line _ _); [done|done]. }
  assert (len rows = len rows1) as Hlen.
  { apply add_top_lines_length in H1. unfold len. by rewrite H1. }
  rewrite Hlen in Hnoline |- *. cbn zeta.
  pose proof (add_rules_ok_iff 0 (sort_rules s.(_rules)) rows1) as Hr.
  pose proof (add_rules_first_bad (sort_rules s.(_rules)) 0 rows1) as Hr1.
  destruct (add_rules 0 _ rows1) as [rows2|e2] eqn:H2.
  2:{ cbn. split; [done|]. split.
      { exists e2. split; [done|]. right. by eapply add_rules_raise. }
      split.
      { intros _ Hfit. apply Hr in Hfit as [? ?]. done. }
      split.
      { intros r Hr'. by rewrite Hnoline in Hr'. }
      split.
      { intros _ i Hi. rewrite Hi in Hr1. by injection Hr1 as ->. }
      intros _ Hfit. apply Hr in Hfit as [? ?]. done. }
  assert (first_bad_rule (len rows1) (sort_rules (_rules s)) = None) as Hnorule.
  { destruct (first_bad_rule _ _); [done|done]. }
  pose proof (caption_line_ok_iff s) as Hc.
  destruct (caption_line s) as [line|e3] eqn:H3.
  2:{ cbn. split; [done|]. split.
      { exists e3. split; [done|]. right. by eapply caption_line_raise. }
      split.
      { intros _ _ Hlabel. apply Hc in Hlabel as [? ?]. done. }
      split.
      { intros r Hr'. by rewrite Hnoline in Hr'. }
      split.
      { intros _ i Hi. by rewrite Hnorule in Hi. }
      intros _ _ Hlabel. rewrite (caption_line_label s Hlabel) in H3.
      by injection H3 as <-. }
  rewrite Hsty. cbn. split; [done|]. split.
  { exists IndexError. split; [done|by left]. }
  split; [done|]. split.
  { intros r Hr'. by rewrite Hnoline in Hr'. }
  split.
  { intros _ i Hi. by rewrite Hnorule in Hi. }
  intros _ _ Hlabel. rewrite (caption_line_label s Hlabel) in H3. done.
Qed.

Lemma render_without_columns_witness :
  (render table_no_columns).1 = Raise (ValueError "Invalid line index 3").
Proof.
  destruct (render_without_columns table_no_columns) as (_ & _ & _ & H & _).
  - apply run_table_inv, init_table_inv.
  - reflexivity.
  - apply (H 3). reflexivity.
Defined.

(** C10, as stated, fails: a new table with a label and no caption has no
    column, and [render] raises the value error of the label check, not an
    index error. *)
Lemma render_without_columns_value_error :
  col_count table_label_only = 0 ∧
  (render table_label_only).1
  = Raise (ValueError "Cannot have a label without a caption") ∧
  (render table_label_only).1 ≠ Raise IndexError.
Proof.
  split; [reflexivity|]. split; [reflexivity|].
  intros H. vm_compute in H. discriminate.
Qed.

(** ** The partial lines of a row *)

Lemma concat_cons2 (sep x y : string) (l : list string) :
  String.concat sep (x :: y :: l) = x +:+ sep +:+ String.concat sep (y :: l).
Proof. done. Qed.

Lemma concat_snoc_join (sep a b : string) (l : list string) :
  String.concat sep (l ++ [a; b]) = String.concat sep (l ++ [a +:+ sep +:+ b]).
Proof.
  induction l as [|x l IH]; [done|].
  destruct l as [|y l]; [done|].
  change ((x :: y :: l) ++ [a; b]) with (x :: y :: (l ++ [a; b])).
  change ((x :: y :: l) ++ [a +:+ sep +:+ b])
    with (x :: y :: (l ++ [a +:+ sep +:+ b])).
  rewrite !concat_cons2. do 2 f_equal. apply IH.
Qed.

Lemma lines_for_cons r i tline lines :
  lines_for r ((i, tline) :: lines)
  = if decide (i = r) then tline :: lines_for r lines else lines_for r lines.
Proof.
  unfold lines_for. rewrite filter_cons. cbn. by case_decide.
Qed.

(** After "Add top lines" a row is its cells preceded by the texts
    registered for it, the latest first, joined by spaces. *)
Lemma add_top_lines_lookup lines rows rows' (r : nat) (old : string) :
  add_top_lines lines rows = Ok rows' → rows !! r = Some old →
  rows' !! r
  = Some (String.concat " " (rev (lines_for (Z.of_nat r) lines) ++ [old])).
Proof.
  revert rows old.
  induction lines as [|[i tline] lines IH]; intros rows old; cbn [add_top_lines].
  - by intros [= <-] ->.
  - destruct (Z.leb_spec 0 i); cbn [andb negb]; [|done].
    destruct (Z.ltb_spec i (len rows)); cbn [andb negb]; [|done].
    destruct (py_index rows i) as [cur|] eqn:Hcur; cbn [rbind]; [|done].
    rewrite py_setitem_nonneg by lia. cbn [rbind].
    apply py_index_nonneg in Hcur; [|done].
    intros Hrec Hold. rewrite lines_for_cons.
    destruct (decide (i = Z.of_nat r)) as [->|Hne].
    + rewrite Nat2Z.id in *. assert (cur = old) as -> by congruence.
      rewrite (IH _ (tline +:+ " " +:+ old) Hrec).
      2:{ apply list_lookup_insert_eq. by eapply lookup_lt_Some. }
      cbn [rev]. rewrite <- !app_assoc. cbn [app].
      by rewrite concat_snoc_join.
    + apply (IH _ old Hrec). rewrite list_lookup_insert_ne by lia. done.
Qed.

Lemma py_insert_sublist {A} (l : list A) (i : Z) (x : A) :
  l `sublist_of` py_insert l i x.
Proof.
  unfold py_insert. set (k := Z.to_nat _).
  rewrite <- (take_drop k l) at 1.
  apply sublist_app; [done|]. by apply sublist_cons.
Qed.

(** "Add rules" only inserts lines: the rows stay, in their order. *)
Lemma add_rules_sublist added rules rows rows' :
  add_rules added rules rows = Ok rows' → rows `sublist_of` rows'.
Proof.
  revert added rows. induction rules as [|[i tex] rules IH]; intros added rows; cbn.
  - by intros [= <-].
  - destruct (negb _); [done|]. intros Hrec%IH.
    etrans; [apply py_insert_sublist|done].
Qed.

(** C6 (amended). When the checks of [render] pass, it returns the
    environments around a row block in which every grid row is the text
    of its cells preceded by the partial lines registered for that row,
    joined by single spaces, the line registered last coming first; the
    rules are then inserted between these rows. *)
Theorem render_partial_lines s :
  table_inv s →
  Forall (λ p : Z * string, 0 ≤ p.1 < row_count s) s.(_lines) →
  rules_fit (row_count s) (sort_rules s.(_rules)) →
  ¬ label_without_caption s → s.(col_styles) ≠ [] →
  ∃ rows0 rows1 rows2 line sty,
    base_rows s = Ok rows0 ∧
    (render s).1 = Ok (assemble s rows2 line sty) ∧
    length rows0 = length s.(table) ∧ length rows1 = length rows0 ∧
    (∀ (r : nat) cells_text, rows0 !! r = Some cells_text →
       rows1 !! r
       = Some (String.concat " "
                 (rev (lines_for (Z.of_nat r) s.(_lines)) ++ [cells_text]))) ∧
    rows1 `sublist_of` rows2.
Proof.
  intros Hinv Hlines Hrules Hlabel Hcols.
  assert (is_ok (render s).1) as [text Htext].
  { by apply render_returns_iff. }
  rewrite render_eq in Htext. rewrite render_eq.
  destruct (base_rows s) as [rows0|] eqn:H0; [|done].
  destruct (add_top_lines _ rows0) as [rows1|] eqn:H1; [|done].
  cbn zeta in *.
  destruct (add_rules 0 _ rows1) as [rows2|] eqn:H2; [|done].
  destruct (caption_line s) as [line|]; [|done].
  destruct (_str_col_sty s) as [sty|]; [|done].
  exists rows0, rows1, rows2, line, sty.
  split; [done|]. split; [done|]. split.
  { apply mapR_length in H0. unfold enumerate in H0.
    by rewrite enumerate_from_length in H0. }
  split; [by eapply add_top_lines_length|].
  split; [|by eapply add_rules_sublist].
  intros r cells_text Hr. by eapply add_top_lines_lookup.
Qed.

Lemma render_partial_lines_witness :
  ∃ rows0 rows1 rows2 line sty,
    base_rows table_two_lines = Ok rows0 ∧
    (render table_two_lines).1
      = Ok (assemble table_two_lines rows2 line sty) ∧
    length rows0 = length table_two_lines.(table) ∧
    length rows1 = length rows0 ∧
    (∀ (r : nat) cells_text, rows0 !! r = Some cells_text →
       rows1 !! r
       = Some (String.concat " "
                 (rev (lines_for (Z.of_nat r) table_two_lines.(_lines))
                  ++ [cells_text]))) ∧
    rows1 `sublist_of` rows2.
Proof.
  apply (render_partial_lines table_two_lines).
  - apply run_table_inv, init_table_inv.
  - vm_compute. repeat constructor; discriminate.
  - exact I.
  - intros [[x Hx] _]. discriminate Hx.
  - discriminate.
Defined.

(** C6, as stated, fails: with a cline and then a cmidrule registered
    for the only row, the row is rendered with the cmidrule first. *)
Lemma render_lines_latest_first :
  table_two_lines.(_lines) = [(0, "\cline{1-1}"); (0, "\cmidrule(lr){1-1}")] ∧
  (render table_two_lines).1
  = Ok (String.concat newline
          [ "\begin{figure}[h!]";
            "    \centering";
            "    ";
            "    \begin{tabular}{c}";
            "        \cmidrule(lr){1-1} \cline{1-1} A \\";
            "    \end{tabular}";
            "    ";
            "\end{figure}" ]) ∧
  (render table_two_lines).1
  ≠ Ok (String.concat newline
          [ "\begin{figure}[h!]";
            "    \centering";
            "    ";
            "    \begin{tabular}{c}";
            "        \cline{1-1} \cmidrule(lr){1-1} A \\";
            "    \end{tabular}";
            "    ";
            "\end{figure}" ]).
Proof.
  split; [reflexivity|]. split; [reflexivity|].
  intros H. vm_compute in H. discriminate.
Qed.

(** ** Slices *)

Lemma elem_of_indices row col to_row to_col (i j : Z) :
  (i, j) ∈ TexTableSlice.indices row col to_row to_col
  ↔ row ≤ i ≤ to_row ∧ col ≤ j ≤ to_col.
Proof.
  unfold TexTableSlice.indices. rewrite list_elem_of_bind. split.
  - intros (i' & Hj & Hi%elem_of_range).
    apply list_elem_of_bind in Hj as (j' & Hp & Hj%elem_of_range).
    apply list_elem_of_singleton in Hp. simplify_eq. lia.
  - intros [Hi Hj]. exists i. split; [|apply elem_of_range; lia].
    apply list_elem_of_bind. exists j. split; [by apply list_elem_of_singleton|].
    apply elem_of_range. lia.
Qed.

Lemma all_is_true s r0 l :
  TexTableSlice.all_is s r0 l = Ok true
  ↔ ∀ p, p ∈ l → slot s p.1 p.2 = Ok r0.
Proof.
  induction l as [|[i j] l IH]; cbn.
  - split; [|done]. intros _ p []%elem_of_nil.
  - destruct (slot s i j) as [r|e] eqn:Hs; cbn.
    + case_bool_decide as Hr.
      * subst r. rewrite IH. split.
        -- intros H p [->|?]%elem_of_cons; [done|by apply H].
        -- intros H p ?. apply H. by right.
      * split; [done|]. intros H. specialize (H (i, j)). cbn in H.
        rewrite Hs in H. assert (Ok r = Ok r0) as [= ?]; [|done].
        apply H. by left.
    + split; [done|]. intros H. specialize (H (i, j)). cbn in H.
      rewrite Hs in H. discriminate H. by left.
Qed.




(** The slice over the merged cell reads ["X"]; the slice over the whole
    row, which holds the merged cell and the third cell, raises. *)
Lemma slice_value_examples :
  (let? slice := TexTableSlice.of_index table_1x3_merged (Int 0) (Slice None (Some 2)) in
   TexTableSlice.value slice) = Ok "X" ∧
  (let? slice := TexTableSlice.of_index table_1x3_merged (Int 0) (Slice None None) in
   TexTableSlice.value slice)
  = Raise (ValueError "Table slice has multiple values").
Proof. split; reflexivity. Qed.

(** ** A rule after the last row *)

(** On a table with no rule yet, a rule added with no row is recorded for
    the row after the last one, and [render] does not return: the range
    check of that only rule is made against the row block without any
    inserted rule. *)
Lemma render_only_rule_after_rows s rule_type text :
  s.(_rules) = [] → (render (add_rule None rule_type s).2).1 ≠ Ok text.
Proof.
  intros Hrules. set (s1 := (add_rule None rule_type s).2).
  assert (∃ tex, s1.(_rules) = [(len s.(table), tex)]) as [tex Hr1].
  { unfold s1, add_rule, bind, _depends_on, modify. cbn.
    rewrite Hrules; by eexists. }
  assert (s1.(table) = s.(table)) as Ht1.
  { apply (same_grid_add_rule None rule_type s). }
  rewrite render_eq.
  destruct (base_rows s1) as [rows0|] eqn:H0; [|done].
  destruct (add_top_lines _ rows0) as [rows1|] eqn:H1; [|done].
  cbn zeta. rewrite Hr1. cbn.
  apply mapR_length in H0. unfold enumerate in H0.
  rewrite enumerate_from_length, Ht1 in H0.
  apply add_top_lines_length in H1.
  destruct (Z.ltb_spec (len (table s)) (len rows1)) as [Hlt|_].
  - unfold len in Hlt. lia.
  - by rewrite andb_false_r.
Qed.

(** ** The calls without values *)

(** [add_col()] as [add_row] calls it is [add_col] with no values: the
    branch that would call [add_row] back is not taken. *)
Lemma add_col_no_values s : add_col [] 0 s = add_col0 s.
Proof.
  unfold add_col, add_col0, add_col_with, bind, modify, get. cbn.
  repeat match goal with
         | |- context [if ?a =? ?b then _ else _] => destruct (a =? b); cbn
         end.
  all: unfold row_count, len; cbn.
  all: match goal with
       | |- context [?x <? Z.of_nat 0] =>
           destruct (Z.ltb_spec x (Z.of_nat 0)); [lia|reflexivity]
       end.
Qed.

(** ** Relations kept by the methods *)

Section keeps.
Context (R : relation TexTable.t) `{!PreOrder R}.

Lemma keeps_ret {A} (a : A) : keeps R (ret a).
Proof. intros s. reflexivity. Qed.

Lemma keeps_raise {A} (e : exn) : keeps R (@raise A e).
Proof. intros s. reflexivity. Qed.

Lemma keeps_lift {A} (r : result A) : keeps R (lift r).
Proof. intros s. reflexivity. Qed.

Lemma keeps_get : keeps R get.
Proof. intros s. reflexivity. Qed.

Lemma keeps_raise_if b e : keeps R (raise_if b e).
Proof. intros s. unfold raise_if. destruct b; reflexivity. Qed.

Lemma keeps_modify f : (∀ s, R s (f s)) → keeps R (modify f).
Proof. intros H s. apply H. Qed.

Lemma keeps_bind {A B} (m : M A) (k : A → M B) :
  keeps R m → (∀ a, keeps R (k a)) → keeps R (bind m k).
Proof.
  intros Hm Hk s. unfold bind. specialize (Hm s).
  destruct (m s) as [[a|e] s1]; cbn in *; [|done].
  etrans; [done|]. apply Hk.
Qed.

Lemma keeps_forM_ {A} (l : list A) (body : A → M unit) :
  (∀ x, keeps R (body x)) → keeps R (forM_ l body).
Proof.
  intros Hbody. induction l as [|x l IH]; cbn.
  - apply keeps_ret.
  - apply keeps_bind; [apply Hbody|by intros _].
Qed.

Lemma keeps_times n (body : M unit) : keeps R body → keeps R (times n body).
Proof. intros. unfold times. by apply keeps_forM_. Qed.
End keeps.

#[global] Instance deps_grow_preorder : PreOrder deps_grow.
Proof.
  split.
  - intros s. unfold deps_grow. set_solver.
  - intros s1 s2 s3 [??] [??]. unfold deps_grow. set_solver.
Qed.

Lemma deps_grow_same s s' :
  s'.(_dependencies) = s.(_dependencies) → deps_grow s s'.
Proof. intros H. unfold deps_grow. rewrite H. set_solver. Qed.

Lemma deps_grow_depends_on d :
  d ∈ known_packages → keeps deps_grow (_depends_on d).
Proof.
  intros Hd s. unfold _depends_on, modify, deps_grow. cbn. set_solver.
Qed.

Lemma known_package_names :
  "booktabs" ∈ known_packages ∧ "multirow" ∈ known_packages ∧
  "colortbl" ∈ known_packages ∧ "xcolor" ∈ known_packages ∧
  "graphicx" ∈ known_packages.
Proof. unfold known_packages. set_solver. Qed.

Lemma deps_grow_update_cell r f : keeps deps_grow (update_cell r f).
Proof.
  intros s. unfold update_cell. destruct (heap s !! r); by apply deps_grow_same.
Qed.

Lemma deps_grow_set_slot i j r : keeps deps_grow (set_slot i j r).
Proof.
  intros s. unfold set_slot. case_match; by apply deps_grow_same.
Qed.

Lemma deps_grow_new_cell c : keeps deps_grow (new_cell c).
Proof. intros s. by apply deps_grow_same. Qed.

Lemma deps_grow_new_cells cs : keeps deps_grow (new_cells cs).
Proof. intros s. by apply deps_grow_same. Qed.

Lemma deps_grow_for_cells slice f :
  keeps deps_grow (TexTableSlice.for_cells slice f).
Proof.
  unfold TexTableSlice.for_cells. apply keeps_forM_; [apply _|]. intros p.
  apply keeps_bind; [apply _|apply keeps_get; apply _|]. intros s.
  apply keeps_bind; [apply _|apply keeps_lift; apply _|]. intros r.
  apply deps_grow_update_cell.
Qed.

Lemma deps_grow_append_row vals : keeps deps_grow (append_row vals).
Proof.
  unfold append_row.
  apply keeps_bind; [apply _|apply keeps_get; apply _|]. intros s.
  apply keeps_bind; [apply _|apply keeps_lift; apply _|]. intros cells.
  apply keeps_bind; [apply _|apply deps_grow_new_cells|]. intros refs.
  apply keeps_modify. intros s1. by apply deps_grow_same.
Qed.

Lemma deps_grow_append_col vals : keeps deps_grow (append_col vals).
Proof.
  unfold append_col. apply keeps_forM_; [apply _|]. intros p.
  unfold append_col_cell.
  apply keeps_bind; [apply _|apply keeps_get; apply _|]. intros s.
  apply keeps_bind; [apply _|apply keeps_lift; apply _|]. intros cells.
  apply keeps_bind; [apply _|apply keeps_lift; apply _|]. intros ls.
  apply keeps_bind; [apply _|apply keeps_lift; apply _|]. intros rs.
  apply keeps_bind; [apply _|apply deps_grow_new_cell|]. intros r.
  apply keeps_modify. intros s1. by apply deps_grow_same.
Qed.

Lemma deps_grow_add_row_with cb values start :
  keeps deps_grow cb → keeps deps_grow (add_row_with cb values start).
Proof.
  intros Hcb. unfold add_row_with.
  apply keeps_bind; [apply _|apply keeps_get; apply _|]. intros s. cbn zeta.
  apply keeps_bind; [apply _| |intros vals; apply deps_grow_append_row].
  repeat case_match;
    first [ apply keeps_ret; apply _
          | apply keeps_bind;
            [apply _|by apply keeps_times; [apply _|]
            |intros _; apply keeps_ret; apply _] ].
Qed.

Lemma deps_grow_add_col_with cb values start :
  keeps deps_grow cb → keeps deps_grow (add_col_with cb values start).
Proof.
  intros Hcb. unfold add_col_with.
  apply keeps_bind; [apply _|apply keeps_modify; intros s; by apply deps_grow_same|].
  intros _.
  apply keeps_bind; [apply _|apply keeps_modify; intros s; by apply deps_grow_same|].
  intros _.
  apply keeps_bind; [apply _|apply keeps_get; apply _|]. intros s.
  apply keeps_bind; [apply _| |].
  { case_match; [apply keeps_modify; intros s1; by apply deps_grow_same
                |apply keeps_ret; apply _]. }
  intros _.
  apply keeps_bind; [apply _|apply keeps_get; apply _|]. intros s1. cbn zeta.
  apply keeps_bind; [apply _| |intros vals; apply deps_grow_append_col].
  repeat case_match;
    first [ apply keeps_ret; apply _
          | apply keeps_bind;
            [apply _|by apply keeps_times; [apply _|]
            |intros _; apply keeps_ret; apply _] ].
Qed.

Lemma deps_grow_add_row values start : keeps deps_grow (add_row values start).
Proof.
  apply deps_grow_add_row_with. apply deps_grow_add_col_with.
  apply keeps_ret; apply _.
Qed.

Lemma deps_grow_add_col values start : keeps deps_grow (add_col values start).
Proof. apply deps_grow_add_col_with. apply deps_grow_add_row. Qed.

Lemma deps_grow_merge value row col width height to_row to_col :
  keeps deps_grow (merge value row col width height to_row to_col).
Proof.
  unfold merge.
  apply keeps_bind; [apply _|apply keeps_get; apply _|]. intros s.
  apply keeps_bind; [apply _|apply keeps_raise_if; apply _|]. intros _.
  apply keeps_bind; [apply _|apply keeps_raise_if; apply _|]. intros _.
  apply keeps_bind; [apply _| |].
  { repeat case_match; (apply keeps_ret || apply keeps_raise); apply _. }
  intros [tr h].
  apply keeps_bind; [apply _| |].
  { repeat case_match; (apply keeps_ret || apply keeps_raise); apply _. }
  intros [tc w].
  apply keeps_bind; [apply _|apply keeps_raise_if; apply _|]. intros _.
  apply keeps_bind; [apply _|apply keeps_raise_if; apply _|]. intros _.
  apply keeps_bind; [apply _|apply keeps_lift; apply _|]. intros _.
  apply keeps_bind; [apply _| |].
  { case_match; [apply deps_grow_depends_on, known_package_names
               |apply keeps_ret; apply _]. }
  intros _.
  apply keeps_bind; [apply _|apply keeps_lift; apply _|]. intros ls.
  apply keeps_bind; [apply _|apply keeps_lift; apply _|]. intros rs.
  apply keeps_bind; [apply _|apply deps_grow_new_cell|]. intros r.
  apply keeps_forM_; [apply _|]. intros i.
  apply keeps_forM_; [apply _|]. intros j. apply deps_grow_set_slot.
Qed.

Lemma deps_grow_step o s : deps_grow s (step o s).
Proof.
  unfold step. revert s. change (keeps deps_grow (perform o)).
  destruct o; cbn [perform].
  - apply deps_grow_add_row.
  - apply deps_grow_add_col.
  - apply deps_grow_merge.
  - unfold add_rule.
    apply keeps_bind; [apply _|apply deps_grow_depends_on, known_package_names|]. intros _.
    apply keeps_modify. intros s. by apply deps_grow_same.
  - unfold add_cline.
    apply keeps_bind; [apply _|apply deps_grow_depends_on, known_package_names|]. intros _.
    apply keeps_modify. intros s. by apply deps_grow_same.
  - unfold add_cmidrule.
    apply keeps_bind; [apply _|apply deps_grow_depends_on, known_package_names|]. intros _.
    apply keeps_modify. intros s. by apply deps_grow_same.
  - unfold __setitem__. repeat case_match.
    all: apply keeps_bind; [apply _|apply keeps_get; apply _|]; intros s.
    all: apply keeps_bind; [apply _|apply keeps_lift; apply _|]; intros b.
    all: try apply deps_grow_update_cell.
    all: destruct b as [[[??]?]?]; apply deps_grow_merge.
  - apply deps_grow_for_cells.
  - apply deps_grow_for_cells.
  - apply deps_grow_for_cells.
  - apply deps_grow_for_cells.
  - unfold TexTableSlice.set_background_color.
    apply keeps_bind; [apply _|apply deps_grow_depends_on, known_package_names|]. intros _.
    apply keeps_bind; [apply _|apply deps_grow_depends_on, known_package_names|]. intros _.
    apply deps_grow_for_cells.
  - unfold TexTableSlice.set_rotation.
    apply keeps_bind; [apply _|apply deps_grow_depends_on, known_package_names|]. intros _.
    apply deps_grow_for_cells.
  - apply keeps_bind; [apply _| |intros; apply keeps_ret; apply _].
    intros s. apply deps_grow_same.
    unfold render, bind, get, lift, modify, ret. cbn.
    repeat (case_match; cbn; try done).
Qed.

(** ** Dependencies *)

#[global] Instance deps_same_preorder : PreOrder deps_same.
Proof.
  split; [by intros s|]. intros s1 s2 s3 H1 H2. unfold deps_same in *.
  congruence.
Qed.

Lemma deps_same_for_cells slice f :
  keeps deps_same (TexTableSlice.for_cells slice f).
Proof.
  unfold TexTableSlice.for_cells. apply keeps_forM_; [apply _|]. intros p.
  apply keeps_bind; [apply _|apply keeps_get; apply _|]. intros s.
  apply keeps_bind; [apply _|apply keeps_lift; apply _|]. intros r s1.
  unfold update_cell. by destruct (heap s1 !! r).
Qed.

Lemma depends_on_deps d s :
  (_depends_on d s).2.(_dependencies) = {[d]} ∪ s.(_dependencies).
Proof. done. Qed.

Lemma dependencies_elements s : dependencies s (elements s.(_dependencies)).
Proof.
  split; [apply NoDup_elements|]. intros dep. apply elem_of_elements.
Qed.

(** X1. No call removes a package, whether it returns or raises: every
    package in a list that [dependencies] returned before the call is in
    every list it returns afterwards.  Such a list holds each package
    once, and in a table built through the methods it holds no package
    other than [booktabs], [multirow], [colortbl], [xcolor] and
    [graphicx]. *)
Theorem dependencies_accumulate s o l l' :
  reachable s → dependencies s l → dependencies (step o s) l' →
  l ⊆ l' ∧ NoDup l' ∧
  ∀ dep, dep ∈ l' → dep ∈ known_packages.
Proof.
  intros Hs [_ Hl] [Hnd Hl'].
  assert (Hknown : ∀ s, reachable s → s.(_dependencies) ⊆ known_packages).
  { clear. induction 1 as [|s o _ IH]; [set_solver|].
    destruct (deps_grow_step o s) as [_ Hle]. set_solver. }
  destruct (deps_grow_step o s) as [Hle _].
  split; [|split; [done|]].
  - intros dep Hdep. apply Hl'. apply Hle. by apply Hl.
  - intros dep Hdep. apply (Hknown (step o s)); [by constructor|].
    by apply Hl'.
Qed.

Lemma dependencies_accumulate_witness :
  ["booktabs"] ⊆ ["multirow"; "booktabs"] ∧
  NoDup ["multirow"; "booktabs"] ∧
  ∀ dep, dep ∈ ["multirow"; "booktabs"] → dep ∈ known_packages.
Proof.
  apply (dependencies_accumulate table_3x1_bottom
           (Merge "X" 0 0 None (Some 2) None (Some 0))).
  - apply run_reachable, reach_init.
  - split; [repeat constructor; set_solver|].
    intros dep.
    change (table_3x1_bottom.(_dependencies)) with ({["booktabs"]} ∪ ∅ : gset string).
    set_solver.
  - split; [repeat constructor; set_solver|].
    intros dep.
    change ((step (Merge "X" 0 0 None (Some 2) None (Some 0))
               table_3x1_bottom).(_dependencies))
      with ({["multirow"]} ∪ ({["booktabs"]} ∪ ∅) : gset string).
    set_solver.
Defined.

(** X2. [set_background_color] leaves the set of packages as the one
    before with [colortbl] and [xcolor] added, and [set_rotation] as the
    one before with [graphicx] added, whatever the slice and whether the
    loop over the cells returns or raises.  [set_value], [for_each],
    [set_bold] and [set_italic] leave the packages as they are. *)
Theorem setters_dependencies slice val degree options value func bval s :
  (TexTableSlice.set_background_color slice val s).2.(_dependencies)
  = {["colortbl"; "xcolor"]} ∪ s.(_dependencies) ∧
  (TexTableSlice.set_rotation slice degree options s).2.(_dependencies)
  = {["graphicx"]} ∪ s.(_dependencies) ∧
  (TexTableSlice.set_value slice value s).2.(_dependencies)
  = s.(_dependencies) ∧
  (TexTableSlice.for_each slice func s).2.(_dependencies)
  = s.(_dependencies) ∧
  (TexTableSlice.set_bold slice bval s).2.(_dependencies)
  = s.(_dependencies) ∧
  (TexTableSlice.set_italic slice bval s).2.(_dependencies)
  = s.(_dependencies).
Proof.
  assert (Hbg : (TexTableSlice.set_background_color slice val s).2.(_dependencies)
          = (_depends_on "xcolor" (_depends_on "colortbl" s).2).2.(_dependencies)).
  { unfold TexTableSlice.set_background_color, bind. cbn.
    apply (deps_same_for_cells slice (TexTableCell.with_background_color val)). }
  assert (Hrot : (TexTableSlice.set_rotation slice degree options s).2.(_dependencies)
          = (_depends_on "graphicx" s).2.(_dependencies)).
  { unfold TexTableSlice.set_rotation, bind. cbn.
    apply (deps_same_for_cells slice (TexTableCell.with_rotation degree options)). }
  rewrite Hbg, Hrot, !depends_on_deps.
  split; [set_solver|]. split; [done|].
  repeat split; apply deps_same_for_cells.
Qed.

(** ** add_row and add_col return *)

Lemma row_count_lens s : row_count s = Z.of_nat (length (lens s)).
Proof. unfold row_count, len. by rewrite lens_length. Qed.

(** X3. On a table that satisfies the invariant [add_row] returns: it
    does not raise.  The table has one more row, and as many columns as
    before or as the row has values after its [start] placeholders,
    whichever is more; it satisfies the invariant again, and if every row
    had exactly [col_count] slots, every row does so afterwards. *)
Theorem add_row_returns_one_more_row values start s :
  table_inv s →
  ∃ s', add_row values start s = (Ok (), s') ∧
        table_inv s' ∧
        row_count s' = row_count s + 1 ∧
        col_count s' = Z.max (col_count s) (add_col_values values start) ∧
        (rows_exact s → rows_exact s').
Proof.
  intros Hinv. pose proof Hinv as (Hseps & Hslots & _).
  destruct (add_row_returns values start s Hseps Hslots)
    as ([] & s' & Hrun & _ & _ & Hc & Hl).
  exists s'. split; [done|].
  assert (s' = step (AddRow values start) s) as Hs'.
  { unfold step. cbn [perform]. by rewrite Hrun. }
  split; [rewrite Hs'; by apply step_table_inv|].
  split.
  { rewrite !row_count_lens, Hl, length_app, length_fmap. cbn [length]. lia. }
  split; [exact Hc|].
  intros Hex. rewrite Hs'. by apply step_rows_exact.
Qed.

Lemma add_row_returns_one_more_row_witness :
  ∃ s', add_row [Some "x"; None; Some "z"] 1 table_2x2 = (Ok (), s') ∧
        table_inv s' ∧
        row_count s' = row_count table_2x2 + 1 ∧
        col_count s'
        = Z.max (col_count table_2x2)
                (add_col_values [Some "x"; None; Some "z"] 1) ∧
        (rows_exact table_2x2 → rows_exact s').
Proof.
  apply (add_row_returns_one_more_row [Some "x"; None; Some "z"] 1 table_2x2).
  apply run_table_inv, init_table_inv.
Defined.



(** ** The grid and the arena only grow under add_row and add_col *)

#[global] Instance grows_preorder : PreOrder grows.
Proof.
  split.
  - intros s. split; [done|]. split; [done|]. intros i j r ?. by left.
  - intros s1 s2 s3 (Hh12 & Hk12 & Hn12) (Hh23 & Hk23 & Hn23).
    split; [by etrans|]. split; [by auto|].
    intros i j r Hr. destruct (Hn23 _ _ _ Hr) as [H2|(Hlen & c & Hc & Hu)].
    + destruct (Hn12 _ _ _ H2) as [?|(Hlen & c & Hc & Hu)]; [by left|].
      right. split; [done|]. exists c. split; [|done].
      by eapply prefix_lookup_Some.
    + right. split; [|by exists c].
      apply prefix_length in Hh12. lia.
Qed.

Lemma grows_same s s' :
  s'.(table) = s.(table) → s'.(heap) = s.(heap) → grows s s'.
Proof.
  intros Ht Hh. unfold grows, slot_nat. rewrite Ht, Hh.
  split; [done|]. split; [done|]. intros i j r ?. by left.
Qed.

(** The cell records that the comprehension of [add_row] builds. *)
Lemma append_row_cells_lookup (ss : list string) (vals : list string) (r : Z)
    (cells : list TexTableCell.t) (j : nat) c :
  mapR (λ p : Z * string,
          let? ls := py_index ss p.1 in
          let? rs := py_index ss (p.1 + 1) in
          Ok (TexTableCell.__init__ p.2 r p.1 1 1 ls rs))
       (enumerate vals) = Ok cells →
  cells !! j = Some c →
  ∃ v ls rs, vals !! j = Some v ∧
             c = TexTableCell.__init__ v r (Z.of_nat j) 1 1 ls rs.
Proof.
  intros Hcells Hj.
  pose proof (mapR_length _ _ _ Hcells) as Hl.
  unfold enumerate in Hl. rewrite enumerate_from_length in Hl.
  destruct (lookup_lt_is_Some_2 (enumerate vals) j) as [p Hp].
  { unfold enumerate. rewrite enumerate_from_length, <- Hl.
    by eapply lookup_lt_Some. }
  destruct (mapR_lookup _ _ _ _ _ Hcells Hp) as (c' & Hf & Hc').
  assert (c' = c) as -> by congruence.
  unfold enumerate in Hp. rewrite enumerate_from_lookup in Hp.
  destruct (vals !! j) as [v|]; simplify_eq/=.
  destruct (py_index ss (0 + Z.of_nat j)) as [ls|]; simplify_eq/=.
  destruct (py_index ss (0 + Z.of_nat j + 1)) as [rs|]; simplify_eq/=.
  exists v, ls, rs. by rewrite Z.add_0_l.
Qed.

Lemma grows_append_row vals : keeps grows (append_row vals).
Proof.
  intros s. unfold append_row, bind, get, lift, new_cells, modify.
  cbn iota beta.
  destruct (mapR _ (enumerate vals)) as [cells|] eqn:Hcells; cbn; [|reflexivity].
  split; [by apply prefix_app_r|]. unfold slot_nat. cbn. split.
  - intros i j r Hr. destruct (table s !! i) as [row|] eqn:Hi; [|done].
    by rewrite (lookup_app_l_Some _ _ _ _ Hi).
  - intros i j r Hr.
    destruct (decide (i < length (table s))%nat) as [Hlt|Hge].
    + left. rewrite lookup_app_l in Hr by done. done.
    + right. rewrite lookup_app_r in Hr by lia.
      destruct (i - length (table s))%nat as [|k] eqn:Hk; cbn in Hr; [|done].
      apply lookup_seq in Hr as [-> Hj]. split; [lia|].
      destruct (lookup_lt_is_Some_2 cells j Hj) as [c Hc].
      exists c. split.
      * rewrite lookup_app_r by lia.
        by replace (length (heap s) + j - length (heap s))%nat with j by lia.
      * destruct (append_row_cells_lookup _ _ _ _ _ _ Hcells Hc)
          as (v & ls & rs & _ & ->).
        unfold unit_cell_at, len. cbn. repeat split. lia.
Qed.

Lemma grows_append_col_cell (p : Z * string) :
  0 ≤ p.1 → keeps grows (append_col_cell p).
Proof.
  intros Hp s. unfold append_col_cell, bind, get, lift, new_cell, modify.
  cbn iota beta.
  destruct (py_index (table s) p.1) as [cells|] eqn:Hcells; cbn; [|reflexivity].
  destruct (py_index (seps s) (-2)); cbn; [|reflexivity].
  destruct (py_index (seps s) (-1)); cbn; [|reflexivity].
  apply py_index_nonneg in Hcells; [|done].
  set (k := Z.to_nat p.1) in *.
  split; [by apply prefix_app_r|]. unfold slot_nat. cbn. split.
  - intros i j r Hr. destruct (decide (i = k)) as [->|Hne].
    + rewrite list_lookup_insert_eq by by eapply lookup_lt_Some.
      rewrite Hcells in Hr. cbn in *. by apply lookup_app_l_Some.
    + by rewrite list_lookup_insert_ne.
  - intros i j r Hr. destruct (decide (i = k)) as [->|Hne].
    + rewrite list_lookup_insert_eq in Hr by by eapply lookup_lt_Some.
      cbn in Hr. rewrite Hcells. cbn.
      apply lookup_app_Some in Hr as [?|[Hge Hr]]; [by left|].
      apply list_lookup_singleton_Some in Hr as [Hj <-].
      right. split; [done|]. eexists. split; [by apply list_lookup_middle|].
      unfold unit_cell_at, len. cbn. repeat split; lia.
    + left. by rewrite list_lookup_insert_ne in Hr.
Qed.

Lemma keeps_forM__elem (R : relation TexTable.t) `{!PreOrder R} {A}
    (l : list A) (body : A → M unit) :
  (∀ x, x ∈ l → keeps R (body x)) → keeps R (forM_ l body).
Proof.
  induction l as [|x l IH]; intros Hbody; cbn.
  - by apply keeps_ret.
  - apply keeps_bind; [done|apply Hbody; by left|].
    intros _. apply IH. intros y ?. apply Hbody. by right.
Qed.

Lemma grows_append_col vals : keeps grows (append_col vals).
Proof.
  unfold append_col. apply keeps_forM__elem; [apply _|].
  intros p (n & Hn & _)%elem_of_enumerate_from.
  apply grows_append_col_cell. lia.
Qed.

Lemma grows_add_row_with cb values start :
  keeps grows cb → keeps grows (add_row_with cb values start).
Proof.
  intros Hcb. unfold add_row_with.
  apply keeps_bind; [apply _|apply keeps_get; apply _|]. intros s. cbn zeta.
  apply keeps_bind; [apply _| |intros vals; apply grows_append_row].
  repeat case_match;
    first [ apply keeps_ret; apply _
          | apply keeps_bind;
            [apply _|by apply keeps_times; [apply _|]
            |intros _; apply keeps_ret; apply _] ].
Qed.

Lemma grows_add_col_with cb values start :
  keeps grows cb → keeps grows (add_col_with cb values start).
Proof.
  intros Hcb. unfold add_col_with.
  apply keeps_bind; [apply _|apply keeps_modify; intros s; by apply grows_same|].
  intros _.
  apply keeps_bind; [apply _|apply keeps_modify; intros s; by apply grows_same|].
  intros _.
  apply keeps_bind; [apply _|apply keeps_get; apply _|]. intros s.
  apply keeps_bind; [apply _| |].
  { case_match; [apply keeps_modify; intros s1; by apply grows_same
                |apply keeps_ret; apply _]. }
  intros _.
  apply keeps_bind; [apply _|apply keeps_get; apply _|]. intros s1. cbn zeta.
  apply keeps_bind; [apply _| |intros vals; apply grows_append_col].
  repeat case_match;
    first [ apply keeps_ret; apply _
          | apply keeps_bind;
            [apply _|by apply keeps_times; [apply _|]
            |intros _; apply keeps_ret; apply _] ].
Qed.

Lemma grows_add_row values start : keeps grows (add_row values start).
Proof.
  apply grows_add_row_with, grows_add_col_with. apply keeps_ret; apply _.
Qed.

Lemma grows_add_col values start : keeps grows (add_col values start).
Proof. apply grows_add_col_with, grows_add_row. Qed.

(** X5. Whether they return or raise, [add_row] and [add_col] leave
    every cell record as it is and every slot of the grid with the
    reference it had; each slot they add holds a cell constructed by the
    call, one column wide and one row high, anchored at that slot. *)
Theorem add_row_add_col_only_grow values start s :
  grows s (add_row values start s).2 ∧ grows s (add_col values start s).2.
Proof. split; [apply grows_add_row|apply grows_add_col]. Qed.

(** ** The cells tile the grid *)

Lemma slot_nat_Some s (i j : nat) r :
  slot_nat s i j = Some r
  ↔ ∃ cells, s.(table) !! i = Some cells ∧ cells !! j = Some r.
Proof.
  unfold slot_nat. destruct (table s !! i) as [cells|]; cbn.
  - split; [by exists cells|]. by intros (? & [= <-] & ?).
  - split; [done|]. by intros (? & ? & ?).
Qed.

Lemma slots_ok_slot_nat s (i j : nat) r :
  slots_ok s → slot_nat s i j = Some r →
  ∃ c, s.(heap) !! r = Some c ∧ TexTableCell.covers c (Z.of_nat i) (Z.of_nat j).
Proof.
  intros Hslots (cells & Hi & Hj)%slot_nat_Some. by eapply Hslots.
Qed.

Lemma covers_unit_cell c (i j : nat) (a b : Z) :
  unit_cell_at c i j → TexTableCell.covers c a b →
  a = Z.of_nat i ∧ b = Z.of_nat j.
Proof.
  intros (Hr & Hc & Hw & Hh) [??]. rewrite Hr, Hh, Hc, Hw in *. lia.
Qed.

Lemma tiled_grows s s' : slots_ok s → tiled s → grows s s' → tiled s'.
Proof.
  intros Hslots Htiled (Hheap & Hkeep & Hnew) i j r c Hr Hc a b Hcov.
  destruct (Hnew _ _ _ Hr) as [Hold|(Hlen & c' & Hc' & Hunit)].
  - destruct (slots_ok_slot_nat _ _ _ _ Hslots Hold) as (c0 & Hc0 & _).
    pose proof (prefix_lookup_Some _ _ _ _ Hc0 Hheap) as Hc0'.
    assert (c0 = c) as -> by congruence.
    destruct (Htiled _ _ _ _ Hold Hc0 a b Hcov) as (? & ? & Hab).
    split; [done|]. split; [done|]. by apply Hkeep.
  - assert (c' = c) as -> by congruence.
    destruct (covers_unit_cell _ _ _ _ _ Hunit Hcov) as [-> ->].
    split; [lia|]. split; [lia|]. by rewrite !Nat2Z.id.
Qed.

Lemma tiled_extends s s' : slots_ok s → tiled s → extends s s' → tiled s'.
Proof.
  intros Hslots Htiled (_ & _ & Ht & Hh) i j r c' Hr Hc' a b Hcov.
  unfold slot_nat in *. rewrite Ht in *.
  destruct (slots_ok_slot_nat s i j r Hslots Hr) as (c & Hc & _).
  destruct (Hh _ _ Hc) as (c2 & Hc2 & (Hrow & Hcol & Hw & Hheight)).
  assert (c2 = c') as -> by congruence.
  apply (Htiled _ _ _ _ Hr Hc a b).
  unfold TexTableCell.covers in *. by rewrite <- Hrow, <- Hcol, <- Hw, <- Hheight.
Qed.

(** The slots of a grid after its rectangle [R] was filled with [r]. *)
Lemma filled_slot_nat R r T T' s s' (i j : nat) :
  s.(table) = T → s'.(table) = T' → filled R r T T' →
  is_Some (slot_nat s i j) →
  slot_nat s' i j
  = if decide (in_rect R (Z.of_nat i) (Z.of_nat j)) then Some r
    else slot_nat s i j.
Proof.
  intros <- <- [Hlen Hfill] [x Hx].
  apply slot_nat_Some in Hx as (cells & Hi & Hj).
  destruct (Hfill _ _ Hi) as (cells' & Hi' & Hl' & Hlook).
  unfold slot_nat. rewrite Hi', Hi. cbn.
  apply Hlook. by eapply lookup_lt_Some.
Qed.

Lemma filled_slot_nat_is_Some R r T T' s s' (i j : nat) :
  s.(table) = T → s'.(table) = T' → filled R r T T' →
  is_Some (slot_nat s' i j) → is_Some (slot_nat s i j).
Proof.
  intros <- <- Hfill [x Hx].
  apply slot_nat_Some in Hx as (cells' & Hi' & Hj').
  destruct (filled_lookup _ _ _ _ _ _ _ _ Hfill Hi' Hj') as (cells & Hi & Hl & _).
  destruct (lookup_lt_is_Some_2 cells j) as [y Hy].
  { rewrite <- Hl. by eapply lookup_lt_Some. }
  exists y. apply slot_nat_Some. by exists cells.
Qed.

Lemma tiled_merge value row col width height to_row to_col s s' :
  merge value row col width height to_row to_col s = (Ok (), s') →
  slots_ok s → tiled s → tiled s'.
Proof.
  intros Hm Hslots Htiled.
  pose proof (merge_spec value row col width height to_row to_col s) as Hspec.
  rewrite Hm in Hspec.
  destruct Hspec as (tr & tc & _ & _ & Hgrid & Hv & _ & _
                     & (ls & rs & Hheap) & Hfill).
  destruct Hgrid as (Hrow & Htr & Hcol & Htc).
  assert (Hrect : ∀ a b : nat, in_rect (row, col, tr, tc) (Z.of_nat a) (Z.of_nat b) →
                    is_Some (slot_nat s a b)).
  { intros a b [Ha Hb].
    destruct (merge_validate_rows s row col tr tc ltac:(lia) ltac:(lia)
                ltac:(lia) Hv a Ha) as (cells & Hcells & Hlen).
    destruct (lookup_lt_is_Some_2 cells b) as [y Hy]; [unfold len in *; lia|].
    exists y. apply slot_nat_Some. by exists cells. }
  intros i j r c Hr Hc a b Hcov.
  pose proof (filled_slot_nat_is_Some _ _ _ _ s s' i j eq_refl eq_refl Hfill
                (mk_is_Some _ _ Hr)) as Hij.
  rewrite (filled_slot_nat _ _ _ _ s s' i j eq_refl eq_refl Hfill Hij) in Hr.
  case_decide as Hin.
  - (* a slot of the rectangle: the new cell *)
    injection Hr as <-. rewrite Hheap, list_lookup_middle in Hc by done.
    injection Hc as <-. destruct Hcov as [Ha Hb]. cbn in Ha, Hb.
    assert (in_rect (row, col, tr, tc) a b) as Hab by (cbn; lia).
    split; [lia|]. split; [lia|].
    rewrite (filled_slot_nat _ _ _ _ s s' _ _ eq_refl eq_refl Hfill).
    + rewrite !Z2Nat.id by lia. by rewrite decide_True.
    + apply Hrect. rewrite !Z2Nat.id by lia. done.
  - (* a slot outside: the cell it had *)
    destruct (slots_ok_slot_nat _ _ _ _ Hslots Hr) as (c0 & Hc0 & Hcov0).
    assert (c0 = c) as ->.
    { rewrite Hheap in Hc. rewrite (lookup_app_l_Some _ _ _ _ Hc0) in Hc.
      congruence. }
    destruct (Htiled _ _ _ _ Hr Hc0 a b Hcov) as (Ha0 & Hb0 & Hab).
    split; [done|]. split; [done|].
    rewrite (filled_slot_nat _ _ _ _ s s' _ _ eq_refl eq_refl Hfill)
      by by rewrite Hab.
    rewrite !Z2Nat.id by lia.
    case_decide as Hin'; [|done]. exfalso. apply Hin.
    (* the cell passed the validation at [(a, b)], so it lies inside *)
    rewrite merge_validate_ok in Hv. destruct Hin' as [Ha Hb].
    destruct (merge_check_ok_slot _ _ _ _ _ _ (Hv a b Ha Hb))
      as (cells & r' & c' & Hcells & Hr' & Hc' & Hb1 & Hb2 & Hb3 & Hb4).
    apply py_index_nonneg in Hcells; [|done].
    apply py_index_nonneg in Hr'; [|done].
    assert (slot_nat s (Z.to_nat a) (Z.to_nat b) = Some r') as Hab'.
    { apply slot_nat_Some. by exists cells. }
    assert (r' = r) as -> by congruence.
    assert (c' = c) as -> by congruence.
    destruct Hcov0 as [??]. cbn. lia.
Qed.

Lemma step_tiled o s : table_inv s → tiled s → tiled (step o s).
Proof.
  intros (Hseps & Hslots & _) Htiled.
  assert (Hmerge : ∀ value row col width height to_row to_col,
            tiled (merge value row col width height to_row to_col s).2).
  { intros.
    pose proof (merge_spec value row col width height to_row to_col s) as Hspec.
    destruct (merge value row col width height to_row to_col s)
      as [[[]|e] s'] eqn:Hm; cbn.
    - by eapply tiled_merge.
    - eapply tiled_extends; [done|done|]. by apply same_grid_extends. }
  pose proof (extends_step o s) as Hstep.
  destruct o; try (by eapply tiled_extends); unfold step, perform.
  - eapply tiled_grows; [done|done|apply grows_add_row].
  - eapply tiled_grows; [done|done|apply grows_add_col].
  - apply Hmerge.
  - destruct (setitem_cases i j value s) as [?|(r & c & tr & tc & ->)].
    + by eapply tiled_extends.
    + apply Hmerge.
Qed.

Lemma reachable_tiled s : reachable s → tiled s.
Proof.
  induction 1 as [|s o Hs IH].
  - intros i j r c Hr. unfold slot_nat in Hr. cbn in Hr.
    by rewrite lookup_nil in Hr.
  - apply step_tiled; [by apply reachable_table_inv|done].
Qed.

(** X6. In a table built through the methods the cells tile the grid:
    every slot covered by the rectangle of a cell of the grid is a slot of
    the grid and holds that very cell object.  Hence two slots that hold
    distinct cell objects hold cells whose rectangles share no slot. *)
Theorem cells_tile_the_grid s :
  reachable s →
  tiled s ∧
  ∀ (i1 j1 i2 j2 : nat) r1 r2 c1 c2 (a b : Z),
    slot_nat s i1 j1 = Some r1 → s.(heap) !! r1 = Some c1 →
    slot_nat s i2 j2 = Some r2 → s.(heap) !! r2 = Some c2 →
    TexTableCell.covers c1 a b → TexTableCell.covers c2 a b → r1 = r2.
Proof.
  intros Hs. pose proof (reachable_tiled s Hs) as Htiled. split; [done|].
  intros i1 j1 i2 j2 r1 r2 c1 c2 a b Hr1 Hc1 Hr2 Hc2 Hcov1 Hcov2.
  destruct (Htiled _ _ _ _ Hr1 Hc1 a b Hcov1) as (_ & _ & H1).
  destruct (Htiled _ _ _ _ Hr2 Hc2 a b Hcov2) as (_ & _ & H2).
  congruence.
Qed.

Lemma cells_tile_the_grid_witness : tiled table_1x3_merged.
Proof.
  apply (cells_tile_the_grid table_1x3_merged).
  apply run_reachable, run_reachable, reach_init.
Defined.

(** ** A merge that raises *)

Lemma merge_area_raise_inv value row col tr tc s e s' :
  0 ≤ row < row_count s → 0 ≤ col < col_count s → table_inv s →
  merge_area value row col tr tc s = (Raise e, s') →
  s' = s ∧ ∃ msg, e = ValueError msg.
Proof.
  intros Hrow Hcol Hinv Hm.
  pose proof (merge_area_spec value row col tr tc s ltac:(lia) ltac:(lia)) as Hspec.
  rewrite Hm in Hspec. destruct Hspec as [_ Hwhy].
  unfold row_count in *.
  destruct (decide (row ≤ tr < len s.(table))) as [Hr|Hr].
  - destruct (decide (col ≤ tc < col_count s)) as [Hc|Hc].
    + destruct (merge_validate s row col tr tc) as [[]|e0] eqn:Hv.
      * exfalso. destruct Hwhy as [?|[?|[?|Hs]]]; try done.
        destruct Hinv as (Hseps & _). unfold seps_ok in Hseps.
        unfold col_count, len in *.
        destruct (col_styles s); cbn [length] in *; lia.
      * rewrite (merge_area_validate_raise _ _ _ _ _ _ _ Hr Hc Hv) in Hm.
        injection Hm as <- <-. split; [done|].
        apply merge_validate_raise in Hv as (i & j & Hi & Hj & Hchk).
        destruct (merge_check_in_grid s col tr tc i j Hinv) as [Hok|Hov];
          [unfold row_count; lia|lia|congruence|].
        rewrite Hov in Hchk. injection Hchk as <-. by eexists.
    + revert Hm.
      unfold merge_area, bind, get, raise_if, ret, raise, lift. cbn zeta.
      destruct (Z.leb_spec row tr); [|lia].
      destruct (Z.ltb_spec tr (len (table s))); [|lia]. cbn [andb negb].
      destruct (Z.leb_spec col tc); cbn [andb negb].
      * destruct (Z.ltb_spec tc (col_count s)); [lia|]. cbn [andb negb].
        intros [= <- <-]. split; [done|by eexists].
      * intros [= <- <-]. split; [done|by eexists].
  - revert Hm.
    unfold merge_area, bind, get, raise_if, ret, raise, lift. cbn zeta.
    destruct (Z.leb_spec row tr); cbn [andb negb].
    + destruct (Z.ltb_spec tr (len (table s))); [lia|]. cbn [andb negb].
      intros [= <- <-]. split; [done|by eexists].
    + intros [= <- <-]. split; [done|by eexists].
Qed.

(** X7. On a table that satisfies the invariant a [merge] that raises
    leaves the whole table object as it was, packages included.  What it
    raises is a ValueError, or the AssertionError of a missing size: the
    latter only when an axis has neither an end nor a size. *)
Theorem merge_raises_atomically value row col width height to_row to_col s e :
  table_inv s →
  (merge value row col width height to_row to_col s).1 = Raise e →
  (merge value row col width height to_row to_col s).2 = s ∧
  ((∃ msg, e = ValueError msg) ∨
   (e = AssertionError "" ∧
    (axis_end row height to_row = None ∨ axis_end col width to_col = None))).
Proof.
  intros Hinv. rewrite merge_eq.
  destruct (Z.leb_spec 0 row); cbn [andb negb];
    [|intros [= <-]; split; [done|left; by eexists]].
  destruct (Z.ltb_spec row (len (table s))); cbn [andb negb];
    [|intros [= <-]; split; [done|left; by eexists]].
  destruct (Z.leb_spec 0 col); cbn [andb negb];
    [|intros [= <-]; split; [done|left; by eexists]].
  destruct (Z.ltb_spec col (col_count s)); cbn [andb negb];
    [|intros [= <-]; split; [done|left; by eexists]].
  destruct (axis_end row height to_row) as [tr|];
    [|intros [= <-]; split; [done|right; auto]].
  destruct (axis_end col width to_col) as [tc|];
    [|intros [= <-]; split; [done|right; auto]].
  destruct (merge_area value row col tr tc s) as [r s'] eqn:Hm. cbn.
  intros ->.
  assert (0 ≤ row < row_count s) as Hrow by (unfold row_count; lia).
  assert (0 ≤ col < col_count s) as Hcol by lia.
  destruct (merge_area_raise_inv _ _ _ _ _ _ _ _ Hrow Hcol Hinv Hm) as [-> ?].
  auto.
Qed.

Lemma merge_raises_atomically_witness :
  (merge "Y" 0 1 (Some 2) (Some 1) None None table_1x3_merged).2
  = table_1x3_merged ∧
  ((∃ msg, ValueError overlap_msg = ValueError msg) ∨
   (ValueError overlap_msg = AssertionError "" ∧
    (axis_end 0 (Some 1) None = None ∨ axis_end 1 (Some 2) None = None))).
Proof.
  apply (merge_raises_atomically "Y" 0 1 (Some 2) (Some 1) None None
           table_1x3_merged (ValueError overlap_msg)).
  - apply run_table_inv, run_table_inv, init_table_inv.
  - reflexivity.
Defined.

(** ** The loops of the slice setters *)

(** One iteration that returns updated the cell of its slot. *)
Lemma for_cells_body_ok f (p : Z * Z) s s' :
  (let* s := get in let* r := lift (slot s p.1 p.2) in update_cell r f) s
  = (Ok (), s') →
  ∃ r c, slot s p.1 p.2 = Ok r ∧ s.(heap) !! r = Some c ∧
         s' = with_heap (<[r := f c]> s.(heap)) s.
Proof.
  unfold bind, get, lift, update_cell. cbn.
  destruct (slot s p.1 p.2) as [r|]; [|done].
  destruct (heap s !! r) as [c|] eqn:Hc; [|done].
  intros [= <-]. by exists r, c.
Qed.

Lemma visits_cons s p l r :
  visits s (p :: l) r
  = ((if decide (slot s p.1 p.2 = Ok r) then 1 else 0) + visits s l r)%nat.
Proof. unfold visits. rewrite filter_cons. by case_decide. Qed.

Lemma visits_same_table s s' l r :
  s'.(table) = s.(table) → visits s' l r = visits s l r.
Proof. intros Ht. unfold visits, slot. by rewrite Ht. Qed.

(** A loop that returns applied [f] to each cell once for every index pair
    whose slot holds it, and changed nothing else. *)
Lemma for_cells_loop f l : ∀ s s',
  forM_ l (λ p : Z * Z, let* s := get in
                        let* r := lift (slot s p.1 p.2) in update_cell r f) s
  = (Ok (), s') →
  (∀ p, p ∈ l → ∃ r, slot s p.1 p.2 = Ok r ∧ is_Some (s.(heap) !! r)) ∧
  s' = with_heap s'.(heap) s ∧
  length s'.(heap) = length s.(heap) ∧
  ∀ r c, s.(heap) !! r = Some c →
         s'.(heap) !! r = Some (Nat.iter (visits s l r) f c).
Proof.
  induction l as [|p l IH]; intros s s'; cbn [forM_].
  - intros [= <-]. split; [by intros p ?%elem_of_nil|].
    split; [by destruct s|]. done.
  - unfold bind at 1.
    destruct ((let* s := get in let* r := lift (slot s p.1 p.2) in
               update_cell r f) s) as [[[]|e] s1] eqn:Hbody; [|done].
    intros Hl.
    apply for_cells_body_ok in Hbody as (r0 & c0 & Hslot & Hc0 & ->).
    destruct (IH _ _ Hl) as (Hall & Hs' & Hlen & Hiter). cbn -[visits] in *.
    split; [|split; [|split]].
    + intros q [->|Hq]%elem_of_cons; [by eauto|].
      destruct (Hall q Hq) as (r & Hr & Hsome). exists r. split; [done|].
      apply lookup_lt_is_Some. apply lookup_lt_is_Some in Hsome.
      by rewrite length_insert in Hsome.
    + rewrite Hs'. by destruct s.
    + by rewrite Hlen, length_insert.
    + intros r c Hc. rewrite visits_cons.
      destruct (decide (r = r0)) as [->|Hne].
      * assert (c = c0) as -> by congruence.
        rewrite decide_True by done.
        rewrite (Hiter r0 (f c0)).
        -- rewrite (visits_same_table s _ l r0) by done.
           by rewrite Nat.iter_succ_r.
        -- apply list_lookup_insert_eq. by eapply lookup_lt_Some.
      * rewrite decide_False by congruence.
        rewrite (Hiter r c) by by rewrite list_lookup_insert_ne.
        by rewrite (visits_same_table s _ l r).
Qed.

(** The loop returns when every slot it visits is there and holds a live
    cell. *)
Lemma for_cells_loop_returns f l : ∀ s,
  (∀ p, p ∈ l → ∃ r, slot s p.1 p.2 = Ok r ∧ is_Some (s.(heap) !! r)) →
  ∃ s', forM_ l (λ p : Z * Z, let* s := get in
                   let* r := lift (slot s p.1 p.2) in update_cell r f) s
        = (Ok (), s').
Proof.
  induction l as [|p l IH]; intros s Hall; cbn [forM_]; [by eexists|].
  destruct (Hall p) as (r0 & Hr0 & [c0 Hc0]); [by left|].
  unfold bind at 1. unfold bind at 1, get at 1. cbn.
  unfold bind at 1, lift at 1. rewrite Hr0. unfold update_cell at 1.
  rewrite Hc0. apply IH. intros q Hq.
  destruct (Hall q) as (r & Hr & Hsome); [by right|].
  exists r. split; [done|]. cbn.
  apply lookup_lt_is_Some. rewrite length_insert. by apply lookup_lt_is_Some.
Qed.

Lemma range_length lo hi : length (range lo hi) = Z.to_nat (hi - lo).
Proof. unfold range. by rewrite length_fmap, length_seq. Qed.

Lemma slice_indices_length slice :
  length (slice_indices slice) = slice_size slice.
Proof.
  unfold slice_indices, slice_size, TexTableSlice.indices.
  rewrite <- !range_length.
  generalize (range (TexTableSlice.col slice) (TexTableSlice.to_col slice + 1)).
  intros js.
  induction (range (TexTableSlice.row slice) (TexTableSlice.to_row slice + 1))
    as [|i rest IH]; [done|].
  cbn. rewrite length_app, IH. f_equal.
  clear. induction js as [|j js IH]; [done|]. cbn. by rewrite IH.
Qed.

Lemma visits_all s l r :
  (∀ p, p ∈ l → slot s p.1 p.2 = Ok r) → visits s l r = length l.
Proof.
  intros Hall. induction l as [|p l IH]; [done|].
  rewrite visits_cons, decide_True by (apply Hall; by left).
  cbn. f_equal. apply IH. intros q ?. apply Hall. by right.
Qed.

Lemma visits_none s l r :
  (∀ p, p ∈ l → slot s p.1 p.2 ≠ Ok r) → visits s l r = 0%nat.
Proof.
  intros Hall. induction l as [|p l IH]; [done|].
  rewrite visits_cons, decide_False by (apply Hall; by left).
  cbn. apply IH. intros q ?. apply Hall. by right.
Qed.

Lemma visits_elem s l r p :
  p ∈ l → slot s p.1 p.2 = Ok r → (0 < visits s l r)%nat.
Proof.
  intros Hp Hr. unfold visits. apply Nat.neq_0_lt_0. intros H0.
  apply length_zero_iff_nil in H0.
  assert (p ∈ filter (λ p : Z * Z, slot s p.1 p.2 = Ok r) l) as Hin
    by by apply list_elem_of_filter.
  rewrite H0 in Hin. by apply elem_of_nil in Hin.
Qed.

Lemma iter_for_each (func : string → string) (n : nat) c :
  Nat.iter n
    (λ c, TexTableCell.with_raw_value (func c.(TexTableCell.raw_value)) c) c
  = TexTableCell.with_raw_value
      (Nat.iter n func c.(TexTableCell.raw_value)) c.
Proof.
  induction n as [|n IH]; [by destruct c|]. by rewrite !Nat.iter_succ, IH.
Qed.

(** X8. [for_each] over a slice every slot of which holds one cell
    object applies the function to the text of that cell once for every
    slot of the slice, each time to the result of the time before; it
    returns, and changes nothing else. *)
Theorem for_each_once_per_slot slice (func : string → string) s r c :
  (∀ i j, in_rect (slice_rect slice) i j → slot s i j = Ok r) →
  s.(heap) !! r = Some c →
  TexTableSlice.for_each slice func s
  = (Ok (),
     with_heap
       (<[r := TexTableCell.with_raw_value
                 (Nat.iter (slice_size slice) func c.(TexTableCell.raw_value)) c]>
          s.(heap)) s).
Proof.
  intros Hall Hc.
  assert (Hall' : ∀ p, p ∈ slice_indices slice → slot s p.1 p.2 = Ok r).
  { intros [i j] Hp%elem_of_indices. by apply Hall. }
  unfold TexTableSlice.for_each, TexTableSlice.for_cells.
  fold (slice_indices slice).
  edestruct (for_cells_loop_returns
    (λ c, TexTableCell.with_raw_value (func c.(TexTableCell.raw_value)) c)
    (slice_indices slice) s) as [s' Hs'].
  { intros p Hp. exists r. split; [by apply Hall'|by eexists]. }
  rewrite Hs'. f_equal.
  destruct (for_cells_loop _ _ _ _ Hs') as (_ & Heq & Hlen & Hiter).
  transitivity (with_heap (heap s') s); [done|].
  f_equal. apply list_eq. intros k.
  destruct (decide (k = r)) as [->|Hne].
  - rewrite (Hiter r c Hc), visits_all, slice_indices_length by done.
    rewrite list_lookup_insert_eq by by eapply lookup_lt_Some.
    by rewrite iter_for_each.
  - rewrite list_lookup_insert_ne by done.
    destruct (heap s !! k) as [c'|] eqn:Hk.
    + rewrite (Hiter k c' Hk), visits_none; [done|].
      intros p Hp. rewrite (Hall' p Hp). congruence.
    + apply lookup_ge_None. rewrite Hlen. by apply lookup_ge_None.
Qed.

Lemma for_each_once_per_slot_witness :
  TexTableSlice.for_each (TexTableSlice.mk 0 0 0 1 None)
    (λ v, v +:+ "!") table_1x3_merged
  = (Ok (),
     with_heap
       (<[3%nat := TexTableCell.with_raw_value
            (Nat.iter (slice_size (TexTableSlice.mk 0 0 0 1 None))
               (λ v, v +:+ "!")
               (TexTableCell.__init__ "X" 0 0 2 1 "" "").(TexTableCell.raw_value))
            (TexTableCell.__init__ "X" 0 0 2 1 "" "")]>
          table_1x3_merged.(heap)) table_1x3_merged).
Proof.
  apply (for_each_once_per_slot (TexTableSlice.mk 0 0 0 1 None)
           (λ v, v +:+ "!") table_1x3_merged 3%nat
           (TexTableCell.__init__ "X" 0 0 2 1 "" "")).
  - intros i j [Hi Hj]. cbn in Hi, Hj.
    assert (i = 0) as -> by lia.
    assert (j = 0 ∨ j = 1) as [-> | ->] by lia; reflexivity.
  - reflexivity.
Defined.

(** ** What the slice setters reach and what they leave *)

Lemma cell_at_Ok s (i j : Z) c :
  cell_at s i j = Ok c ↔ ∃ r, slot s i j = Ok r ∧ s.(heap) !! r = Some c.
Proof.
  unfold cell_at, deref. destruct (slot s i j) as [r|e]; cbn.
  - destruct (heap s !! r) as [c'|] eqn:Hc.
    + split; [intros [= <-]; by exists r|]. intros (? & [= <-] & ?). congruence.
    + split; [done|]. intros (? & [= <-] & ?). congruence.
  - split; [done|]. by intros (? & ? & ?).
Qed.

(** On a rectangle of the grid the loop of a setter returns, and every
    cell of the rectangle was given to [f] last. *)
Lemma for_cells_effect slice f (P : TexTableCell.t → Prop) s :
  table_inv s → rect_in_grid s (slice_rect slice) → (∀ c, P (f c)) →
  returns (TexTableSlice.for_cells slice f) s
    (λ _, every_cell (slice_rect slice) P).
Proof.
  intros Hinv (Hr1 & Hr2 & Hc1 & Hc2) HP.
  assert (Hslots : ∀ i j, in_rect (slice_rect slice) i j →
            ∃ r c, slot s i j = Ok r ∧ s.(heap) !! r = Some c).
  { intros i j [Hi Hj].
    destruct (cell_at_in_grid s i j Hinv) as (c & Hc & _); [lia|lia|].
    apply cell_at_Ok in Hc as (r & ? & ?). by exists r, c. }
  unfold TexTableSlice.for_cells. fold (slice_indices slice).
  destruct (for_cells_loop_returns f (slice_indices slice) s) as [s' Hs'].
  { intros [i j] Hp%elem_of_indices.
    destruct (Hslots i j Hp) as (r & c & ? & ?). exists r. by eauto. }
  exists (), s'. split; [done|].
  destruct (for_cells_loop _ _ _ _ Hs') as (_ & Heq & _ & Hiter).
  intros i j Hin. destruct (Hslots i j Hin) as (r & c & Hr & Hc).
  pose proof (visits_elem s (slice_indices slice) r (i, j)
                ltac:(by apply elem_of_indices) Hr) as Hpos.
  destruct (visits s (slice_indices slice) r) as [|k] eqn:Hk; [lia|].
  exists (f (Nat.iter k f c)). split; [|apply HP].
  apply cell_at_Ok. exists r. split.
  - unfold slot in *. rewrite Heq. done.
  - rewrite (Hiter r c Hc), Hk. done.
Qed.

Lemma depends_on_returns d s (Q : unit → TexTable.t → Prop) :
  (∀ s', same_grid s s' → Q () s') → returns (_depends_on d) s Q.
Proof.
  intros HQ. exists (), (_depends_on d s).2. split; [done|].
  apply HQ, same_grid_depends_on.
Qed.

Lemma same_grid_rect_in_grid s s' R :
  same_grid s s' → rect_in_grid s R → rect_in_grid s' R.
Proof.
  intros (Hc & _ & Ht & _). destruct R as [[[??]?]?].
  unfold rect_in_grid, row_count, col_count. by rewrite Hc, Ht.
Qed.

(** X9. On a table that satisfies the invariant, a setter of a slice
    whose rectangle lies in the grid returns, and afterwards every slot
    of the rectangle denotes a cell that carries the attribute: the text
    for [set_value], the flag for [set_bold] and [set_italic], the colour
    for [set_background_color], the angle and the options for
    [set_rotation]. *)
Theorem setters_reach_every_cell slice s :
  table_inv s → rect_in_grid s (slice_rect slice) →
  (∀ value,
     returns (TexTableSlice.set_value slice value) s
       (λ _, every_cell (slice_rect slice)
               (λ c, c.(TexTableCell.raw_value) = value))) ∧
  (∀ val,
     returns (TexTableSlice.set_bold slice val) s
       (λ _, every_cell (slice_rect slice) (λ c, c.(TexTableCell.bold) = val))) ∧
  (∀ val,
     returns (TexTableSlice.set_italic slice val) s
       (λ _, every_cell (slice_rect slice)
               (λ c, c.(TexTableCell.italic) = val))) ∧
  (∀ val,
     returns (TexTableSlice.set_background_color slice val) s
       (λ _, every_cell (slice_rect slice)
               (λ c, c.(TexTableCell.background_color) = Some val))) ∧
  (∀ degree options,
     returns (TexTableSlice.set_rotation slice degree options) s
       (λ _, every_cell (slice_rect slice)
               (λ c, c.(TexTableCell.rotate_degree) = Some degree ∧
                     c.(TexTableCell.rotate_options) = Some options))).
Proof.
  intros Hinv Hgrid.
  assert (Hsame : ∀ s', same_grid s s' →
            table_inv s' ∧ rect_in_grid s' (slice_rect slice)).
  { intros s' Hs'. split.
    - eapply table_inv_extends; [by apply same_grid_extends|done].
    - by eapply same_grid_rect_in_grid. }
  repeat split.
  - intros value. by apply for_cells_effect.
  - intros val. by apply for_cells_effect.
  - intros val. by apply for_cells_effect.
  - intros val. unfold TexTableSlice.set_background_color.
    apply returns_bind. apply depends_on_returns. intros s1 Hs1.
    apply returns_bind. apply depends_on_returns. intros s2 Hs2.
    assert (same_grid s s2) as Hs by by etrans.
    destruct (Hsame s2 Hs). by apply for_cells_effect.
  - intros degree options. unfold TexTableSlice.set_rotation.
    apply returns_bind. apply depends_on_returns. intros s1 Hs1.
    destruct (Hsame s1 Hs1). by apply for_cells_effect.
Qed.

Lemma setters_reach_every_cell_witness :
  returns (TexTableSlice.set_bold (TexTableSlice.mk 0 0 1 1 None) true)
    table_2x2
    (λ _, every_cell (0, 0, 1, 1) (λ c, c.(TexTableCell.bold) = true)).
Proof.
  pose proof (setters_reach_every_cell (TexTableSlice.mk 0 0 1 1 None)
                table_2x2) as (_ & H & _).
  - apply run_table_inv, init_table_inv.
  - vm_compute. repeat split; discriminate.
  - apply H.
Defined.

(** *** The cells outside the slice *)

#[global] Instance frame_preorder l : PreOrder (frame l).
Proof.
  split.
  - by intros s.
  - intros s1 s2 s3 [Ht12 H12] [Ht23 H23]. split; [congruence|].
    intros r c Hc Hno. apply H23; [by apply H12|].
    intros p Hp. unfold slot. rewrite Ht12. by apply Hno.
Qed.

Lemma frame_depends_on l d : keeps (frame l) (_depends_on d).
Proof.
  by intros s.
Qed.

Lemma frame_for_cells slice f :
  keeps (frame (slice_indices slice)) (TexTableSlice.for_cells slice f).
Proof.
  unfold TexTableSlice.for_cells. fold (slice_indices slice).
  apply keeps_forM__elem; [apply _|]. intros p Hp s.
  unfold bind, get, lift, update_cell. cbn.
  destruct (slot s p.1 p.2) as [r0|] eqn:Hr0; [|reflexivity]. cbn.
  destruct (heap s !! r0) as [c0|] eqn:Hc0; [|reflexivity]. cbn.
  split; [done|]. intros r c Hc Hno. cbn.
  rewrite list_lookup_insert_ne; [done|].
  intros ->. by apply (Hno p Hp).
Qed.

Lemma frame_setter o slice s :
  setter_of o = Some slice → frame (slice_indices slice) s (step o s).
Proof.
  destruct o; intros [= <-]; unfold step, perform.
  - apply frame_for_cells.
  - apply frame_for_cells.
  - apply frame_for_cells.
  - apply frame_for_cells.
  - unfold TexTableSlice.set_background_color.
    apply keeps_bind; [apply _|apply frame_depends_on|]. intros _.
    apply keeps_bind; [apply _|apply frame_depends_on|]. intros _.
    apply frame_for_cells.
  - unfold TexTableSlice.set_rotation.
    apply keeps_bind; [apply _|apply frame_depends_on|]. intros _.
    apply frame_for_cells.
Qed.

(** X10. On a table that satisfies the invariant, a setter of a slice
    that starts at a row and a column that are not negative leaves every
    cell whose rectangle has no slot in common with the rectangle of the
    slice as it is, whether the setter returns or raises. *)
Theorem setters_leave_the_rest o slice s (a b : Z) c :
  table_inv s → setter_of o = Some slice →
  0 ≤ slice.(TexTableSlice.row) → 0 ≤ slice.(TexTableSlice.col) →
  cell_at s a b = Ok c →
  (∀ i j, in_rect (slice_rect slice) i j → ¬ TexTableCell.covers c i j) →
  cell_at (step o s) a b = Ok c.
Proof.
  intros (_ & Hslots & _) Ho Hrow Hcol (r & Hr & Hc)%cell_at_Ok Hout.
  destruct (frame_setter o slice s Ho) as [Ht Hkeep].
  apply cell_at_Ok. exists r. split; [unfold slot in *; by rewrite Ht|].
  apply Hkeep; [done|].
  intros [i j] Hp%elem_of_indices Hslot. cbn in Hslot.
  apply (Hout i j Hp).
  unfold slot in Hslot.
  destruct (py_index (table s) i) as [cells|] eqn:Hi; [|done]. cbn in Hslot.
  apply py_index_nonneg in Hi; [|lia].
  apply py_index_nonneg in Hslot; [|lia].
  destruct (Hslots _ _ _ _ Hi Hslot) as (c' & Hc' & Hcov).
  rewrite !Z2Nat.id in Hcov by lia. congruence.
Qed.

Lemma setters_leave_the_rest_witness :
  cell_at (step (SetBold (TexTableSlice.mk 0 2 0 2 None) true)
             table_1x3_merged) 0 0
  = Ok (TexTableCell.__init__ "X" 0 0 2 1 "" "").
Proof.
  apply (setters_leave_the_rest (SetBold (TexTableSlice.mk 0 2 0 2 None) true)
           (TexTableSlice.mk 0 2 0 2 None) table_1x3_merged 0 0).
  - apply run_table_inv, run_table_inv, init_table_inv.
  - reflexivity.
  - cbn. lia.
  - cbn. lia.
  - reflexivity.
  - intros i j [Hi Hj] [Hi' Hj']. cbn in *. lia.
Defined.

(** ** render a second time *)

Lemma insert_rule_sorted x l : rules_sorted l → rules_sorted (insert_rule x l).
Proof.
  induction l as [|y l IH]; cbn; [done|]. intros [Hy Hl].
  destruct (Z.leb_spec x.1 y.1) as [Hle|Hgt]; cbn.
  - split; [|done]. constructor; [done|].
    eapply Forall_impl; [done|]. cbn. intros z ?. lia.
  - split; [|by apply IH]. rewrite insert_rule_perm.
    constructor; [lia|done].
Qed.

Lemma sort_rules_sorted l : rules_sorted (sort_rules l).
Proof.
  induction l as [|x l IH]; cbn; [done|]. by apply insert_rule_sorted.
Qed.

Lemma sort_rules_of_sorted l : rules_sorted l → sort_rules l = l.
Proof.
  induction l as [|x l IH]; [done|]. intros [Hx Hl].
  cbn. fold (sort_rules l). rewrite IH by done.
  destruct l as [|y l]; [done|]. cbn.
  apply Forall_cons in Hx as [Hxy _].
  by destruct (Z.leb_spec x.1 y.1); [|lia].
Qed.

(** X11. A second [render] does what the first did: it returns the same
    text, or raises the same exception, and leaves the table as the first
    call left it.  The first call changes nothing in the table but the
    order of the rules, which stay a rearrangement of the rules before.
    Whenever it returns it leaves them sorted by row.  On a table that
    satisfies the invariant it leaves them sorted by row when every
    partial line is in range, also when it raises afterwards; when a
    partial line is out of range it raises before it sorts, and leaves the
    table as it was. *)
Theorem render_twice s :
  render (render s).2 = render s ∧
  (render s).2.(_rules) ≡ₚ s.(_rules) ∧
  ((render s).2 = s ∨
   (render s).2 = with_rules (sort_rules s.(_rules)) s) ∧
  (is_ok (render s).1 →
   (render s).2 = with_rules (sort_rules s.(_rules)) s ∧
   rules_sorted (render s).2.(_rules)) ∧
  (table_inv s →
   (Forall (λ p : Z * string, 0 ≤ p.1 < row_count s) s.(_lines) →
    (render s).2 = with_rules (sort_rules s.(_rules)) s ∧
    rules_sorted (render s).2.(_rules)) ∧
   (¬ Forall (λ p : Z * string, 0 ≤ p.1 < row_count s) s.(_lines) →
    (render s).2 = s)).
Proof.
  assert (Hs1 : render (with_rules (sort_rules (_rules s)) s)
                = ((render (with_rules (sort_rules (_rules s)) s)).1,
                   with_rules (sort_rules (_rules s)) s)).
  { rewrite render_eq. cbn [_rules with_rules].
    rewrite (sort_rules_of_sorted (sort_rules _)) by apply sort_rules_sorted.
    set (s1 := with_rules (sort_rules (_rules s)) s).
    change (with_rules (sort_rules (_rules s)) s1) with s1.
    change (_lines s1) with (_lines s).
    destruct (base_rows s1) as [rows|]; [|done].
    destruct (add_top_lines _ rows) as [rows1|]; [|done]. cbn zeta.
    destruct (add_rules 0 _ rows1) as [rows2|]; [|done].
    destruct (caption_line s1); [|done].
    by destruct (_str_col_sty s1). }
  assert (Hres : (render (with_rules (sort_rules (_rules s)) s)).1 = (render s).1
                 ∨ (render s).2 = s).
  { rewrite (render_eq s). rewrite render_eq. cbn [_rules with_rules].
    rewrite (sort_rules_of_sorted (sort_rules _)) by apply sort_rules_sorted.
    set (s1 := with_rules (sort_rules (_rules s)) s).
    change (base_rows s1) with (base_rows s).
    change (_lines s1) with (_lines s).
    change (caption_line s1) with (caption_line s).
    change (_str_col_sty s1) with (_str_col_sty s).
    destruct (base_rows s) as [rows|]; [|by right].
    destruct (add_top_lines _ rows) as [rows1|]; [|by right]. cbn zeta.
    left.
    destruct (add_rules 0 _ rows1) as [rows2|]; [|done].
    destruct (caption_line s); [|done].
    by destruct (_str_col_sty s). }
  assert (Hst : (render s).2 = s ∨
                (render s).2 = with_rules (sort_rules s.(_rules)) s).
  { rewrite render_eq.
    destruct (base_rows s) as [rows|]; [|by left].
    destruct (add_top_lines _ rows) as [rows1|]; [|by left]. cbn zeta.
    right.
    destruct (add_rules 0 _ rows1) as [rows2|]; [|done].
    destruct (caption_line s); [|done].
    by destruct (_str_col_sty s). }
  assert (Hsorted : ∀ rows rows1,
    base_rows s = Ok rows → add_top_lines s.(_lines) rows = Ok rows1 →
    (render s).2 = with_rules (sort_rules s.(_rules)) s ∧
    rules_sorted (render s).2.(_rules)).
  { intros rows rows1 Hrows Hrows1. rewrite render_eq, Hrows, Hrows1. cbn zeta.
    assert (∀ r : result string,
      (let '(_, s') := (r, with_rules (sort_rules (_rules s)) s) in s')
      = with_rules (sort_rules (_rules s)) s) as _ by done.
    destruct (add_rules 0 _ rows1) as [rows2|];
      [|split; [done|apply sort_rules_sorted]].
    destruct (caption_line s); [|split; [done|apply sort_rules_sorted]].
    destruct (_str_col_sty s); split; try done; apply sort_rules_sorted. }
  split; [|split; [|split; [done|split]]].
  - destruct Hres as [Hres|Hsame].
    + destruct Hst as [->| Hst].
      * by destruct (render s).
      * rewrite Hst, Hs1, Hres, <- Hst. by destruct (render s).
    + rewrite Hsame. by destruct (render s).
  - destruct Hst as [->| ->]; [done|]. cbn. apply sort_rules_perm.
  - intros [text Htext]. rewrite render_eq in Htext.
    destruct (base_rows s) as [rows|] eqn:Hrows; [|done].
    destruct (add_top_lines _ rows) as [rows1|] eqn:Hrows1; [|done].
    by eapply Hsorted.
  - intros (_ & Hslots & _).
    destruct (base_rows_is_ok s Hslots) as (rows & Hrows & Hlen).
    rewrite <- Hlen. split.
    + intros [rows1 Hrows1]%add_top_lines_ok_iff. by eapply Hsorted.
    + intros Hbad. rewrite render_eq, Hrows.
      destruct (add_top_lines _ rows) as [rows1|] eqn:Hrows1; [|done].
      exfalso. apply Hbad, add_top_lines_ok_iff. by eexists.
Qed.

Lemma render_twice_witness :
  (render table_unsorted_rules).2 = table_unsorted_rules ∧
  table_unsorted_rules.(_rules) = [(5, "\midrule"); (0, "\midrule")].
Proof.
  split; [|reflexivity].
  destruct (render_twice table_unsorted_rules) as (_ & _ & _ & _ & H).
  destruct H as [_ H]; [apply run_table_inv, init_table_inv|].
  apply H. intros Hlines%first_bad_line_None.
  assert (first_bad_line (row_count table_unsorted_rules)
            table_unsorted_rules.(_lines) = Some 3) as Hbad
    by (vm_compute; reflexivity).
  congruence.
Defined.

(** ** The colour and the rotation are not rendered *)

#[global] Instance same_text_preorder : PreOrder same_text.
Proof.
  split.
  - intros c. by repeat split.
  - intros c1 c2 c3 (? & (? & ? & ? & ?) & ? & ? & ? & ?)
                    (? & (? & ? & ? & ?) & ? & ? & ? & ?).
    repeat split; congruence.
Qed.

Lemma same_text_table_value c c' (r k : Z) :
  same_text c c' →
  TexTableCell.table_value c' r k = TexTableCell.table_value c r k.
Proof.
  intros (Hv & (Hr & Hc & Hw & Hh) & Hb & Hi & Hl & Hrs).
  unfold TexTableCell.table_value, TexTableCell.__getitem__,
    TexTableCell.assert_in_bounds, TexTableCell.styled_value.
  by rewrite Hv, Hr, Hc, Hw, Hh, Hb, Hi, Hl, Hrs.
Qed.

#[global] Instance same_texts_preorder : PreOrder same_texts.
Proof.
  split.
  - intros s. exists s.(heap), s.(_dependencies). split; [by destruct s|].
    reflexivity.
  - intros s1 s2 s3 (h & d & -> & Hh) (h' & d' & -> & Hh').
    exists h', d'. split; [done|]. cbn in Hh'. by etrans.
Qed.

Lemma mapR_ext {A B} (f g : A → result B) (l : list A) :
  (∀ x, x ∈ l → f x = g x) → mapR f l = mapR g l.
Proof.
  induction l as [|x l IH]; intros Hfg; [done|]. cbn.
  rewrite (Hfg x) by by left. rewrite IH; [done|].
  intros y ?. apply Hfg. by right.
Qed.

Lemma same_texts_base_rows s s' : same_texts s s' → base_rows s' = base_rows s.
Proof.
  intros (h & d & -> & Hh). unfold base_rows. cbn [table with_heap with_dependencies].
  apply mapR_ext. intros [i cells] _. cbn. unfold render_row.
  f_equal. apply mapR_ext. intros [j r] _. cbn. unfold deref. cbn.
  destruct (heap s !! r) as [c|] eqn:Hc.
  - destruct (Forall2_lookup_l _ _ _ _ _ Hh Hc) as (c' & -> & Hcc'). cbn.
    by apply same_text_table_value.
  - apply Forall2_length in Hh.
    rewrite (lookup_ge_None_2 h r); [done|].
    rewrite <- Hh. by apply lookup_ge_None.
Qed.

Lemma same_texts_render s s' :
  same_texts s s' → (render s').1 = (render s).1.
Proof.
  intros Hs. rewrite !render_eq, (same_texts_base_rows s s' Hs).
  destruct Hs as (h & d & -> & Hh).
  set (s' := with_heap h (with_dependencies d s)).
  change (_lines s') with (_lines s). change (_rules s') with (_rules s).
  change (caption_line s') with (caption_line s).
  change (_str_col_sty s') with (_str_col_sty s).
  destruct (base_rows s) as [rows|]; [|done].
  destruct (add_top_lines _ rows) as [rows1|]; [|done]. cbn zeta.
  destruct (add_rules 0 _ rows1) as [rows2|]; [|done].
  destruct (caption_line s); [|done].
  by destruct (_str_col_sty s).
Qed.

Lemma same_texts_depends_on d : keeps same_texts (_depends_on d).
Proof.
  intros s. unfold _depends_on, modify. cbn.
  exists s.(heap), ({[d]} ∪ s.(_dependencies)). split; [done|]. reflexivity.
Qed.

Lemma same_texts_for_cells slice f :
  (∀ c, same_text c (f c)) → keeps same_texts (TexTableSlice.for_cells slice f).
Proof.
  intros Hf. unfold TexTableSlice.for_cells.
  apply keeps_forM_; [apply _|]. intros p s.
  unfold bind, get, lift, update_cell. cbn.
  destruct (slot s p.1 p.2) as [r|]; [|reflexivity]. cbn.
  destruct (heap s !! r) as [c|] eqn:Hc; [|reflexivity]. cbn.
  exists (<[r := f c]> s.(heap)), s.(_dependencies). split; [by destruct s|].
  rewrite <- (list_insert_id s.(heap) r c) at 1 by done.
  apply Forall2_insert; [reflexivity|apply Hf].
Qed.

(** X12. [set_background_color] and [set_rotation] never change what
    [render] returns or raises: whatever the slice and whether the setter
    returns or raises, the table renders afterwards as it did before. *)
Theorem colour_and_rotation_not_rendered slice val degree options s :
  (render (step (SetBackgroundColor slice val) s)).1 = (render s).1 ∧
  (render (step (SetRotation slice degree options) s)).1 = (render s).1.
Proof.
  split; apply same_texts_render; unfold step, perform.
  - unfold TexTableSlice.set_background_color.
    apply keeps_bind; [apply _|apply same_texts_depends_on|]. intros _.
    apply keeps_bind; [apply _|apply same_texts_depends_on|]. intros _.
    apply same_texts_for_cells. intros c. by repeat split.
  - unfold TexTableSlice.set_rotation.
    apply keeps_bind; [apply _|apply same_texts_depends_on|]. intros _.
    apply same_texts_for_cells. intros c. by repeat split.
Qed.

(** ** Assigning through an index and reading it back *)

(** A slice over slots that all hold the cell object of its first slot
    has the text of that cell as its value. *)
Lemma slice_init_one_cell s row col to_row to_col r0 c0 :
  slot s row col = Ok r0 → s.(heap) !! r0 = Some c0 →
  (∀ i j, in_rect (row, col, to_row, to_col) i j → slot s i j = Ok r0) →
  TexTableSlice.__init__ s row col to_row to_col
  = Ok (TexTableSlice.mk row col to_row to_col
          (Some c0.(TexTableCell.raw_value))).
Proof.
  intros Hr0 Hc0 Hall. unfold TexTableSlice.__init__.
  assert (cell_at s row col = Ok c0) as Hcell.
  { apply cell_at_Ok. by exists r0. }
  rewrite Hcell, Hr0. cbn.
  assert (TexTableSlice.all_is s r0
            (TexTableSlice.indices row col to_row to_col) = Ok true) as ->.
  { apply all_is_true. intros [i j] Hp%elem_of_indices. by apply Hall. }
  destruct ((row =? to_row) && (col =? to_col)); cbn;
    unfold deref; by rewrite Hc0.
Qed.

(** After a merge that returned every slot of the rectangle holds the
    cell object it made. *)
Lemma merge_ok_slot value row col width height to_row to_col s s' :
  merge value row col width height to_row to_col s = (Ok (), s') →
  ∃ tr tc c,
    axis_end row height to_row = Some tr ∧
    axis_end col width to_col = Some tc ∧
    rect_in_grid s (row, col, tr, tc) ∧
    row_count s' = row_count s ∧ col_count s' = col_count s ∧
    s'.(heap) !! length s.(heap) = Some c ∧
    c.(TexTableCell.raw_value) = value ∧
    ∀ i j, in_rect (row, col, tr, tc) i j → slot s' i j = Ok (length s.(heap)).
Proof.
  intros Hm.
  pose proof (merge_spec value row col width height to_row to_col s) as Hspec.
  rewrite Hm in Hspec.
  destruct Hspec as (tr & tc & Htr & Htc & Hgrid & Hv & Hcs & _
                     & (ls & rs & Hheap) & Hfill).
  exists tr, tc. eexists. do 3 (split; [done|]).
  split; [unfold row_count, len; by rewrite (proj1 Hfill)|].
  split; [unfold col_count; by rewrite Hcs|].
  split; [rewrite Hheap; by apply list_lookup_middle|]. split; [done|].
  intros i j [Hi Hj]. destruct Hgrid as (? & ? & ? & ?).
  destruct (merge_validate_rows s row col tr tc ltac:(lia) ltac:(lia) ltac:(lia)
              Hv (Z.to_nat i) ltac:(lia)) as (cells & Hcells & Hlen).
  destruct Hfill as [_ Hfill].
  destruct (Hfill _ _ Hcells) as (cells' & Hcells' & Hlen' & Hlook).
  specialize (Hlook (Z.to_nat j) ltac:(unfold len in *; lia)).
  rewrite !Z2Nat.id in Hlook by lia.
  rewrite decide_True in Hlook by done.
  unfold slot.
  rewrite (proj2 (py_index_nonneg _ i _ ltac:(lia)) Hcells'). cbn.
  by apply py_index_nonneg; [lia|].
Qed.

(** X13. After [table[i, j] = value] returned, [table[i, j].value]
    returns [value]: for two integers, negative ones included, because the
    cell of the slot has that text, and for slices because the rectangle
    was merged into one cell with that text. *)
Theorem setitem_then_value i j value s :
  (__setitem__ i j value s).1 = Ok () →
  (let? slice := TexTableSlice.of_index (__setitem__ i j value s).2 i j in
   TexTableSlice.value slice) = Ok value.
Proof.
  assert (Hmerge : ∀ row col tr tc,
    _get_indexing_bounds s i j = Ok (row, col, tr, tc) →
    (∀ s', row_count s' = row_count s → col_count s' = col_count s →
           _get_indexing_bounds s' i j = _get_indexing_bounds s i j) →
    (merge value row col None None (Some tr) (Some tc) s).1 = Ok () →
    (let? slice :=
       TexTableSlice.of_index
         (merge value row col None None (Some tr) (Some tc) s).2 i j in
     TexTableSlice.value slice) = Ok value).
  { intros row col tr tc Hb Hsame Hm.
    destruct (merge value row col None None (Some tr) (Some tc) s)
      as [[[]|] s'] eqn:Hmerge; [|done]. cbn.
    destruct (merge_ok_slot _ _ _ _ _ _ _ _ _ Hmerge)
      as (tr' & tc' & c & [= <-] & [= <-] & Hgrid & Hrc & Hcc & Hc & Hval & Hslots).
    unfold TexTableSlice.of_index. rewrite Hsame, Hb by done. cbn.
    destruct Hgrid as (? & ? & ? & ?).
    rewrite (slice_init_one_cell s' row col tr tc (length (heap s)) c);
      [by rewrite <- Hval|..].
    - apply Hslots. cbn. lia.
    - done.
    - done. }
  destruct i as [i|a b|], j as [j|a' b'|]; try done.
  - (* two integers *)
    clear Hmerge. unfold __setitem__, bind, get, lift, update_cell. cbn.
    destruct (slot s i j) as [r|] eqn:Hr; [|done]. cbn.
    destruct (heap s !! r) as [c|] eqn:Hc; [|done]. cbn. intros _.
    unfold TexTableSlice.of_index. cbn.
    rewrite (slice_init_one_cell _ i j i j r
               (TexTableCell.with_raw_value value c)); [done|done|..].
    + cbn. apply list_lookup_insert_eq. by eapply lookup_lt_Some.
    + intros a b [??]. cbn. by replace a with i by lia; replace b with j by lia.
  - intros H. unfold __setitem__, bind, get, lift in *.
    destruct (_get_indexing_bounds s (Int i) (Slice a' b'))
      as [[[[row col] tr] tc]|] eqn:Hb; [|done].
    apply (Hmerge row col tr tc); [done| |done].
    intros s' Hr Hc. unfold _get_indexing_bounds. cbn. by rewrite Hc.
  - intros H. unfold __setitem__, bind, get, lift in *.
    destruct (_get_indexing_bounds s (Slice a b) (Int j))
      as [[[[row col] tr] tc]|] eqn:Hb; [|done].
    apply (Hmerge row col tr tc); [done| |done].
    intros s' Hr Hc. unfold _get_indexing_bounds. cbn.
    unfold row_count in Hr. by rewrite Hr.
  - intros H. unfold __setitem__, bind, get, lift in *.
    destruct (_get_indexing_bounds s (Slice a b) (Slice a' b'))
      as [[[[row col] tr] tc]|] eqn:Hb; [|done].
    apply (Hmerge row col tr tc); [done| |done].
    intros s' Hr Hc. unfold _get_indexing_bounds. cbn.
    unfold row_count in Hr. by rewrite Hr, Hc.
Qed.

Lemma setitem_then_value_witness :
  (let? slice :=
     TexTableSlice.of_index
       (__setitem__ (Slice None None) (Int 0) "M" table_2x2).2
       (Slice None None) (Int 0) in
   TexTableSlice.value slice) = Ok "M" ∧
  (let? slice :=
     TexTableSlice.of_index
       (__setitem__ (Int (-1)) (Int (-1)) "Z" table_2x2).2
       (Int (-1)) (Int (-1)) in
   TexTableSlice.value slice) = Ok "Z".
Proof.
  split.
  - apply (setitem_then_value (Slice None None) (Int 0) "M" table_2x2).
    reflexivity.
  - apply (setitem_then_value (Int (-1)) (Int (-1)) "Z" table_2x2).
    reflexivity.
Defined.

(** ** The values add_row stores *)

#[global] Instance same_rows_preorder : PreOrder same_rows.
Proof.
  split; [by intros s|].
  intros s1 s2 s3 [??] [??]. split; congruence.
Qed.

Lemma same_rows_append_col_cell p : keeps same_rows (append_col_cell p).
Proof.
  intros s. unfold append_col_cell, bind, get, lift, new_cell, modify. cbn.
  destruct (py_index (table s) p.1); [|reflexivity]. cbn.
  destruct (py_index (seps s) (-2)); [|reflexivity]. cbn.
  destruct (py_index (seps s) (-1)); [|reflexivity]. cbn.
  split; [|done]. cbn. by rewrite length_insert.
Qed.

Lemma same_rows_add_col0 : keeps same_rows add_col0.
Proof.
  unfold add_col0, add_col_with.
  apply keeps_bind; [apply _|by apply keeps_modify|]. intros _.
  apply keeps_bind; [apply _|by apply keeps_modify|]. intros _.
  apply keeps_bind; [apply _|apply keeps_get; apply _|]. intros s1.
  apply keeps_bind; [apply _| |].
  { destruct (_ =? 1); [by apply keeps_modify|apply keeps_ret; apply _]. }
  intros _.
  apply keeps_bind; [apply _|apply keeps_get; apply _|]. intros s2.
  cbn zeta.
  apply keeps_bind; [apply _| |].
  { repeat case_match; try (apply keeps_ret; apply _).
    all: apply keeps_bind; [apply _| |intros; apply keeps_ret; apply _].
    all: apply keeps_times; [apply _|]; apply keeps_ret; apply _. }
  intros vals. unfold append_col.
  apply keeps_forM_; [apply _|]. apply same_rows_append_col_cell.
Qed.

(** The cells of the row [append_row] appends. *)
Lemma append_row_values vals s s' :
  append_row vals s = (Ok (), s') →
  ∀ (j : nat) v, vals !! j = Some v →
    ∃ ls rs,
      cell_at s' (row_count s) (Z.of_nat j)
      = Ok (TexTableCell.__init__ v (row_count s) (Z.of_nat j) 1 1 ls rs).
Proof.
  unfold append_row, bind, get, lift, new_cells, modify. cbn.
  destruct (mapR _ (enumerate vals)) as [cells|] eqn:Hcells; [|done]. cbn.
  intros [= <-] j v Hv.
  pose proof (mapR_length _ _ _ Hcells) as Hlen.
  unfold enumerate in Hlen. rewrite enumerate_from_length in Hlen.
  destruct (lookup_lt_is_Some_2 cells j) as [c Hc].
  { rewrite Hlen. by eapply lookup_lt_Some. }
  destruct (append_row_cells_lookup _ _ _ _ _ _ Hcells Hc)
    as (v' & ls & rs & Hv' & ->).
  assert (v' = v) as -> by congruence.
  exists ls, rs. unfold row_count, len.
  apply (cell_at_nat _ (length (table s)) j
           (seq (length (heap s)) (length cells)) (length (heap s) + j)).
  - cbn. by rewrite lookup_app_r, Nat.sub_diag.
  - apply lookup_seq. split; [done|]. by eapply lookup_lt_Some.
  - cbn. rewrite lookup_app_r by lia.
    by replace (length (heap s) + j - length (heap s))%nat with j by lia.
Qed.

(** X14. On a table that satisfies the invariant [add_row] returns, and
    the new row holds, slot by slot, fresh 1x1 cells with the texts of
    [row_values]: [start] placeholders, then the values given, with
    [empty_value] in place of [None], then placeholders up to the number
    of columns. *)
Theorem add_row_stores_values values start s :
  table_inv s →
  ∃ s', add_row values start s = (Ok (), s') ∧
    ∀ (j : nat) v, row_values s values start !! j = Some v →
      ∃ ls rs,
        cell_at s' (row_count s) (Z.of_nat j)
        = Ok (TexTableCell.__init__ v (row_count s) (Z.of_nat j) 1 1 ls rs).
Proof.
  intros (Hseps & Hslots & _).
  destruct (add_row_returns values start s Hseps Hslots)
    as ([] & s' & Hrun & _).
  exists s'. split; [done|].
  revert Hrun. unfold add_row, add_row_with, row_values.
  unfold bind at 1, get at 1. cbn zeta beta iota.
  set (vals := if 0 <? start then _ else _).
  unfold bind at 1.
  destruct (Z.ltb_spec (len vals) (col_count s)) as [Hlt|Hge].
  - unfold ret at 1. intros Hrun. by eapply append_row_values.
  - destruct (Z.ltb_spec (col_count s) (len vals)) as [Hgt|Hle].
    + unfold bind at 1.
      pose proof (keeps_times same_rows (len vals - col_count s) add_col0
                    same_rows_add_col0 s) as [Hrows _].
      destruct (times (len vals - col_count s) add_col0 s)
        as [[[]|] s1]; [|done].
      unfold ret at 1. cbn in Hrows |- *. intros Hrun.
      unfold py_repeat.
      replace (Z.to_nat (col_count s - len vals)) with 0%nat by lia.
      cbn [replicate]. rewrite app_nil_r.
      replace (row_count s) with (row_count s1)
        by (unfold row_count, len; by rewrite Hrows).
      by eapply append_row_values.
    + unfold ret at 1. intros Hrun. unfold py_repeat.
      replace (Z.to_nat (col_count s - len vals)) with 0%nat by lia.
      cbn [replicate]. rewrite app_nil_r.
      by eapply append_row_values.
Qed.

Lemma add_row_stores_values_witness :
  ∃ s', add_row [Some "x"; None] 1 table_2x2 = (Ok (), s') ∧
    ∀ (j : nat) v, row_values table_2x2 [Some "x"; None] 1 !! j = Some v →
      ∃ ls rs,
        cell_at s' (row_count table_2x2) (Z.of_nat j)
        = Ok (TexTableCell.__init__ v (row_count table_2x2) (Z.of_nat j)
                1 1 ls rs).
Proof.
  apply (add_row_stores_values [Some "x"; None] 1 table_2x2).
  apply run_table_inv, init_table_inv.
Defined.

(** ** The values add_col stores *)

(** One iteration of "Add the column" that returned. *)
Lemma append_col_cell_ok (k : nat) v s s' :
  append_col_cell (Z.of_nat k, v) s = (Ok (), s') →
  ∃ cells ls rs,
    s.(table) !! k = Some cells ∧
    s'.(table) = <[k := cells ++ [length s.(heap)]]> s.(table) ∧
    s'.(heap) = s.(heap)
                ++ [TexTableCell.__init__ v (Z.of_nat k) (len cells) 1 1 ls rs].
Proof.
  unfold append_col_cell, bind, get, lift, new_cell, modify. cbn.
  destruct (py_index (table s) (Z.of_nat k)) as [cells|] eqn:Hk; [|done]. cbn.
  destruct (py_index (seps s) (-2)) as [ls|]; [|done]. cbn.
  destruct (py_index (seps s) (-1)) as [rs|]; [|done]. cbn.
  intros [= <-]. exists cells, ls, rs. cbn. rewrite Nat2Z.id.
  split; [by apply py_index_nat|done].
Qed.

(** The loop of "Add the column": row [k + i] gets one more slot, with a
    fresh 1x1 cell for the [i]-th value. *)
Lemma append_col_values vals : ∀ (k : nat) s s',
  forM_ (enumerate_from (Z.of_nat k) vals) append_col_cell s = (Ok (), s') →
  s.(heap) `prefix_of` s'.(heap) ∧
  (∀ i, (i < k)%nat → s'.(table) !! i = s.(table) !! i) ∧
  ∀ (i : nat) v, vals !! i = Some v →
    ∃ cells r ls rs,
      s.(table) !! (k + i)%nat = Some cells ∧
      s'.(table) !! (k + i)%nat = Some (cells ++ [r]) ∧
      s'.(heap) !! r
      = Some (TexTableCell.__init__ v (Z.of_nat (k + i)) (len cells) 1 1 ls rs).
Proof.
  induction vals as [|v0 vals IH]; intros k s s'; cbn [enumerate_from forM_].
  - intros [= <-]. split; [done|]. split; [done|]. intros i v Hv. by rewrite lookup_nil in Hv.
  - unfold bind at 1.
    destruct (append_col_cell (Z.of_nat k, v0) s) as [[[]|] s1] eqn:Hstep;
      [|done].
    replace (Z.of_nat k + 1) with (Z.of_nat (S k)) by lia. intros Hloop.
    apply append_col_cell_ok in Hstep as (cells0 & ls0 & rs0 & Hk & Ht1 & Hh1).
    destruct (IH _ _ _ Hloop) as (Hpre & Hframe & Hvals).
    split; [|split].
    + etrans; [|done]. rewrite Hh1. by apply prefix_app_r.
    + intros i Hi. rewrite Hframe by lia. rewrite Ht1.
      apply list_lookup_insert_ne. lia.
    + intros [|i] v Hv.
      * cbn in Hv. injection Hv as <-. rewrite Nat.add_0_r.
        exists cells0, (length (heap s)), ls0, rs0. split; [done|]. split.
        -- rewrite Hframe by lia. rewrite Ht1.
           apply list_lookup_insert_eq. by eapply lookup_lt_Some.
        -- eapply prefix_lookup_Some; [|done]. rewrite Hh1.
           by apply list_lookup_middle.
      * cbn in Hv. destruct (Hvals i v Hv) as (cells & r & ls & rs & H1 & H2 & H3).
        replace (k + S i)%nat with (S k + i)%nat by lia.
        exists cells, r, ls, rs. split; [|done].
        rewrite Ht1 in H1. by rewrite list_lookup_insert_ne in H1 by lia.
Qed.

Lemma add_col_with_eq (add_row0 : M unit) values start s :
  add_col_with add_row0 values start s
  = let s1 := with_seps (s.(seps) ++ [""])
                (with_col_styles (s.(col_styles) ++ ["c"]) s) in
    let s2 := if len s1.(col_styles) =? 1
              then with_seps (s1.(seps) ++ [""]) s1 else s1 in
    let _values := (λ val, default "None" val) <$> values in
    let _values :=
      if 0 <? start then py_repeat s.(empty_value) start ++ _values
      else _values in
    (let* _values :=
       if len _values <? row_count s then
         ret (_values ++ py_repeat s.(empty_value) (row_count s - len _values))
       else if row_count s <? len _values then
         times (len _values - row_count s) add_row0 ;; ret _values
       else ret _values in
     append_col _values) s2.
Proof.
  unfold add_col_with, bind at 1 2 3 4, modify, get. cbn.
  by destruct (_ =? 1).
Qed.

(** X15. On a table that satisfies the invariant [add_col] returns, and
    for each text of [col_values], which are [start] placeholders, then
    the values given, with the text [None] in place of [None], then
    placeholders up to the number of rows, the row of that index got one
    more slot at its end, holding a fresh 1x1 cell with that text whose
    column is the length the row had. *)
Theorem add_col_stores_values values start s :
  table_inv s →
  ∃ s', add_col values start s = (Ok (), s') ∧
    ∀ (i : nat) v, col_values s values start !! i = Some v →
      ∃ cells r ls rs,
        s'.(table) !! i = Some (cells ++ [r]) ∧
        s'.(heap) !! r
        = Some (TexTableCell.__init__ v (Z.of_nat i) (len cells) 1 1 ls rs).
Proof.
  intros (Hseps & Hslots & _).
  destruct (add_col_returns values start s Hseps Hslots)
    as ([] & s' & Hrun & _).
  exists s'. split; [done|].
  revert Hrun. unfold add_col. rewrite add_col_with_eq. cbn zeta.
  unfold col_values.
  set (s2 := if _ =? 1 then _ else _).
  set (vals := if 0 <? start then _ else _).
  assert (Hloop : ∀ s3 l,
    append_col l s3 = (Ok (), s') →
    ∀ (i : nat) v, l !! i = Some v →
      ∃ cells r ls rs,
        s'.(table) !! i = Some (cells ++ [r]) ∧
        s'.(heap) !! r
        = Some (TexTableCell.__init__ v (Z.of_nat i) (len cells) 1 1 ls rs)).
  { intros s3 l Hl i v Hv.
    destruct (append_col_values l 0 s3 s' Hl) as (_ & _ & H).
    destruct (H i v Hv) as (cells & r & ls & rs & _ & ? & ?).
    by exists cells, r, ls, rs. }
  unfold bind at 1.
  destruct (Z.ltb_spec (len vals) (row_count s)) as [Hlt|Hge].
  - unfold ret at 1. by apply Hloop.
  - destruct (Z.ltb_spec (row_count s) (len vals)) as [Hgt|Hle].
    + unfold bind at 1.
      destruct (times (len vals - row_count s) add_row0 s2)
        as [[[]|] s3]; [|done].
      unfold ret at 1. cbn. intros Hrun. unfold py_repeat.
      replace (Z.to_nat (row_count s - len vals)) with 0%nat by lia.
      cbn [replicate]. rewrite app_nil_r. by eapply Hloop.
    + unfold ret at 1. intros Hrun. unfold py_repeat.
      replace (Z.to_nat (row_count s - len vals)) with 0%nat by lia.
      cbn [replicate]. rewrite app_nil_r. by eapply Hloop.
Qed.

Lemma add_col_stores_values_witness :
  ∃ s', add_col [None; Some "y"; Some "z"] 0 table_2x2 = (Ok (), s') ∧
    ∀ (i : nat) v,
      col_values table_2x2 [None; Some "y"; Some "z"] 0 !! i = Some v →
      ∃ cells r ls rs,
        s'.(table) !! i = Some (cells ++ [r]) ∧
        s'.(heap) !! r
        = Some (TexTableCell.__init__ v (Z.of_nat i) (len cells) 1 1 ls rs).
Proof.
  apply (add_col_stores_values [None; Some "y"; Some "z"] 0 table_2x2).
  apply run_table_inv, init_table_inv.
Defined.

(** ** Rows of cells that were never merged *)

Lemma string_length_app (a b : string) :
  String.length (a +:+ b) = (String.length a + String.length b)%nat.
Proof.
  induction a as [|x a IH]; [done|].
  change (S (String.length (a +:+ b)) = S (String.length a + String.length b)).
  by rewrite IH.
Qed.

Lemma substring_all (a : string) : String.substring 0 (String.length a) a = a.
Proof. induction a as [|x a IH]; [done|]. cbn. by rewrite IH. Qed.

Lemma substring_app_l (a b : string) :
  String.substring 0 (String.length a) (a +:+ b) = a.
Proof.
  induction a as [|x a IH]; [by destruct b|].
  change (String x (String.substring 0 (String.length a) (a +:+ b))
          = String x a).
  by rewrite IH.
Qed.

Lemma substring_app_r (a b : string) :
  String.substring (String.length a) (String.length b) (a +:+ b) = b.
Proof.
  induction a as [|x a IH]; [apply substring_all|].
  change (String.substring (String.length a) (String.length b) (a +:+ b) = b).
  apply IH.
Qed.

Lemma removesuffix_app (a suffix : string) :
  removesuffix (a +:+ suffix) suffix = a.
Proof.
  unfold removesuffix. rewrite string_length_app.
  replace (String.length a + String.length suffix - String.length suffix)%nat
    with (String.length a) by lia.
  rewrite substring_app_r, substring_app_l.
  rewrite bool_decide_eq_true_2 by lia.
  rewrite (bool_decide_eq_true_2 (suffix = suffix)) by done. cbn.
  case_bool_decide as Hk; cbn; [|done].
  destruct suffix; [|done]. apply string_app_nil_r.
Qed.

Lemma concat_with_suffix (sep x : string) (l : list string) :
  String.concat "" ((λ v, v +:+ sep) <$> (x :: l))
  = String.concat sep (x :: l) +:+ sep.
Proof.
  revert x. induction l as [|y l IH]; intros x; [done|].
  change ((λ v, v +:+ sep) <$> (x :: y :: l))
    with ((x +:+ sep) :: ((λ v, v +:+ sep) <$> (y :: l))).
  change (String.concat "" ((x +:+ sep) :: ((λ v, v +:+ sep) <$> (y :: l))))
    with ((x +:+ sep) +:+ String.concat "" ((λ v, v +:+ sep) <$> (y :: l))).
  rewrite IH, concat_cons2. by rewrite !string_app_assoc.
Qed.

(** A 1x1 cell gives its styled text and a separator. *)
Lemma table_value_unit_cell c (i j : nat) :
  unit_cell_at c i j →
  TexTableCell.table_value c (Z.of_nat i) (Z.of_nat j)
  = Ok (TexTableCell.styled_value c +:+ " & ").
Proof.
  intros (Hr & Hc & Hw & Hh).
  unfold TexTableCell.table_value, TexTableCell.__getitem__,
    TexTableCell.assert_in_bounds.
  rewrite Hr, Hc, Hw, Hh.
  destruct (Z.leb_spec (Z.of_nat i) (Z.of_nat i)); [|lia].
  destruct (Z.ltb_spec (Z.of_nat i) (Z.of_nat i + 1)); [|lia].
  destruct (Z.leb_spec (Z.of_nat j) (Z.of_nat j)); [|lia].
  destruct (Z.ltb_spec (Z.of_nat j) (Z.of_nat j + 1)); [|lia].
  cbn. rewrite Z.eqb_refl. cbn.
  by replace (Z.of_nat j + 1 - 1) with (Z.of_nat j) by lia;
    rewrite Z.eqb_refl.
Qed.

Lemma unit_cells_texts s (i : nat) cells cs : ∀ k : nat,
  Forall2 (λ (r : nat) c, s.(heap) !! r = Some c) cells cs →
  (∀ (j : nat) c, cs !! j = Some c → unit_cell_at c i (k + j)) →
  mapR (λ p : Z * nat,
          let? cell := deref s p.2 in
          TexTableCell.table_value cell (Z.of_nat i) p.1)
       (enumerate_from (Z.of_nat k) cells)
  = Ok ((λ c, TexTableCell.styled_value c +:+ " & ") <$> cs).
Proof.
  intros k Hcells. revert k.
  induction Hcells as [|r c cells cs Hr _ IH]; intros k Hunit; [done|].
  cbn [enumerate_from mapR]. unfold deref at 1. cbn. rewrite Hr. cbn.
  rewrite (table_value_unit_cell c i k).
  2:{ specialize (Hunit 0%nat c eq_refl). by rewrite Nat.add_0_r in Hunit. }
  cbn. replace (Z.of_nat k + 1) with (Z.of_nat (S k)) by lia.
  rewrite IH; [done|].
  intros j c' Hc'. specialize (Hunit (S j) c' Hc').
  by replace (S k + j)%nat with (k + S j)%nat by lia.
Qed.

(** X16. A row whose slots all hold 1x1 cells renders as the styled
    texts of its cells joined by [" & "] and closed by [" \\"]; a row
    with no slots renders as [" \\"] alone. *)
Theorem render_row_of_unit_cells s (i : nat) cells cs :
  Forall2 (λ (r : nat) c, s.(heap) !! r = Some c) cells cs →
  (∀ (j : nat) c, cs !! j = Some c → unit_cell_at c i j) →
  render_row s (Z.of_nat i) cells
  = Ok (String.concat " & " (TexTableCell.styled_value <$> cs) +:+ " \\").
Proof.
  intros Hcells Hunit. unfold render_row, enumerate.
  pose proof (unit_cells_texts s i cells cs 0 Hcells Hunit) as Htexts.
  change (Z.of_nat 0) with 0 in Htexts. rewrite Htexts. cbn.
  do 2 f_equal. destruct cs as [|c cs]; [done|].
  rewrite (list_fmap_compose TexTableCell.styled_value (λ v, v +:+ " & ")).
  change (TexTableCell.styled_value <$> (c :: cs))
    with (TexTableCell.styled_value c :: (TexTableCell.styled_value <$> cs)).
  rewrite concat_with_suffix. apply removesuffix_app.
Qed.

Lemma render_row_of_unit_cells_witness :
  render_row table_2x2 (Z.of_nat 1) [2; 3]%nat
  = Ok (String.concat " & "
          (TexTableCell.styled_value
             <$> [TexTableCell.__init__ "C" 1 0 1 1 "" "";
                  TexTableCell.__init__ "D" 1 1 1 1 "" ""]) +:+ " \\").
Proof.
  apply (render_row_of_unit_cells table_2x2 1 [2; 3]%nat).
  - repeat constructor.
  - intros [|[|j]] c; cbn; intros [= <-]; repeat split.
Defined.

(** ** The text of a merged cell along a row *)

Lemma mapR_ok_fmap {A B} (f : A → result B) (g : A → B) (l : list A) :
  (∀ x, x ∈ l → f x = Ok (g x)) → mapR f l = Ok (g <$> l).
Proof.
  induction l as [|x l IH]; intros Hfg; [done|]. cbn.
  rewrite (Hfg x) by by left. cbn. rewrite IH; [done|].
  intros y ?. apply Hfg. by right.
Qed.

Lemma fmap_const_replicate {A B} (y : B) (l : list A) :
  (λ _, y) <$> l = replicate (length l) y.
Proof. induction l as [|x l IH]; [done|]. cbn. by rewrite IH. Qed.

Lemma concat_empty_cons (x : string) (l : list string) :
  String.concat "" (x :: l) = x +:+ String.concat "" l.
Proof. destruct l; [symmetry; apply string_app_nil_r|done]. Qed.

Lemma table_value_eq c (r k : Z) :
  TexTableCell.covers c r k →
  TexTableCell.table_value c r k
  = let? ans := TexTableCell.__getitem__ c r k in
    if negb (r =? c.(TexTableCell.row))
       || (k =? c.(TexTableCell.col) + c.(TexTableCell.width) - 1)
    then Ok (ans +:+ " & ") else Ok ans.
Proof.
  intros Hc. unfold TexTableCell.table_value.
  by rewrite (assert_in_bounds_covers _ _ _ Hc).
Qed.

(** Off its first slot a cell gives the empty text. *)
Lemma getitem_off_anchor c (r k : Z) :
  TexTableCell.covers c r k →
  r ≠ c.(TexTableCell.row) ∨ k ≠ c.(TexTableCell.col) →
  TexTableCell.__getitem__ c r k = Ok "".
Proof.
  intros Hc Hoff. unfold TexTableCell.__getitem__.
  rewrite (assert_in_bounds_covers _ _ _ Hc). cbn.
  destruct Hc as [[??] [??]].
  destruct (Z.eqb_spec (TexTableCell.width c) 1);
    destruct (Z.eqb_spec (TexTableCell.height c) 1); cbn; try lia.
  all: destruct (Z.eqb_spec r (TexTableCell.row c));
    destruct (Z.eqb_spec k (TexTableCell.col c)); cbn; try done; lia.
Qed.

(** The separators after the first slot of a row of a cell: nothing up
    to the last column, where the one separator stands. *)
Lemma concat_last_separator (last : Z) (n : nat) : ∀ lo,
  Z.to_nat (last - lo) = n → lo ≤ last →
  String.concat ""
    ((λ k, if k =? last then " & " else "") <$> range lo (last + 1))
  = " & ".
Proof.
  induction n as [|n IH]; intros lo Hn Hlo.
  - assert (lo = last) as -> by lia.
    rewrite (range_cons last) by lia. rewrite range_nil by lia.
    cbn. by rewrite Z.eqb_refl.
  - rewrite (range_cons lo) by lia. rewrite fmap_cons, concat_empty_cons.
    destruct (Z.eqb_spec lo last); [lia|]. rewrite IH by lia. done.
Qed.

(** X17. Along its first row a cell adds one entry and one separator to
    the text of the row, whatever its width: the text of its first slot
    followed by [" & "].  Along each further row of its rectangle it adds
    one separator for each of its columns and no text. *)
Theorem cell_row_text_merged c (r : Z) :
  1 ≤ c.(TexTableCell.width) →
  c.(TexTableCell.row) ≤ r < c.(TexTableCell.row) + c.(TexTableCell.height) →
  cell_row_text c r
  = if r =? c.(TexTableCell.row)
    then let? ans :=
           TexTableCell.__getitem__ c c.(TexTableCell.row) c.(TexTableCell.col) in
         Ok (ans +:+ " & ")
    else Ok (String.concat ""
               (replicate (Z.to_nat c.(TexTableCell.width)) " & ")).
Proof.
  intros Hw Hr. unfold cell_row_text.
  assert (Hcov : ∀ k, k ∈ range (TexTableCell.col c)
                         (TexTableCell.col c + TexTableCell.width c) →
                      TexTableCell.covers c r k).
  { intros k Hk%elem_of_range. split; lia. }
  destruct (Z.eqb_spec r (TexTableCell.row c)) as [->|Hne].
  - (* the first row *)
    destruct (getitem_covers c (TexTableCell.row c) (TexTableCell.col c))
      as [ans Hans]; [split; lia|].
    rewrite Hans. cbn [rbind].
    rewrite (range_cons (TexTableCell.col c)) by lia. cbn [mapR].
    rewrite table_value_eq, Hans by (split; lia). cbn [rbind].
    rewrite Z.eqb_refl. cbn [negb orb].
    destruct (Z.eqb_spec (TexTableCell.col c)
                (TexTableCell.col c + TexTableCell.width c - 1)) as [Hone|Hmore].
    + rewrite range_nil by lia. done.
    + rewrite (mapR_ok_fmap _
        (λ k, if k =? TexTableCell.col c + TexTableCell.width c - 1
              then " & " else "")).
      2:{ intros k Hk%elem_of_range.
          rewrite table_value_eq by (split; lia).
          rewrite getitem_off_anchor by first [split; lia | right; lia].
          cbn [rbind]. rewrite Z.eqb_refl. cbn [negb orb].
          by destruct (_ =? _). }
      cbn [rbind]. rewrite concat_empty_cons. do 2 f_equal.
      remember (TexTableCell.col c + TexTableCell.width c - 1) as last
        eqn:Hlast.
      replace (TexTableCell.col c + TexTableCell.width c)
        with (last + 1) by lia.
      eapply concat_last_separator; [done|lia].
  - (* a further row *)
    rewrite (mapR_ok_fmap _ (λ _, " & ")).
    2:{ intros k Hk. pose proof (Hcov k Hk) as Hc.
        rewrite table_value_eq by done.
        rewrite getitem_off_anchor by first [done | by left]. cbn [rbind].
        by destruct (Z.eqb_spec r (TexTableCell.row c)). }
    cbn [rbind]. rewrite fmap_const_replicate, range_length. do 3 f_equal. lia.
Qed.

Lemma cell_row_text_merged_witness :
  cell_row_text (TexTableCell.__init__ "X" 0 0 3 2 "" "") 1
  = if 1 =? 0
    then let? ans :=
           TexTableCell.__getitem__ (TexTableCell.__init__ "X" 0 0 3 2 "" "") 0 0 in
         Ok (ans +:+ " & ")
    else Ok (String.concat "" (replicate (Z.to_nat 3) " & ")).
Proof.
  apply (cell_row_text_merged (TexTableCell.__init__ "X" 0 0 3 2 "" "") 1).
  - cbn. lia.
  - cbn. lia.
Defined.

(** ** The package of a merge over several rows *)

Lemma deps_same_new_cell c : keeps deps_same (new_cell c).
Proof. by intros s. Qed.

Lemma deps_same_set_slot i j r : keeps deps_same (set_slot i j r).
Proof.
  intros s. unfold set_slot.
  by destruct (let? cells := py_index (table s) i in _).
Qed.

Lemma merge_area_deps value row col tr tc s s' :
  merge_area value row col tr tc s = (Ok (), s') →
  s'.(_dependencies)
  = ((if 1 <? tr - row + 1 then _depends_on "multirow" else ret ()) s).2
      .(_dependencies).
Proof.
  unfold merge_area. cbn zeta. unfold bind at 1, get at 1. cbn iota beta.
  unfold bind at 1, raise_if at 1. destruct (negb _); [done|].
  unfold ret at 1. cbn iota beta.
  unfold bind at 1, raise_if at 1. destruct (negb _); [done|].
  unfold ret at 1. cbn iota beta.
  unfold bind at 1, lift at 1.
  destruct (merge_validate s row col tr tc) as [[]|]; [|done].
  unfold bind at 1.
  destruct ((if 1 <? tr - row + 1 then _depends_on "multirow" else ret ()) s)
    as [[[]|] s1]; [|done].
  cbn [snd]. intros Htail.
  match type of Htail with
  | ?t s1 = _ => assert (keeps deps_same t) as Hk
  end.
  { apply keeps_bind; [apply _|apply keeps_lift; apply _|]. intros ls.
    apply keeps_bind; [apply _|apply keeps_lift; apply _|]. intros rs.
    apply keeps_bind; [apply _|apply deps_same_new_cell|]. intros r.
    apply keeps_forM_; [apply _|]. intros i.
    apply keeps_forM_; [apply _|]. intros j. apply deps_same_set_slot. }
  specialize (Hk s1). by rewrite Htail in Hk.
Qed.

(** X18. A [merge] that returns adds the package [multirow] to the set
    of packages exactly when its rectangle spans more than one row; a
    merge within one row leaves the packages as they are. *)
Theorem merge_multirow_package value row col width height to_row to_col s s' tr :
  merge value row col width height to_row to_col s = (Ok (), s') →
  axis_end row height to_row = Some tr →
  (row < tr → s'.(_dependencies) = {["multirow"]} ∪ s.(_dependencies)) ∧
  (tr ≤ row → s'.(_dependencies) = s.(_dependencies)).
Proof.
  rewrite merge_eq.
  destruct (negb _); [done|]. destruct (negb _); [done|].
  intros Hm Htr. rewrite Htr in Hm.
  destruct (axis_end col width to_col) as [tc|]; [|done].
  apply merge_area_deps in Hm. rewrite Hm. split.
  - intros Hlt. by destruct (Z.ltb_spec 1 (tr - row + 1)); [|lia].
  - intros Hle. by destruct (Z.ltb_spec 1 (tr - row + 1)); [lia|].
Qed.

Lemma merge_multirow_package_witness :
  (0 < 1 →
   (merge "M" 0 0 (Some 1) (Some 2) None None table_2x2).2.(_dependencies)
   = {["multirow"]} ∪ table_2x2.(_dependencies)) ∧
  (1 ≤ 0 →
   (merge "M" 0 0 (Some 1) (Some 2) None None table_2x2).2.(_dependencies)
   = table_2x2.(_dependencies)).
Proof.
  apply (merge_multirow_package "M" 0 0 (Some 1) (Some 2) None None
           table_2x2 _ 1); reflexivity.
Defined.

(** ** The helpers that lay the text out *)

Lemma flat_app (l1 l2 : list item) : _flat (l1 ++ l2) = _flat l1 ++ _flat l2.
Proof.
  unfold _flat. induction l1 as [|x l1 IH]; [done|].
  cbn in *. by rewrite IH, app_assoc.
Qed.

Lemma flat_cons (x : item) (l : list item) :
  _flat (x :: l) = _flat_item x ++ _flat l.
Proof. done. Qed.

Lemma flat_strings (l : list string) : _flat (Str <$> l) = l.
Proof.
  induction l as [|x l IH]; [done|].
  rewrite fmap_cons, flat_cons, IH. done.
Qed.

(** X19. [_flat] keeps a list of strings as it is, flattens a list that
    is appended to another separately, looks through a list nested in a
    list, and changes nothing when it is applied to its own result. *)
Theorem flat_properties (l l1 l2 : list item) (strings : list string) :
  _flat (Str <$> strings) = strings ∧
  _flat (l1 ++ l2) = _flat l1 ++ _flat l2 ∧
  _flat [Lst l] = _flat l ∧
  _flat (Str <$> _flat l) = _flat l.
Proof.
  split; [apply flat_strings|]. split; [apply flat_app|].
  split; [|apply flat_strings].
  rewrite flat_cons. change (_flat []) with (@nil string).
  by rewrite app_nil_r.
Qed.

Lemma add_rules_length rules : ∀ added rows rows',
  add_rules added rules rows = Ok rows' →
  length rows' = (length rows + length rules)%nat.
Proof.
  induction rules as [|[i tex] rules IH]; intros added rows rows'; cbn.
  - intros [= <-]. lia.
  - destruct (negb _); [done|]. intros Hr%IH.
    pose proof (py_insert_length rows (i + added) tex) as Hl.
    unfold len in Hl. lia.
Qed.

Lemma assemble_lines s rows line sty :
  assemble s rows line sty
  = String.concat newline
      ([ "\begin{" +:+ s.(cmd) +:+ (if s.(star) then "*" else "") +:+ "}["
         +:+ s.(position) +:+ "]";
         "    " +:+ (if s.(centered) then "\centering" else "");
         "    " +:+ (if s.(caption_after_table) then "" else line);
         "    \begin{tabular}{" +:+ sty +:+ "}" ]
       ++ ((λ row, "        " +:+ row) <$> rows)
       ++ [ "    \end{tabular}";
            "    " +:+ (if s.(caption_after_table) then line else "");
            "\end{" +:+ s.(cmd) +:+ (if s.(star) then "*" else "") +:+ "}" ]).
Proof.
  unfold assemble. f_equal. unfold _texcmd at 1.
  rewrite !flat_cons. cbn [_flat_item].
  fold (_flat (Str <$> _texcmd "tabular" rows None (Some sty))).
  rewrite flat_strings. change (_flat []) with (@nil string).
  unfold _texcmd. rewrite !fmap_app, <- !list_fmap_compose. cbn [fmap list_fmap app].
  rewrite !string_app_nil_r, !string_app_assoc.
  rewrite <- !app_assoc. cbn [app].
  repeat (f_equal; try done).
Qed.

(** X20. When [render] returns, its text is the lines of the float
    around the lines of the [tabular] joined by line breaks: the opening
    of the float with the position, the centering line, the caption line
    before the table, the opening of the [tabular] with the column
    styles, the row lines, its closing, the caption line after the table
    and the closing of the float; a line for something absent holds the
    indentation alone.  There is one row line for each row of the grid and
    for each rule. *)
Theorem render_layout s text :
  (render s).1 = Ok text →
  ∃ rows line sty,
    caption_line s = Ok line ∧ _str_col_sty s = Ok sty ∧
    length rows = (length s.(table) + length s.(_rules))%nat ∧
    text
    = String.concat newline
        ([ "\begin{" +:+ s.(cmd) +:+ (if s.(star) then "*" else "") +:+ "}["
           +:+ s.(position) +:+ "]";
           "    " +:+ (if s.(centered) then "\centering" else "");
           "    " +:+ (if s.(caption_after_table) then "" else line);
           "    \begin{tabular}{" +:+ sty +:+ "}" ]
         ++ ((λ row, "        " +:+ row) <$> rows)
         ++ [ "    \end{tabular}";
              "    " +:+ (if s.(caption_after_table) then line else "");
              "\end{" +:+ s.(cmd) +:+ (if s.(star) then "*" else "") +:+ "}" ]).
Proof.
  rewrite render_eq.
  destruct (base_rows s) as [rows|] eqn:Hrows; [|done].
  destruct (add_top_lines _ rows) as [rows1|] eqn:Hrows1; [|done]. cbn zeta.
  destruct (add_rules 0 _ rows1) as [rows2|] eqn:Hrows2; [|done].
  destruct (caption_line s) as [line|]; [|done].
  destruct (_str_col_sty s) as [sty|]; [|done].
  cbn. intros [= <-]. exists rows2, line, sty.
  split; [done|]. split; [done|]. split; [|apply assemble_lines].
  apply add_rules_length in Hrows2. apply add_top_lines_length in Hrows1.
  apply mapR_length in Hrows. unfold enumerate in Hrows.
  rewrite enumerate_from_length in Hrows.
  rewrite Hrows2, Hrows1, Hrows. f_equal.
  apply Permutation_length, sort_rules_perm.
Qed.

Lemma render_layout_witness :
  ∃ rows line sty,
    caption_line table_2x2 = Ok line ∧ _str_col_sty table_2x2 = Ok sty ∧
    length rows
    = (length table_2x2.(table) + length table_2x2.(_rules))%nat ∧
    String.concat newline
      [ "\begin{figure}[h!]"; "    \centering"; "    ";
        "    \begin{tabular}{cc}"; "        A & B \\"; "        C & D \\";
        "    \end{tabular}"; "    "; "\end{figure}" ]
    = String.concat newline
        ([ "\begin{" +:+ table_2x2.(cmd)
           +:+ (if table_2x2.(star) then "*" else "") +:+ "}["
           +:+ table_2x2.(position) +:+ "]";
           "    " +:+ (if table_2x2.(centered) then "\centering" else "");
           "    " +:+ (if table_2x2.(caption_after_table) then "" else line);
           "    \begin{tabular}{" +:+ sty +:+ "}" ]
         ++ ((λ row, "        " +:+ row) <$> rows)
         ++ [ "    \end{tabular}";
              "    " +:+ (if table_2x2.(caption_after_table) then line else "");
              "\end{" +:+ table_2x2.(cmd)
              +:+ (if table_2x2.(star) then "*" else "") +:+ "}" ]).
Proof.
  apply (render_layout table_2x2). reflexivity.
Defined.

(** ** No method sets a column style or a separator *)

#[global] Instance stays_plain_preorder : PreOrder stays_plain.
Proof.
  split; [intros s H; exact H|]. intros s1 s2 s3 H1 H2 H. by apply H2, H1.
Qed.

Lemma stays_plain_same_grid s s' : same_grid s s' → stays_plain s s'.
Proof. intros (Hc & Hs & _ & Hh). unfold stays_plain, plain. by rewrite Hc, Hs, Hh. Qed.

Lemma py_index_elem {A} (l : list A) (i : Z) (x : A) :
  py_index l i = Ok x → x ∈ l.
Proof.
  unfold py_index. destruct (_ && _); [|done].
  destruct (l !! _) eqn:Hl; [|done]. intros [= <-].
  by eapply list_elem_of_lookup_2.
Qed.

Lemma plain_sep s (i : Z) x : plain s → py_index s.(seps) i = Ok x → x = "".
Proof.
  intros (_ & Hseps & _) Hx%py_index_elem.
  by apply (proj1 (Forall_forall _ _) Hseps).
Qed.

Lemma stays_plain_new_cell v r c w h ls rs s :
  ls = "" → rs = "" →
  stays_plain s (new_cell (TexTableCell.__init__ v r c w h ls rs) s).2.
Proof.
  intros -> -> (? & ? & Hh). repeat split; try done. cbn.
  apply Forall_app. split; [done|]. by repeat constructor.
Qed.

Lemma stays_plain_append_row vals : keeps stays_plain (append_row vals).
Proof.
  intros s Hplain. unfold append_row, bind, get, lift, new_cells, modify. cbn.
  destruct (mapR _ (enumerate vals)) as [cells|] eqn:Hcells; [|done]. cbn.
  destruct Hplain as (? & ? & Hh). repeat split; try done. cbn.
  apply Forall_app. split; [done|]. apply Forall_lookup. intros j c Hc.
  destruct (lookup_lt_is_Some_2 (enumerate vals) j) as [p Hp].
  { rewrite <- (mapR_length _ _ _ Hcells). by eapply lookup_lt_Some. }
  destruct (mapR_lookup _ _ _ _ _ Hcells Hp) as (c' & Hf & Hc').
  assert (c' = c) as -> by congruence.
  destruct (py_index (seps s) p.1) as [ls|] eqn:Hls; [|done]. cbn in Hf.
  destruct (py_index (seps s) (p.1 + 1)) as [rs|] eqn:Hrs; [|done]. cbn in Hf.
  injection Hf as <-. cbn. split; eapply plain_sep; done.
Qed.

Lemma stays_plain_append_col_cell p : keeps stays_plain (append_col_cell p).
Proof.
  intros s Hplain. unfold append_col_cell, bind, get, lift, modify.
  cbn [fst snd].
  destruct (py_index (table s) p.1); [|done].
  destruct (py_index (seps s) (-2)) as [ls|] eqn:Hls; [|done].
  destruct (py_index (seps s) (-1)) as [rs|] eqn:Hrs; [|done].
  assert (ls = "") as -> by by eapply plain_sep.
  assert (rs = "") as -> by by eapply plain_sep.
  cbn. destruct Hplain as (? & ? & Hh). repeat split; try done. cbn.
  apply Forall_app. split; [done|]. by repeat constructor.
Qed.

Lemma stays_plain_add_row_with cb values start :
  keeps stays_plain cb → keeps stays_plain (add_row_with cb values start).
Proof.
  intros Hcb. unfold add_row_with.
  apply keeps_bind; [apply _|apply keeps_get; apply _|]. intros s. cbn zeta.
  apply keeps_bind; [apply _| |intros vals; apply stays_plain_append_row].
  repeat case_match;
    first [ apply keeps_ret; apply _
          | apply keeps_bind;
            [apply _|by apply keeps_times; [apply _|]
            |intros _; apply keeps_ret; apply _] ].
Qed.

Lemma stays_plain_add_col_with cb values start :
  keeps stays_plain cb → keeps stays_plain (add_col_with cb values start).
Proof.
  intros Hcb. unfold add_col_with.
  assert (Hsep : ∀ s, stays_plain s (with_seps (seps s ++ [""]) s)).
  { intros s (? & ? & ?). repeat split; try done. cbn.
    apply Forall_app. split; [done|]. by repeat constructor. }
  apply keeps_bind; [apply _|apply keeps_modify|].
  { intros s (? & ? & ?). repeat split; try done. cbn.
    apply Forall_app. split; [done|]. by repeat constructor. }
  intros _.
  apply keeps_bind; [apply _|by apply keeps_modify|]. intros _.
  apply keeps_bind; [apply _|apply keeps_get; apply _|]. intros s.
  apply keeps_bind; [apply _| |].
  { case_match; [by apply keeps_modify|apply keeps_ret; apply _]. }
  intros _.
  apply keeps_bind; [apply _|apply keeps_get; apply _|]. intros s1. cbn zeta.
  apply keeps_bind; [apply _| |].
  { repeat case_match;
      first [ apply keeps_ret; apply _
            | apply keeps_bind;
              [apply _|by apply keeps_times; [apply _|]
              |intros _; apply keeps_ret; apply _] ]. }
  intros vals. unfold append_col. apply keeps_forM_; [apply _|].
  apply stays_plain_append_col_cell.
Qed.

Lemma stays_plain_add_row values start : keeps stays_plain (add_row values start).
Proof.
  apply stays_plain_add_row_with. apply stays_plain_add_col_with.
  apply keeps_ret; apply _.
Qed.

Lemma stays_plain_add_col values start : keeps stays_plain (add_col values start).
Proof. apply stays_plain_add_col_with. apply stays_plain_add_row. Qed.

Lemma stays_plain_set_slot i j r : keeps stays_plain (set_slot i j r).
Proof.
  intros s. unfold set_slot.
  destruct (let? cells := py_index (table s) i in _); intros H; exact H.
Qed.

Lemma stays_plain_merge_area value row col tr tc :
  keeps stays_plain (merge_area value row col tr tc).
Proof.
  intros s Hplain. unfold merge_area. cbn zeta.
  unfold bind at 1, get at 1. cbn iota beta.
  unfold bind at 1, raise_if at 1. destruct (negb _); [done|].
  unfold ret at 1. cbn iota beta.
  unfold bind at 1, raise_if at 1. destruct (negb _); [done|].
  unfold ret at 1. cbn iota beta.
  unfold bind at 1, lift at 1.
  destruct (merge_validate s row col tr tc) as [[]|]; [|done].
  unfold bind at 1.
  assert (∃ s1, (if 1 <? tr - row + 1 then _depends_on "multirow" else ret ()) s
                = (Ok (), s1) ∧ same_grid s s1) as (s1 & -> & Hs1).
  { destruct (1 <? _).
    - eexists. split; [reflexivity|]. apply (same_grid_depends_on "multirow").
    - eexists. split; [reflexivity|]. done. }
  cbn iota beta.
  pose proof (stays_plain_same_grid _ _ Hs1 Hplain) as Hplain1.
  unfold bind at 1, lift at 1.
  destruct (py_index (seps s) col) as [ls|] eqn:Hls; [|done].
  unfold bind at 1, lift at 1.
  destruct (py_index (seps s) (tc + 1)) as [rs|] eqn:Hrs; [|done].
  assert (ls = "") as -> by apply (plain_sep s col ls Hplain Hls).
  assert (rs = "") as -> by apply (plain_sep s (tc + 1) rs Hplain Hrs).
  unfold bind at 1.
  pose proof (stays_plain_new_cell value row col (tc - col + 1) (tr - row + 1)
                "" "" s1 eq_refl eq_refl Hplain1) as Hplain2.
  destruct (new_cell _ s1) as [[r|] s2]; [|done]. cbn [snd] in Hplain2.
  cbn iota beta. revert Hplain2.
  apply (keeps_forM_ stays_plain). intros i.
  apply keeps_forM_; [apply _|]. intros j. apply stays_plain_set_slot.
Qed.

Lemma stays_plain_merge value row col width height to_row to_col :
  keeps stays_plain (merge value row col width height to_row to_col).
Proof.
  intros s. rewrite merge_eq.
  destruct (negb _); [done|]. destruct (negb _); [done|].
  destruct (axis_end row height to_row); [|done].
  destruct (axis_end col width to_col); [|done].
  apply stays_plain_merge_area.
Qed.

Lemma stays_plain_update_cell r f :
  (∀ c, (f c).(TexTableCell.l_sep) = c.(TexTableCell.l_sep) ∧
        (f c).(TexTableCell.r_sep) = c.(TexTableCell.r_sep)) →
  keeps stays_plain (update_cell r f).
Proof.
  intros Hf s. unfold update_cell.
  destruct (heap s !! r) as [c|] eqn:Hc; [|done].
  intros (? & ? & Hh). repeat split; try done. cbn.
  apply Forall_insert; [done|].
  destruct (Hf c) as [-> ->].
  by apply (proj1 (Forall_lookup _ _) Hh r c).
Qed.

Lemma stays_plain_for_cells slice f :
  (∀ c, (f c).(TexTableCell.l_sep) = c.(TexTableCell.l_sep) ∧
        (f c).(TexTableCell.r_sep) = c.(TexTableCell.r_sep)) →
  keeps stays_plain (TexTableSlice.for_cells slice f).
Proof.
  intros Hf. unfold TexTableSlice.for_cells.
  apply keeps_forM_; [apply _|]. intros p.
  apply keeps_bind; [apply _|apply keeps_get; apply _|]. intros s.
  apply keeps_bind; [apply _|apply keeps_lift; apply _|]. intros r.
  by apply stays_plain_update_cell.
Qed.

Lemma stays_plain_depends_on d : keeps stays_plain (_depends_on d).
Proof. intros s. apply stays_plain_same_grid, same_grid_depends_on. Qed.

Lemma stays_plain_step o s : stays_plain s (step o s).
Proof.
  destruct o; unfold step, perform.
  - apply stays_plain_add_row.
  - apply stays_plain_add_col.
  - apply stays_plain_merge.
  - apply stays_plain_same_grid, same_grid_add_rule.
  - apply stays_plain_same_grid, same_grid_add_cline.
  - apply stays_plain_same_grid, same_grid_add_cmidrule.
  - destruct i as [i|a b|], j as [j|a' b'|]; unfold __setitem__.
    1:{ apply keeps_bind; [apply _|apply keeps_get; apply _|]. intros s1.
        apply keeps_bind; [apply _|apply keeps_lift; apply _|]. intros r.
        by apply stays_plain_update_cell. }
    all: apply keeps_bind; [apply _|apply keeps_get; apply _|]; intros s1.
    all: apply keeps_bind; [apply _|apply keeps_lift; apply _|].
    all: intros [[[row col] tr] tc]; apply stays_plain_merge.
  - by apply stays_plain_for_cells.
  - by apply stays_plain_for_cells.
  - by apply stays_plain_for_cells.
  - by apply stays_plain_for_cells.
  - unfold TexTableSlice.set_background_color.
    apply keeps_bind; [apply _|apply stays_plain_depends_on|]. intros _.
    apply keeps_bind; [apply _|apply stays_plain_depends_on|]. intros _.
    by apply stays_plain_for_cells.
  - unfold TexTableSlice.set_rotation.
    apply keeps_bind; [apply _|apply stays_plain_depends_on|]. intros _.
    by apply stays_plain_for_cells.
  - apply keeps_bind; [apply _| |intros; apply keeps_ret; apply _].
    intros s1. apply stays_plain_same_grid, same_grid_render.
Qed.

Lemma reachable_plain s : reachable s → plain s.
Proof.
  induction 1 as [|s o _ IH]; [by repeat split|]. by apply stays_plain_step.
Qed.

Lemma foldl_plain_seps (cols seps : list string) : ∀ acc,
  Forall (λ sep, sep = "") seps → (length cols ≤ length seps)%nat →
  foldl (λ acc (p : string * string), acc +:+ (p.1 +:+ p.2)) acc (zip seps cols)
  = acc +:+ String.concat "" cols.
Proof.
  revert seps. induction cols as [|c cols IH]; intros seps acc Hseps Hlen.
  - destruct seps; cbn; by rewrite string_app_nil_r.
  - destruct seps as [|sep seps]; [cbn in Hlen; lia|].
    apply Forall_cons in Hseps as [-> Hseps]. cbn [zip zip_with foldl fst snd].
    rewrite IH by (done || cbn in Hlen; lia).
    by rewrite concat_empty_cons, string_app_assoc.
Qed.

(** X21. No method sets a column style or a separator.  In a table built
    through the methods every column has the style [c], every separator
    is empty and every cell was made with empty separators; so the
    argument of the [tabular] is one [c] for each column, and is there as
    soon as the table has a column. *)
Theorem styles_stay_plain s :
  reachable s →
  plain s ∧
  (0 < col_count s →
   _str_col_sty s
   = Ok (String.concat "" (replicate (length s.(col_styles)) "c"))).
Proof.
  intros Hs. pose proof (reachable_plain s Hs) as Hplain.
  split; [done|]. intros Hcols.
  destruct (reachable_table_inv s Hs) as (Hseps & _).
  destruct Hplain as (Hc & Hsep & _).
  unfold seps_ok in Hseps. unfold col_count, len in Hcols.
  unfold _str_col_sty.
  destruct (py_index_in_range (seps s) (-1)) as [last Hlast].
  { unfold len. rewrite Hseps. destruct (col_styles s); cbn [length] in *; lia. }
  assert (last = "") as ->.
  { apply py_index_elem in Hlast.
    by apply (proj1 (Forall_forall _ _) Hsep). }
  rewrite Hlast. cbn [rbind].
  rewrite foldl_plain_seps by (done || rewrite Hseps; destruct (col_styles s); cbn; lia).
  rewrite string_app_nil_r.
  change ("" +:+ String.concat "" (col_styles s))
    with (String.concat "" (col_styles s)).
  do 2 f_equal. clear -Hc.
  induction Hc as [|c cols -> _ IH]; cbn; [done|]. by rewrite <- IH.
Qed.

Lemma styles_stay_plain_witness :
  plain table_1x3_merged ∧
  (0 < col_count table_1x3_merged →
   _str_col_sty table_1x3_merged
   = Ok (String.concat ""
           (replicate (length table_1x3_merged.(col_styles)) "c"))).
Proof.
  apply (styles_stay_plain table_1x3_merged).
  apply run_reachable, run_reachable, reach_init.
Defined.

(** ** The partial lines that are registered *)

Lemma rstrip_brace (x : string) : rstrip (x +:+ "} ") = x +:+ "}".
Proof.
  induction x as [|a x IH]; [done|].
  change (rstrip (String a (x +:+ "} ")) = String a (x +:+ "}")).
  cbn [rstrip]. rewrite IH. by destruct x.
Qed.

Lemma strip_command (x : string) :
  strip ("\" +:+ x +:+ "} ") = "\" +:+ x +:+ "}".
Proof.
  unfold strip.
  change (lstrip ("\" +:+ x +:+ "} ")) with ("\" +:+ x +:+ "} ").
  rewrite <- string_app_assoc. rewrite rstrip_brace.
  by rewrite string_app_assoc.
Qed.

(** X22. [add_cline] and [add_cmidrule] never raise and never look at the
    grid: each registers one text, after those registered before, for the
    row given, or for the row that would be added next when none is
    given.  The text names the columns counting from one, up to the last
    column when no end is given, and has no blank at its end. *)
Theorem partial_lines_registered row from_col to_col options s :
  (add_cline row from_col to_col s).1 = Ok () ∧
  (add_cline row from_col to_col s).2.(_lines)
  = s.(_lines)
    ++ [(default (row_count s) row,
         "\cline{" +:+ str (from_col + 1) +:+ "-"
         +:+ str (default (col_count s - 1) to_col + 1) +:+ "}")] ∧
  (add_cmidrule row from_col to_col options s).1 = Ok () ∧
  (add_cmidrule row from_col to_col options s).2.(_lines)
  = s.(_lines)
    ++ [(default (row_count s) row,
         "\cmidrule(" +:+ options +:+ "){" +:+ str (from_col + 1) +:+ "-"
         +:+ str (default (col_count s - 1) to_col + 1) +:+ "}")].
Proof.
  assert (Hcline : ∀ a b : string,
    strip ("\cline{" +:+ a +:+ "-" +:+ b +:+ "} ")
    = "\cline{" +:+ a +:+ "-" +:+ b +:+ "}").
  { intros a b.
    pose proof (strip_command ("cline{" +:+ a +:+ "-" +:+ b)) as H.
    rewrite !string_app_assoc in H. exact H. }
  assert (Hcmid : ∀ o a b : string,
    strip ("\cmidrule(" +:+ o +:+ "){" +:+ a +:+ "-" +:+ b +:+ "} ")
    = "\cmidrule(" +:+ o +:+ "){" +:+ a +:+ "-" +:+ b +:+ "}").
  { intros o a b.
    pose proof (strip_command ("cmidrule(" +:+ o +:+ "){" +:+ a +:+ "-" +:+ b))
      as H.
    rewrite !string_app_assoc in H. exact H. }
  unfold add_cline, add_cmidrule, bind, _depends_on, modify. cbn [fst snd].
  split; [done|]. split; [|split; [done|]].
  - cbn; rewrite Hcline; by destruct row, to_col.
  - cbn; rewrite Hcmid; by destruct row, to_col.
Qed.

(** ** Assigning to one slot of a merged cell *)

(** X23. [table[i, j] = value] with two integers that name a slot of
    the grid returns, and changes the text of the cell object of that
    slot: every slot that holds the same object, as the slots of a merged
    cell do, reads the new text afterwards, and every slot that holds
    another object reads the cell it read before. *)
Theorem setitem_integers_aliasing (i j : Z) value s r :
  slot s i j = Ok r → is_Some (s.(heap) !! r) →
  (__setitem__ (Int i) (Int j) value s).1 = Ok () ∧
  ∀ (a b : Z) r' c,
    slot s a b = Ok r' → s.(heap) !! r' = Some c →
    cell_at (__setitem__ (Int i) (Int j) value s).2 a b
    = Ok (if decide (r' = r) then TexTableCell.with_raw_value value c else c).
Proof.
  intros Hr [c0 Hc0].
  unfold __setitem__, bind, get, lift, update_cell. cbn.
  rewrite Hr. cbn. rewrite Hc0. cbn. split; [done|].
  intros a b r' c Hr' Hc. apply cell_at_Ok. exists r'. split; [done|]. cbn.
  case_decide as Heq.
  - subst r'. assert (c = c0) as -> by congruence.
    apply list_lookup_insert_eq. by eapply lookup_lt_Some.
  - by rewrite list_lookup_insert_ne.
Qed.

Lemma setitem_integers_aliasing_witness :
  (__setitem__ (Int 0) (Int 1) "Y" table_1x3_merged).1 = Ok () ∧
  ∀ (a b : Z) r' c,
    slot table_1x3_merged a b = Ok r' →
    table_1x3_merged.(heap) !! r' = Some c →
    cell_at (__setitem__ (Int 0) (Int 1) "Y" table_1x3_merged).2 a b
    = Ok (if decide (r' = 3%nat)
          then TexTableCell.with_raw_value "Y" c else c).
Proof.
  apply (setitem_integers_aliasing 0 1 "Y" table_1x3_merged 3%nat).
  - reflexivity.
  - by eexists.
Defined.
